(** * Dice_auto: a shallow embedding of tests/dice_easy.spec.js

    The script drives a browser through Playwright.  Every call into the
    browser, the Groq client or a timer is an answer of the outside world, so
    the embedding takes the world as an abstract state [W] together with a
    record of oracles ([Browser W]), one field per API call the script makes.
    Asynchronous functions become computations in a small monad that threads
    the world, may raise (a rejected promise) and records the calls it made.
    All theorems quantify over every world and every oracle. *)

From Stdlib Require Import String Ascii List Bool Arith NArith Lia.
Import ListNotations.
Open Scope string_scope.
Open Scope list_scope.
Open Scope nat_scope.

(** String concatenation, the script's [+] and template literals. *)
Infix "+++" := String.append (right associativity, at level 60).

(** ** JavaScript strings

    Strings are sequences of code units below 256 (the Latin-1 part of
    UTF-16), which covers every literal of the script. *)

Module Js.

(** The double quote character, for selectors that contain one. *)
Definition dq : string := String (ascii_of_nat 34) EmptyString.

(** WhiteSpace and LineTerminator code units below 256: what [trim] strips
    and what the regular expression class \s matches. *)
Definition isSpace (c : ascii) : bool :=
  let n := nat_of_ascii c in
  ((9 <=? n) && (n <=? 13)) || (n =? 32) || (n =? 160).

Fixpoint trimStart (s : string) : string :=
  match s with
  | EmptyString => EmptyString
  | String c s' => if isSpace c then trimStart s' else s
  end.

Fixpoint trimEnd (s : string) : string :=
  match s with
  | EmptyString => EmptyString
  | String c s' =>
      match trimEnd s' with
      | EmptyString => if isSpace c then EmptyString else String c EmptyString
      | t => String c t
      end
  end.

Definition trim (s : string) : string := trimEnd (trimStart s).

Definition lowerChar (c : ascii) : ascii :=
  let n := nat_of_ascii c in
  if ((65 <=? n) && (n <=? 90))
     || ((192 <=? n) && (n <=? 222) && negb (n =? 215))
  then ascii_of_nat (n + 32) else c.

Fixpoint toLowerCase (s : string) : string :=
  match s with
  | EmptyString => EmptyString
  | String c s' => String (lowerChar c) (toLowerCase s')
  end.

Definition startsWith (s p : string) : bool := String.prefix p s.

(** [s.includes(sub)] *)
Fixpoint includes (s sub : string) : bool :=
  String.prefix sub s ||
  match s with
  | EmptyString => false
  | String _ s' => includes s' sub
  end.

(** A string is truthy when it is not empty. *)
Definition truthy (s : string) : bool :=
  match s with EmptyString => false | _ => true end.

(** [s.replace(/\s+/g, " ")]: every maximal run of white space becomes one
    space. *)
Fixpoint collapseSpaces (s : string) : string :=
  match s with
  | EmptyString => EmptyString
  | String c s' =>
      if isSpace c then
        match s' with
        | String d _ => if isSpace d then collapseSpaces s'
                        else String " " (collapseSpaces s')
        | EmptyString => String " " EmptyString
        end
      else String c (collapseSpaces s')
  end.

(** [s.split(sep)] for a one-character separator. *)
Fixpoint splitOn (sep : ascii) (s : string) : list string :=
  match s with
  | EmptyString => [EmptyString]
  | String c s' =>
      if Ascii.eqb c sep then EmptyString :: splitOn sep s'
      else match splitOn sep s' with
           | [] => [String c EmptyString]
           | l :: ls => String c l :: ls
           end
  end.

(** [xs.join(sep)] *)
Fixpoint join (sep : string) (xs : list string) : string :=
  match xs with
  | [] => EmptyString
  | [x] => x
  | x :: rest => x +++ sep +++ join sep rest
  end.

Definition newline : ascii := ascii_of_nat 10.

Definition digitChar (d : nat) : ascii := ascii_of_nat (48 + d).

Fixpoint natToStringAux (fuel n : nat) (acc : string) : string :=
  match fuel with
  | O => acc
  | S fuel' =>
      let acc' := String (digitChar (n mod 10)) acc in
      if n / 10 =? 0 then acc' else natToStringAux fuel' (n / 10) acc'
  end.

(** [String(n)] for a non-negative integer. *)
Definition natToString (n : nat) : string := natToStringAux (S n) n EmptyString.

Definition hexDigit (d : nat) : ascii :=
  if d <? 10 then ascii_of_nat (48 + d) else ascii_of_nat (55 + d).

Definition percent (b : nat) : string :=
  String "%" (String (hexDigit (b / 16)) (String (hexDigit (b mod 16)) EmptyString)).

(** The characters [encodeURIComponent] leaves alone. *)
Definition uriUnreserved (c : ascii) : bool :=
  let n := nat_of_ascii c in
  ((65 <=? n) && (n <=? 90)) || ((97 <=? n) && (n <=? 122))
  || ((48 <=? n) && (n <=? 57))
  || (n =? 45) || (n =? 95) || (n =? 46) || (n =? 33) || (n =? 126)
  || (n =? 42) || (n =? 39) || (n =? 40) || (n =? 41).

(** [encodeURIComponent(s)]: the UTF-8 bytes of every other code unit,
    percent-encoded (one byte below 128, two bytes from 128 to 255). *)
Fixpoint encodeURIComponent (s : string) : string :=
  match s with
  | EmptyString => EmptyString
  | String c s' =>
      let n := nat_of_ascii c in
      (if uriUnreserved c then String c EmptyString
       else if n <? 128 then percent n
       else percent (192 + n / 64) +++ percent (128 + n mod 64))
      +++ encodeURIComponent s'
  end.

End Js.

(** ** Values of the script *)

(** Handles into the browser: pages (tabs), element handles and job-card
    locators are opaque references, numbered here. *)
Definition Page := nat.
Definition Element := nat.
Definition Card := nat.

(** The settlement of a promise: fulfilled with a value, or rejected with an
    error, of which the script only ever reads [message]. *)
Inductive res (A : Type) : Type :=
| Ok (a : A)
| Throw (msg : string).
Arguments Ok {A} a.
Arguments Throw {A} msg.

(** The [match] strings checkJobMatchWithLLM returns. *)
Inductive Verdict : Type := MATCH | PARTIAL_MATCH | NO_MATCH | ERROR | SKIPPED_LLM.

Definition verdictName (v : Verdict) : string :=
  match v with
  | MATCH => "MATCH"
  | PARTIAL_MATCH => "PARTIAL_MATCH"
  | NO_MATCH => "NO_MATCH"
  | ERROR => "ERROR"
  | SKIPPED_LLM => "SKIPPED_LLM"
  end.

(** [{ match, reason }]; [reason] is the response text, which may be
    undefined. *)
Record LlmMatch : Type := mkLlm { match_ : Verdict; reason_ : option string }.

(** What applyToJob returns: [{ success, alreadyApplied }] or
    [{ success, reason }]. *)
Record ApplyResult : Type := mkApply {
  a_success : bool;
  a_alreadyApplied : option bool;
  a_reason : option string
}.

(** What processJob returns; a key the object literal leaves out is [None]. *)
Record JobResult : Type := mkJob {
  success : bool;
  reason : option string;
  skipped : option bool;
  alreadyApplied : option bool;
  llmResult : option LlmMatch
}.

(** [{ matches, matchingTerms }] *)
Record Criteria : Type := mkCriteria { matches : bool; matchingTerms : list string }.

(** The functions of the script whose invocation the properties speak of. *)
Inductive Fn : Type :=
| FnApplyToJob (page : Page)
| FnCheckJobMatchWithLLM
| FnProcessJob (card : Card) (cardIndex : nat).

(** What [Promise.all([context.waitForEvent("page"), link.click()])] of
    lines 818-821 comes to.  Both fulfilled: the pair yields the page of the
    event.  The event delivered a tab and the click rejected: the pair
    rejects, and the tab is there all the same.  Otherwise no tab arrived
    and the pair rejects with the reason of the first rejection. *)
Inductive Opening : Type :=
| Delivered (tab : option Page)
| Dropped (tab : Page) (msg : string)
| NoTab (msg : string).

(** What the script sees of it. *)
Definition pairResult (a : Opening) : res (option Page) :=
  match a with
  | Delivered tab => Ok tab
  | Dropped _ msg => Throw msg
  | NoTab msg => Throw msg
  end.

(** The trace of a run: one entry per call that leaves the script, with the
    answer it got.  The last two kinds are no calls: [EvEnter] marks the
    entry into a function of the script and [EvVerdict] the value
    checkJobMatchWithLLM returns, so that a property can say that a function
    is, or is not, invoked, and what the scorer answered. *)
Inductive Event : Type :=
| EvGoto (p : Page) (url : string) (r : res unit)
| EvWaitForTimeout (p : Page) (ms : N) (r : res unit)
| EvTitle (p : Page) (r : res string)
| EvWaitForSelector (p : Page) (sel : string) (r : res unit)
| EvWaitForLoadState (p : Page) (r : res unit)
| EvQuery (p : Page) (sel : string) (r : res (option Element))
| EvQueryAll (p : Page) (sel : string) (r : res (list Element))
| EvTextContent (e : Element) (r : res (option string))
| EvInnerText (p : Page) (e : Element) (r : res (option string))
| EvVisibleText (p : Page) (r : res string)
| EvIsVisible (p : Page) (sel : string) (r : res bool)
| EvClick (p : Page) (sel : string) (r : res unit)
| EvLinkCount (c : Card) (r : res nat)
| EvOpenTab (c : Card) (a : Opening)
| EvClose (p : Page) (r : res unit)
| EvLocatorAll (p : Page) (sel : string) (r : res (list Card))
| EvGroq (cvKeywords : list string) (jobDescription : string) (r : res (option string))
| EvSleep (ms : N)
| EvLogJob (jobTitle companyName status : string) (llmMatch : option LlmMatch)
           (jobPageUrl : option string)
| EvEnter (f : Fn)
| EvVerdict (m : LlmMatch).

(** ** The world

    One oracle per call.  The synchronous getters read the world; every
    awaited call answers, fulfilled or rejected, and moves the world on.

    - [groqClient]: whether the Groq client was created (lines 84-91);
    - [page_isClosed], [page_url], [context_pages_length]: [page.isClosed()],
      [page.url()], [context.pages().length];
    - [page_goto], [page_waitForTimeout], [page_title], [page_waitForSelector],
      [page_waitForLoadState], [page_close]: the methods of the same names;
    - [page_query], [page_queryAll]: [page.$(sel)] and [page.$$(sel)];
    - [element_textContent]: [element.textContent()], which may be null;
    - [element_innerText]: [page.evaluate((el) => el.innerText, element)];
    - [page_visibleText]: the [page.evaluate] of lines 194-206;
    - [locator_isVisible], [locator_click]: [isVisible] and [click] on
      [page.locator(sel).first()];
    - [card_linkCount]: [jobCard.locator("a").first().count()];
    - [card_openTab]: the [Promise.all] of lines 818-821, the wait for the
      new page together with the click on the link of the card;
    - [locator_all]: [page.locator(sel).all()];
    - [groq_create]: [groqClient.chat.completions.create] followed by
      [choices[0]?.message?.content];
    - [elapse]: the time a [setTimeout] lets pass. *)
Record Browser (W : Type) : Type := mkBrowser {
  groqClient : bool;
  page_isClosed : Page -> W -> bool;
  page_url : Page -> W -> string;
  context_pages_length : W -> nat;
  page_goto : Page -> string -> W -> res unit * W;
  page_waitForTimeout : Page -> N -> W -> res unit * W;
  page_title : Page -> W -> res string * W;
  page_waitForSelector : Page -> string -> N -> W -> res unit * W;
  page_waitForLoadState : Page -> W -> res unit * W;
  page_query : Page -> string -> W -> res (option Element) * W;
  page_queryAll : Page -> string -> W -> res (list Element) * W;
  element_textContent : Element -> W -> res (option string) * W;
  element_innerText : Page -> Element -> W -> res (option string) * W;
  page_visibleText : Page -> W -> res string * W;
  locator_isVisible : Page -> string -> N -> W -> res bool * W;
  locator_click : Page -> string -> W -> res unit * W;
  card_linkCount : Card -> W -> res nat * W;
  card_openTab : Card -> W -> Opening * W;
  page_close : Page -> W -> res unit * W;
  locator_all : Page -> string -> W -> res (list Card) * W;
  groq_create : list string -> string -> W -> res (option string) * W;
  elapse : N -> W -> W
}.

(** ** The monad of asynchronous functions

    A computation takes a state and settles: to a value or an exception, a
    new state, and the calls it made on the way. *)

Record Out (S A : Type) : Type := mkOut {
  value : res A;
  final : S;
  events : list Event
}.
Arguments mkOut {S A} value final events.
Arguments value {S A} o.
Arguments final {S A} o.
Arguments events {S A} o.

Definition M (S A : Type) : Type := S -> Out S A.

Definition ret {S A : Type} (a : A) : M S A := fun s => mkOut (Ok a) s [].

Definition throw {S A : Type} (msg : string) : M S A :=
  fun s => mkOut (Throw msg) s [].

Definition bind {S A B : Type} (m : M S A) (k : A -> M S B) : M S B :=
  fun s =>
    match m s with
    | mkOut (Ok a) s1 es1 =>
        match k a s1 with
        | mkOut v s2 es2 => mkOut v s2 (es1 ++ es2)
        end
    | mkOut (Throw msg) s1 es1 => mkOut (Throw msg) s1 es1
    end.

(** [try { m } catch (err) { h err.message }] *)
Definition tryCatch {S A : Type} (m : M S A) (h : string -> M S A) : M S A :=
  fun s =>
    match m s with
    | mkOut (Ok a) s1 es1 => mkOut (Ok a) s1 es1
    | mkOut (Throw msg) s1 es1 =>
        match h msg s1 with
        | mkOut v s2 es2 => mkOut v s2 (es1 ++ es2)
        end
    end.

(** [m] followed by a [finally] block [f] on every exit of [m]; an exception
    of the block itself replaces the completion of [m]. *)
Definition finally {S A : Type} (m : M S A) (f : M S unit) : M S A :=
  fun s =>
    match m s with
    | mkOut v s1 es1 =>
        match f s1 with
        | mkOut (Ok _) s2 es2 => mkOut v s2 (es1 ++ es2)
        | mkOut (Throw msg) s2 es2 => mkOut (Throw msg) s2 (es1 ++ es2)
        end
    end.

(** A promise observed through [Promise.allSettled]: never rejects. *)
Definition settled {S A : Type} (m : M S A) : M S (res A) :=
  fun s => match m s with mkOut v s1 es1 => mkOut (Ok v) s1 es1 end.

Definition gets {S A : Type} (f : S -> A) : M S A := fun s => mkOut (Ok (f s)) s [].

Definition modify {S : Type} (f : S -> S) : M S unit :=
  fun s => mkOut (Ok tt) (f s) [].

Definition emit {S : Type} (e : Event) : M S unit := fun s => mkOut (Ok tt) s [e].

(** An awaited call: the oracle answers, the world moves, the call is
    recorded. *)
Definition call {S A : Type} (f : S -> res A * S) (ev : res A -> Event) : M S A :=
  fun s => let (r, s') := f s in mkOut r s' [ev r].

(** A computation on the world, run beside local variables [L]. *)
Definition lift {L S A : Type} (m : M S A) : M (L * S) A :=
  fun ls => match m (snd ls) with mkOut v s1 es1 => mkOut v (fst ls, s1) es1 end.

Declare Scope js_scope.
Delimit Scope js_scope with js.
Notation "x <- m ;; k" := (bind m (fun x => k))
  (at level 61, m at next level, right associativity) : js_scope.
Notation "m ;; k" := (bind m (fun _ => k))
  (at level 61, right associativity) : js_scope.
Open Scope js_scope.

(** ** Configuration (lines 14-47) *)

Definition SEARCH_ITEMS : list string :=
  [ "Playwright"; "QA"; "Quality"; "Automation"; "SDET";
    "Software Developer Engineer in Test";
    "Performance"; "Load"; "Stress"; "JMeter" ].

Definition MAX_PAGES : nat := 5.
Definition MAX_CONCURRENT_TABS : nat := 2.
Definition TAB_DELAY : N := 3000.
Definition PAGE_DELAY : N := 4000.
Definition BATCH_SIZE : nat := 5.

(** matchesSearchCriteria (lines 628-635) *)
Definition matchesSearchCriteria (jobTitle : string) : Criteria :=
  if negb (Js.truthy jobTitle) then mkCriteria false []
  else
    let titleLower := Js.toLowerCase jobTitle in
    let matchingTerms :=
      filter (fun searchItem => Js.includes titleLower (Js.toLowerCase searchItem))
             SEARCH_ITEMS in
    mkCriteria (0 <? length matchingTerms) matchingTerms.

(** ** The script *)

Section Script.

Context {W : Type} (B : Browser W).

(** *** The calls into the world *)

Definition isClosed (p : Page) : M W bool := gets (page_isClosed W B p).
Definition url (p : Page) : M W string := gets (page_url W B p).
Definition contextPages : M W nat := gets (context_pages_length W B).
Definition goto (p : Page) (u : string) : M W unit :=
  call (page_goto W B p u) (EvGoto p u).
Definition waitForTimeout (p : Page) (ms : N) : M W unit :=
  call (page_waitForTimeout W B p ms) (EvWaitForTimeout p ms).
Definition title (p : Page) : M W string := call (page_title W B p) (EvTitle p).
Definition waitForSelector (p : Page) (sel : string) (timeout : N) : M W unit :=
  call (page_waitForSelector W B p sel timeout) (EvWaitForSelector p sel).
Definition waitForLoadState (p : Page) : M W unit :=
  call (page_waitForLoadState W B p) (EvWaitForLoadState p).
Definition query (p : Page) (sel : string) : M W (option Element) :=
  call (page_query W B p sel) (EvQuery p sel).
Definition queryAll (p : Page) (sel : string) : M W (list Element) :=
  call (page_queryAll W B p sel) (EvQueryAll p sel).
Definition textContent (e : Element) : M W (option string) :=
  call (element_textContent W B e) (EvTextContent e).
Definition innerText (p : Page) (e : Element) : M W (option string) :=
  call (element_innerText W B p e) (EvInnerText p e).
Definition visibleText (p : Page) : M W string :=
  call (page_visibleText W B p) (EvVisibleText p).
Definition isVisible (p : Page) (sel : string) (timeout : N) : M W bool :=
  call (locator_isVisible W B p sel timeout) (EvIsVisible p sel).
Definition click (p : Page) (sel : string) : M W unit :=
  call (locator_click W B p sel) (EvClick p sel).
Definition linkCount (c : Card) : M W nat :=
  call (card_linkCount W B c) (EvLinkCount c).
Definition openTab (c : Card) : M W (option Page) :=
  fun w => let (a, w') := card_openTab W B c w in
           mkOut (pairResult a) w' [EvOpenTab c a].
Definition close (p : Page) : M W unit := call (page_close W B p) (EvClose p).
Definition locatorAll (p : Page) (sel : string) : M W (list Card) :=
  call (locator_all W B p sel) (EvLocatorAll p sel).
Definition groqCreate (cvKeywords : list string) (jobDescription : string)
  : M W (option string) :=
  call (groq_create W B cvKeywords jobDescription) (EvGroq cvKeywords jobDescription).

(** [await new Promise((resolve) => setTimeout(resolve, ms))] *)
Definition sleep (ms : N) : M W unit :=
  fun w => mkOut (Ok tt) (elapse W B ms w) [EvSleep ms].

(** logger.logJob: its body is one try/catch that only reports, so the call
    never rejects; the row it appends is the event. *)
Definition logJob {S : Type} (jobTitle companyName status : string)
  (llmMatch : option LlmMatch) (jobPageUrl : option string) : M S unit :=
  emit (EvLogJob jobTitle companyName status llmMatch jobPageUrl).

(** *** safeGoto (lines 742-766) *)

(** The body of the [try]: [Some b] is [return b], [None] falls out of the
    block into the next round of the loop. *)
Definition safeGoto_try (page : Page) (u : string) : M W (option bool) :=
  closed <- isClosed page ;;
  if closed then ret (Some false)
  else
    goto page u ;;
    waitForTimeout page 2000 ;;
    t <- title page ;;
    if Js.truthy t && (0 <? String.length t) then ret (Some true) else ret None.

Definition safeGoto_catch (page : Page) (retries attempt : nat) : M W (option bool) :=
  closed <- isClosed page ;;
  if (attempt <? retries) && negb closed
  then waitForTimeout page 3000 ;; ret None
  else ret None.

Fixpoint safeGoto_loop (page : Page) (u : string) (retries : nat)
  (attempts : list nat) : M W bool :=
  match attempts with
  | [] => ret false
  | attempt :: rest =>
      r <- tryCatch (safeGoto_try page u)
                    (fun _ => safeGoto_catch page retries attempt) ;;
      match r with
      | Some b => ret b
      | None => safeGoto_loop page u retries rest
      end
  end.

(** [for (let attempt = 0; attempt <= retries; attempt++)] *)
Definition safeGoto (page : Page) (u : string) (retries : nat) : M W bool :=
  safeGoto_loop page u retries (seq 0 (S retries)).

(** *** The title and company extractors (lines 637-740)

    The two functions are the same text up to their selector list, the
    length bound, the selector of the second scan and the value returned
    when nothing is found. *)

(** [!t || !t.trim()] *)
Definition blank (t : option string) : bool :=
  match t with
  | None => true
  | Some s => negb (Js.truthy s) || negb (Js.truthy (Js.trim s))
  end.

(** [t && t.trim() && t.length > bound] *)
Definition qualifies (bound : nat) (t : option string) : bool :=
  match t with
  | None => false
  | Some s => Js.truthy s && Js.truthy (Js.trim s) && (bound <? String.length s)
  end.

(** textContent, replaced by innerText when blank; [Some s] is [return s]. *)
Definition readElement (page : Page) (bound : nat) (el : Element)
  : M W (option string) :=
  t <- textContent el ;;
  t' <- (if blank t then innerText page el else ret t) ;;
  match t' with
  | Some s => if qualifies bound t' then ret (Some (Js.trim s)) else ret None
  | None => ret None
  end.

Fixpoint selectorLoop (page : Page) (bound : nat) (selectors : list string)
  : M W (option string) :=
  match selectors with
  | [] => ret None
  | selector :: rest =>
      r <- tryCatch
             (element <- query page selector ;;
              match element with
              | Some el => readElement page bound el
              | None => ret None
              end)
             (fun _ => ret None) ;;
      match r with
      | Some s => ret (Some s)
      | None => selectorLoop page bound rest
      end
  end.

Fixpoint elementLoop (page : Page) (bound : nat) (els : list Element)
  : M W (option string) :=
  match els with
  | [] => ret None
  | el :: rest =>
      r <- readElement page bound el ;;
      match r with
      | Some s => ret (Some s)
      | None => elementLoop page bound rest
      end
  end.

Definition extractWith (selectors : list string) (bound : nat)
  (scanSelector unknown : string) (page : Page) : M W string :=
  tryCatch
    (r <- selectorLoop page bound selectors ;;
     match r with
     | Some s => ret s
     | None =>
         r2 <- tryCatch (els <- queryAll page scanSelector ;;
                         elementLoop page bound els)
                        (fun _ => ret None) ;;
         match r2 with
         | Some s => ret s
         | None => ret unknown
         end
     end)
    (fun _ => ret unknown).

Definition titleSelectors : list string :=
  [ "h1[data-testid=" +++ Js.dq +++ "job-title" +++ Js.dq +++ "]";
    "h1[data-cy=" +++ Js.dq +++ "job-title" +++ Js.dq +++ "]";
    "h1.job-title";
    "h1[class*=" +++ Js.dq +++ "job-title" +++ Js.dq +++ "]";
    "h1[class*=" +++ Js.dq +++ "JobTitle" +++ Js.dq +++ "]";
    "h1[id*=" +++ Js.dq +++ "job-title" +++ Js.dq +++ "]";
    "h1:first-of-type";
    "h1";
    ".job-header h1";
    ".job-details h1" ].

Definition companySelectors : list string :=
  [ "[data-testid=" +++ Js.dq +++ "company-name" +++ Js.dq +++ "]";
    "[data-cy=" +++ Js.dq +++ "company-name" +++ Js.dq +++ "]";
    ".company-name";
    "[class*=" +++ Js.dq +++ "company-name" +++ Js.dq +++ "]";
    ".job-company";
    ".employer-name";
    "a[href*=" +++ Js.dq +++ "/company/" +++ Js.dq +++ "]";
    "span[class*=" +++ Js.dq +++ "company" +++ Js.dq +++ "]";
    ".company-info span" ].

Definition companyLikeSelector : string :=
  "[class*=" +++ Js.dq +++ "company" +++ Js.dq +++ "], span[class*=" +++ Js.dq
  +++ "company" +++ Js.dq +++ "], div[class*=" +++ Js.dq +++ "company" +++ Js.dq +++ "]".

Definition extractJobTitleFromDetailPage : Page -> M W string :=
  extractWith titleSelectors 3 "h1" "Unknown Job Title".

Definition extractCompanyName : Page -> M W string :=
  extractWith companySelectors 2 companyLikeSelector "Unknown Company".

(** *** extractJobDescription (lines 154-233) *)

Definition descriptionSelectors : list string :=
  [ "[data-cy=" +++ Js.dq +++ "job-description" +++ Js.dq +++ "]";
    "[data-testid=" +++ Js.dq +++ "job-description" +++ Js.dq +++ "]";
    ".job-description";
    "div[class*=" +++ Js.dq +++ "job-description" +++ Js.dq +++ "]";
    "div[class*=" +++ Js.dq +++ "JobDescription" +++ Js.dq +++ "]";
    "section[id*=" +++ Js.dq +++ "description" +++ Js.dq +++ "]";
    "div[data-qa=" +++ Js.dq +++ "job-description" +++ Js.dq +++ "]";
    "div.job-details-content";
    "div[class*=" +++ Js.dq +++ "description" +++ Js.dq +++ "]" ].

Definition twoNewlines : string :=
  String Js.newline (String Js.newline EmptyString).

(** [if (text && text.trim().length > 200) jobDescriptionText += ...] *)
Definition addDescription (acc : string) (text : option string) : string :=
  match text with
  | Some s =>
      if Js.truthy s && (200 <? String.length (Js.trim s))
      then acc +++ Js.trim s +++ twoNewlines
      else acc
  | None => acc
  end.

(** The inner [for]: an exception leaves it for the [catch] of the selector,
    with what [jobDescriptionText] has gathered so far. *)
Fixpoint descriptionElements (els : list Element) (acc : string) : M W string :=
  match els with
  | [] => ret acc
  | el :: rest =>
      tryCatch (text <- textContent el ;;
                descriptionElements rest (addDescription acc text))
               (fun _ => ret acc)
  end.

Fixpoint descriptionLoop (page : Page) (selectors : list string) (acc : string)
  : M W string :=
  match selectors with
  | [] => ret acc
  | selector :: rest =>
      acc' <- tryCatch (els <- queryAll page selector ;;
                        descriptionElements els acc)
                       (fun _ => ret acc) ;;
      descriptionLoop page rest acc'
  end.

Definition keepLine (line : string) : bool :=
  (50 <? String.length (Js.trim line))
  && negb (Js.startsWith (Js.trim line) "Apply now")
  && negb (Js.startsWith (Js.trim line) "Sign in").

Definition clean (s : string) : string := Js.trim (Js.collapseSpaces s).

Definition extractJobDescription (page : Page) : M W string :=
  tryCatch
    (gathered <- descriptionLoop page descriptionSelectors EmptyString ;;
     let jobDescriptionText := clean gathered in
     if String.length jobDescriptionText <? 200 then
       allVisibleText <- visibleText page ;;
       let lines := Js.splitOn Js.newline (clean allVisibleText) in
       let broader :=
         clean (Js.join (String Js.newline EmptyString) (filter keepLine lines)) in
       if String.length broader <? 200 then ret EmptyString else ret broader
     else ret jobDescriptionText)
    (fun _ => ret EmptyString).

(** *** checkJobMatchWithLLM (lines 236-270)

    The prompt is a function of the two arguments, so the oracle of the chat
    completion is asked with them; its answer is
    [choices[0]?.message?.content], undefined when a link is missing. *)

Definition classifyResponse (responseContent : option string) : LlmMatch :=
  match responseContent with
  | Some s =>
      if Js.truthy s && Js.includes (Js.toLowerCase s) "match"
      then mkLlm MATCH responseContent
      else if Js.truthy s && Js.includes (Js.toLowerCase s) "partial_match"
      then mkLlm PARTIAL_MATCH responseContent
      else mkLlm NO_MATCH responseContent
  | None => mkLlm NO_MATCH responseContent
  end.

Definition checkJobMatchWithLLM (cvKeywords : list string) (jobDescription : string)
  : M W LlmMatch :=
  emit (EvEnter FnCheckJobMatchWithLLM) ;;
  m <- (if negb (groqClient W B) || (length cvKeywords =? 0)
           || negb (Js.truthy jobDescription)
        then ret (mkLlm SKIPPED_LLM (Some "Missing data or LLM client"))
        else
          tryCatch
            (responseContent <- groqCreate cvKeywords jobDescription ;;
             ret (classifyResponse responseContent))
            (fun msg => ret (mkLlm ERROR (Some ("Groq API error: " +++ msg))))) ;;
  emit (EvVerdict m) ;;
  ret m.

(** *** applyToJob (lines 1055-1196) *)

Definition alreadyAppliedSelectors : list string :=
  [ "text=You have already applied";
    "text=Application submitted";
    "text=Already applied";
    ".already-applied";
    "[data-testid='already-applied']";
    "text=Application received";
    "text=Applied" ].

Definition applySelectors : list string :=
  [ "#applyButton";
    "apply-button-wc";
    "button:has-text('Easy apply')";
    "button:has-text('Apply now')";
    "button:has-text('Apply')";
    "[data-testid='apply-button']";
    ".apply-button";
    "button[data-testid='easy-apply']";
    "input[value*='Apply']" ].

Definition nextSelectors : list string :=
  [ "button:has-text('Next')";
    "button:has-text('Continue')";
    "[data-testid='next-button']";
    ".next-button";
    "input[value*='Next']" ].

Definition submitSelectors : list string :=
  [ "button:has-text('Submit')";
    "button:has-text('Submit Application')";
    "input[type='submit']";
    "[data-testid='submit-button']";
    ".submit-button";
    "button:has-text('Send Application')";
    "button:has-text('Apply Now')";
    "input[value*='Submit']" ].

Definition confirmationSelectors : list string :=
  [ ".post-apply-banner";
    "[data-testid='application-confirmation']";
    ".application-success";
    ".confirmation-message";
    "text=Application submitted";
    "text=Successfully applied";
    "text=Application received";
    "text=Thank you for applying";
    "text=Your application has been submitted";
    "text=Application sent" ].

(** The first loop: [true] is the [return] of the already-applied result. *)
Fixpoint alreadyAppliedLoop (page : Page) (selectors : list string) : M W bool :=
  match selectors with
  | [] => ret false
  | selector :: rest =>
      seen <- tryCatch (isVisible page selector 1000) (fun _ => ret false) ;;
      if seen then ret true else alreadyAppliedLoop page rest
  end.

(** One round of the apply loop: the new [applyClicked] and whether the loop
    was left by [break].  [applyClicked = true] is assigned before the wait,
    so it stays assigned when the wait raises into the [catch]. *)
Definition applyStep (page : Page) (selector : string) (applyClicked : bool)
  : M W (bool * bool) :=
  tryCatch
    (seen <- isVisible page selector 2000 ;;
     if seen then
       click page selector ;;
       tryCatch (waitForTimeout page 3000 ;; ret (true, true))
                (fun _ => ret (true, false))
     else ret (applyClicked, false))
    (fun _ => ret (applyClicked, false)).

Fixpoint applyLoop (page : Page) (selectors : list string) (applyClicked : bool)
  : M W bool :=
  match selectors with
  | [] => ret applyClicked
  | selector :: rest =>
      r <- applyStep page selector applyClicked ;;
      if snd r then ret (fst r) else applyLoop page rest (fst r)
  end.

(** The next and submit loops: click the first visible control, wait, stop. *)
Fixpoint clickFirstLoop (page : Page) (selectors : list string) (pause : N)
  : M W unit :=
  match selectors with
  | [] => ret tt
  | selector :: rest =>
      stop <- tryCatch
                (seen <- isVisible page selector 2000 ;;
                 if seen then click page selector ;;
                              waitForTimeout page pause ;;
                              ret true
                 else ret false)
                (fun _ => ret false) ;;
      if stop then ret tt else clickFirstLoop page rest pause
  end.

(** The confirmation loop: [true] is the [return] of the success result. *)
Fixpoint confirmationLoop (page : Page) (selectors : list string) : M W bool :=
  match selectors with
  | [] => ret false
  | selector :: rest =>
      found <- tryCatch (waitForSelector page selector 5000 ;; ret true)
                        (fun _ => ret false) ;;
      if found then ret true else confirmationLoop page rest
  end.

Definition urlIndicatesSuccess (currentUrl : string) : bool :=
  Js.includes currentUrl "success" || Js.includes currentUrl "applied"
  || Js.includes currentUrl "confirmation" || Js.includes currentUrl "thank-you".

Definition applied : ApplyResult := mkApply true (Some false) None.
Definition appliedBefore : ApplyResult := mkApply true (Some true) None.
Definition notApplied (why : string) : ApplyResult := mkApply false None (Some why).

Definition applyToJob (page : Page) : M W ApplyResult :=
  emit (EvEnter (FnApplyToJob page)) ;;
  tryCatch
    (closed <- isClosed page ;;
     if closed then ret (notApplied "Page is closed")
     else
       waitForTimeout page 2000 ;;
       already <- alreadyAppliedLoop page alreadyAppliedSelectors ;;
       if already then ret appliedBefore
       else
         applyClicked <- applyLoop page applySelectors false ;;
         if negb applyClicked then ret (notApplied "No Apply button found")
         else
           clickFirstLoop page nextSelectors 3000 ;;
           clickFirstLoop page submitSelectors 4000 ;;
           confirmed <- confirmationLoop page confirmationSelectors ;;
           if confirmed then ret applied
           else
             currentUrl <- url page ;;
             if urlIndicatesSuccess currentUrl then ret applied
             else ret applied)
    (fun msg => ret (notApplied msg)).

(** *** processJob (lines 781-985) *)

(** The [let] variables the [catch] and [finally] blocks read. *)
Record Locals : Type := mkLocals {
  newTab : option Page;
  jobTitle : string;
  companyName : string;
  currentJobPageUrl : option string
}.

Definition initialLocals : Locals :=
  mkLocals None "Unknown Job Title" "Unknown Company" None.

Definition getLocals : M (Locals * W) Locals := gets fst.

Definition setNewTab (t : option Page) : M (Locals * W) unit :=
  modify (fun ls => (mkLocals t (jobTitle (fst ls)) (companyName (fst ls))
                               (currentJobPageUrl (fst ls)), snd ls)).

Definition setJobTitle (s : string) : M (Locals * W) unit :=
  modify (fun ls => (mkLocals (newTab (fst ls)) s (companyName (fst ls))
                               (currentJobPageUrl (fst ls)), snd ls)).

Definition setCompanyName (s : string) : M (Locals * W) unit :=
  modify (fun ls => (mkLocals (newTab (fst ls)) (jobTitle (fst ls)) s
                               (currentJobPageUrl (fst ls)), snd ls)).

Definition setCurrentJobPageUrl (u : option string) : M (Locals * W) unit :=
  modify (fun ls => (mkLocals (newTab (fst ls)) (jobTitle (fst ls))
                               (companyName (fst ls)) u, snd ls)).

(** [logger.logJob(jobTitle, companyName, status, llm, "", currentJobPageUrl)]
    with the current values of the variables. *)
Definition logOutcome (status : string) (llm : option LlmMatch) : M (Locals * W) unit :=
  l <- getLocals ;;
  logJob (jobTitle l) (companyName l) status llm (currentJobPageUrl l).

Definition isRejection (m : LlmMatch) : bool :=
  match match_ m with
  | NO_MATCH | ERROR => true
  | _ => false
  end.

Definition isAcceptance (m : option LlmMatch) : bool :=
  match m with
  | Some r => match match_ r with
              | MATCH | PARTIAL_MATCH => true
              | _ => false
              end
  | None => false
  end.

(** Lines 898-961: apply, or skip when nothing speaks for the job. *)
Definition processJob_apply (tab : Page) (title company : string)
  (pageUrl : option string) (jobDescription : string) (isInitialMatch : Criteria)
  (llmMatchResult : option LlmMatch) : M W JobResult :=
  if isAcceptance llmMatchResult
     || (negb (Js.truthy jobDescription) && matches isInitialMatch)
     || matches isInitialMatch
  then
    applicationResult <- applyToJob tab ;;
    if a_success applicationResult then
      let status := match a_alreadyApplied applicationResult with
                    | Some true => "Already Applied"
                    | _ => "Success - Applied"
                    end in
      logJob title company status llmMatchResult pageUrl ;;
      ret (mkJob true None None (a_alreadyApplied applicationResult) llmMatchResult)
    else
      let why := match a_reason applicationResult with
                 | Some r => r
                 | None => "undefined"
                 end in
      logJob title company ("Failed - " +++ why) llmMatchResult pageUrl ;;
      ret (mkJob false (a_reason applicationResult) None None llmMatchResult)
  else
    let status := "Skipped (No LLM Match or Fallback Failed)" in
    logJob title company status llmMatchResult pageUrl ;;
    ret (mkJob false (Some status) (Some true) None llmMatchResult).

(** Lines 848-961, the deciding step: from the extracted title and
    description to the outcome of the job. *)
Definition processJob_decide (cvKeywords : list string) (tab : Page)
  (title company : string) (pageUrl : option string) (jobDescription : string)
  : M W JobResult :=
  let isInitialMatch := matchesSearchCriteria title in
  if negb (matches isInitialMatch) && Js.truthy jobDescription then
    llmMatchResult <- checkJobMatchWithLLM cvKeywords jobDescription ;;
    if isRejection llmMatchResult then
      let status := "Skipped (LLM " +++ verdictName (match_ llmMatchResult) +++ ")" in
      logJob title company status (Some llmMatchResult) pageUrl ;;
      ret (mkJob false (Some ("LLM " +++ verdictName (match_ llmMatchResult)))
                 (Some true) None (Some llmMatchResult))
    else
      processJob_apply tab title company pageUrl jobDescription isInitialMatch
                       (Some llmMatchResult)
  else if negb (Js.truthy jobDescription) && negb (matches isInitialMatch) then
    let why := "Skipped - No LLM info & No initial match" in
    logJob title company why None pageUrl ;;
    ret (mkJob false (Some why) (Some true) None None)
  else
    processJob_apply tab title company pageUrl jobDescription isInitialMatch None.

(** Lines 836-961, once the new tab is there. *)
Definition processJob_onTab (cvKeywords : list string) (tab : Page)
  : M (Locals * W) JobResult :=
  lift (waitForLoadState tab) ;;
  lift (waitForTimeout tab 2000) ;;
  pageUrl <- lift (url tab) ;;
  setCurrentJobPageUrl (Some pageUrl) ;;
  t <- lift (extractJobTitleFromDetailPage tab) ;;
  setJobTitle t ;;
  c <- lift (extractCompanyName tab) ;;
  setCompanyName c ;;
  jobDescription <- lift (extractJobDescription tab) ;;
  lift (processJob_decide cvKeywords tab t c (Some pageUrl) jobDescription).

(** The [try] block. *)
Definition processJob_try (jobCard : Card) (cvKeywords : list string)
  : M (Locals * W) JobResult :=
  n <- lift contextPages ;;
  if n =? 0 then
    logOutcome "Skipped - Context closed" None ;;
    ret (mkJob false (Some "Context closed") (Some true) None None)
  else
    jobCardLinkCount <- lift (linkCount jobCard) ;;
    if jobCardLinkCount =? 0 then
      logOutcome "Failed - No clickable link" None ;;
      ret (mkJob false (Some "No clickable link") None None None)
    else
      opened <- lift (openTab jobCard) ;;
      setNewTab opened ;;
      gone <- match opened with
              | Some tab => lift (isClosed tab)
              | None => ret true
              end ;;
      match opened with
      | Some tab =>
          if gone then
            logOutcome "Failed - Tab opening error" None ;;
            ret (mkJob false (Some "Tab opening error") None None None)
          else processJob_onTab cvKeywords tab
      | None =>
          logOutcome "Failed - Tab opening error" None ;;
          ret (mkJob false (Some "Tab opening error") None None None)
      end.

(** The [catch] block; its [llmMatchResult] is the outer variable, which
    the [let] of the same name inside [try] shadows and so is always null. *)
Definition processJob_catch (msg : string) : M (Locals * W) JobResult :=
  logOutcome ("Failed - " +++ msg) None ;;
  ret (mkJob false (Some msg) None None None).

(** The [finally] block. *)
Definition processJob_finally : M (Locals * W) unit :=
  l <- getLocals ;;
  match newTab l with
  | Some tab =>
      closed <- lift (isClosed tab) ;;
      if negb closed then tryCatch (lift (close tab)) (fun _ => ret tt)
      else ret tt
  | None => ret tt
  end.

Definition processJob_body (jobCard : Card) (cvKeywords : list string)
  : M (Locals * W) JobResult :=
  finally (tryCatch (processJob_try jobCard cvKeywords) processJob_catch)
          processJob_finally.

Definition processJob (jobCard : Card) (cardIndex : nat) (cvKeywords : list string)
  : M W JobResult :=
  fun w =>
    match (emit (EvEnter (FnProcessJob jobCard cardIndex)) ;;
           processJob_body jobCard cvKeywords) (initialLocals, w) with
    | mkOut v ls es => mkOut v (snd ls) es
    end.

(** *** processJobBatch (lines 988-1025)

    The script starts the tasks of a group together: their timers run side
    by side and their calls may interleave.  The model follows one of these
    schedules, the one in which each task runs to its end before the next
    starts, in index order, each from the world the one before left, its
    timer counted from there.  In a world whose answers depend on the time
    or on what another task did, another schedule may give other results.
    What no schedule changes is the number and the order of the entries:
    [Promise.allSettled] answers with one settlement for each task, in the
    order of its argument. *)

Definition contextClosed : JobResult :=
  mkJob false (Some "Context closed") (Some true) None None.

(** The function mapped over a group. *)
Definition batchTask (cvKeywords : list string) (i : nat) (index : nat)
  (jobCard : Card) : M W JobResult :=
  sleep (N.of_nat index * TAB_DELAY) ;;
  n <- contextPages ;;
  if n =? 0 then ret contextClosed
  else processJob jobCard (i + index) cvKeywords.

(** [result.status === 'fulfilled' ? result.value
     : { success: false, reason: result.reason }] *)
Definition entryOf (result : res JobResult) : JobResult :=
  match result with
  | Ok v => v
  | Throw why => mkJob false (Some why) None None None
  end.

(** [Promise.allSettled(batch.map(...))] *)
Fixpoint allSettled (cvKeywords : list string) (i : nat) (index : nat)
  (batch : list Card) : M W (list (res JobResult)) :=
  match batch with
  | [] => ret []
  | jobCard :: rest =>
      r <- settled (batchTask cvKeywords i index jobCard) ;;
      rs <- allSettled cvKeywords i (S index) rest ;;
      ret (r :: rs)
  end.

(** [jobCards.slice(i, i + limit)] *)
Definition slice {A : Type} (i j : nat) (xs : list A) : list A :=
  firstn (j - i) (skipn i xs).

(** The [for] loop, for a group size [limit]; [rounds] bounds the number of
    rounds, and the length of the list is enough of them when [limit] is
    positive. *)
Fixpoint batchLoop (cvKeywords : list string) (limit : nat) (jobCards : list Card)
  (rounds : nat) (i : nat) (results : list JobResult) : M W (list JobResult) :=
  match rounds with
  | O => ret results
  | S rounds' =>
      if i <? length jobCards then
        n <- contextPages ;;
        if n =? 0 then ret results
        else
          let batch := slice i (i + limit) jobCards in
          batchResults <- allSettled cvKeywords i 0 batch ;;
          let results' := results ++ map entryOf batchResults in
          if i + limit <? length jobCards then
            n' <- contextPages ;;
            if n' =? 0 then ret results'
            else
              sleep PAGE_DELAY ;;
              batchLoop cvKeywords limit jobCards rounds' (i + limit) results'
          else batchLoop cvKeywords limit jobCards rounds' (i + limit) results'
      else ret results
  end.

Definition processJobBatchWith (limit : nat) (jobCards : list Card)
  (cvKeywords : list string) : M W (list JobResult) :=
  batchLoop cvKeywords limit jobCards (length jobCards) 0 [].

Definition processJobBatch : list Card -> list string -> M W (list JobResult) :=
  processJobBatchWith MAX_CONCURRENT_TABS.

(** *** The search driver (lines 1201-1326) *)

Record Stats : Type := mkStats {
  st_applied : nat;
  st_failed : nat;
  st_skipped : nat;
  st_alreadyApplied : nat;
  st_total : nat;
  st_llmMatch : nat;
  st_llmPartialMatch : nat;
  st_llmNoMatch : nat
}.

Definition isTrue (b : option bool) : bool :=
  match b with Some true => true | _ => false end.

(** The body of [results.forEach] (lines 1296-1313). *)
Definition tally (stats : Stats) (result : JobResult) : Stats :=
  let s1 :=
    if success result then
      if isTrue (alreadyApplied result)
      then mkStats (st_applied stats) (st_failed stats) (st_skipped stats)
                   (S (st_alreadyApplied stats)) (S (st_total stats))
                   (st_llmMatch stats) (st_llmPartialMatch stats) (st_llmNoMatch stats)
      else mkStats (S (st_applied stats)) (st_failed stats) (st_skipped stats)
                   (st_alreadyApplied stats) (S (st_total stats))
                   (st_llmMatch stats) (st_llmPartialMatch stats) (st_llmNoMatch stats)
    else if isTrue (skipped result)
      then mkStats (st_applied stats) (st_failed stats) (S (st_skipped stats))
                   (st_alreadyApplied stats) (S (st_total stats))
                   (st_llmMatch stats) (st_llmPartialMatch stats) (st_llmNoMatch stats)
      else mkStats (st_applied stats) (S (st_failed stats)) (st_skipped stats)
                   (st_alreadyApplied stats) (S (st_total stats))
                   (st_llmMatch stats) (st_llmPartialMatch stats) (st_llmNoMatch stats) in
  match llmResult result with
  | Some m =>
      match match_ m with
      | MATCH => mkStats (st_applied s1) (st_failed s1) (st_skipped s1)
                         (st_alreadyApplied s1) (st_total s1)
                         (S (st_llmMatch s1)) (st_llmPartialMatch s1) (st_llmNoMatch s1)
      | PARTIAL_MATCH => mkStats (st_applied s1) (st_failed s1) (st_skipped s1)
                         (st_alreadyApplied s1) (st_total s1)
                         (st_llmMatch s1) (S (st_llmPartialMatch s1)) (st_llmNoMatch s1)
      | NO_MATCH => mkStats (st_applied s1) (st_failed s1) (st_skipped s1)
                         (st_alreadyApplied s1) (st_total s1)
                         (st_llmMatch s1) (st_llmPartialMatch s1) (S (st_llmNoMatch s1))
      | _ => s1
      end
  | None => s1
  end.

Definition cardSelector : string := "[data-testid='job-search-serp-card']".

Definition searchUrl (searchTerm : string) (pageNum : nat) : string :=
  "https://www.dice.com/jobs?filters.easyApply=true&filters.postedDate=ONE&q="
  +++ Js.encodeURIComponent searchTerm
  +++ (if 1 <? pageNum then "&page=" +++ Js.natToString pageNum else EmptyString).

(** The loop over the page numbers of one term (lines 1256-1320); [stats]
    is the script's global, kept beside the world. *)
Fixpoint pageLoop (page : Page) (searchTerm : string) (cvKeywords : list string)
  (pageNums : list nat) : M (Stats * W) unit :=
  match pageNums with
  | [] => ret tt
  | pageNum :: rest =>
      closed <- lift (isClosed page) ;;
      if closed then ret tt
      else
        pageLoaded <- lift (safeGoto page (searchUrl searchTerm pageNum) 2) ;;
        if negb pageLoaded then pageLoop page searchTerm cvKeywords rest
        else
          found <- lift (tryCatch (waitForSelector page cardSelector 15000 ;; ret true)
                                  (fun _ => ret false)) ;;
          if negb found then ret tt
          else
            jobCards <- lift (locatorAll page cardSelector) ;;
            if 0 <? length jobCards then
              results <- lift (processJobBatch jobCards cvKeywords) ;;
              modify (fun s => (fold_left tally results (fst s), snd s)) ;;
              pageLoop page searchTerm cvKeywords rest
            else ret tt
  end.

(** [for (let pageNum = 1; pageNum <= MAX_PAGES; pageNum++)] *)
Definition searchTermPages (page : Page) (searchTerm : string)
  (cvKeywords : list string) : M (Stats * W) unit :=
  pageLoop page searchTerm cvKeywords (seq 1 MAX_PAGES).

(** [for (const searchTerm of batch)] *)
Fixpoint searchTerms (page : Page) (batch : list string) (cvKeywords : list string)
  : M (Stats * W) unit :=
  match batch with
  | [] => ret tt
  | searchTerm :: rest =>
      searchTermPages page searchTerm cvKeywords ;;
      searchTerms page rest cvKeywords
  end.

End Script.

(** * The rest of the script *)

(** ** The tests, one per group of search terms (lines 1235-1238) *)

(** [for (let i = 0; i < items.length; i += size)] collecting
    [items.slice(i, i + size)]; the length of the list bounds the rounds,
    which is enough of them when [size] is positive. *)
Fixpoint termBatches_loop (items : list string) (size rounds i : nat)
  : list (list string) :=
  match rounds with
  | O => []
  | S rounds' =>
      if i <? length items
      then slice i (i + size) items :: termBatches_loop items size rounds' (i + size)
      else []
  end.

Definition termBatches (items : list string) (size : nat) : list (list string) :=
  termBatches_loop items size (length items) 0.

(** The groups the script generates its tests from. *)
Definition testBatches : list (list string) := termBatches SEARCH_ITEMS BATCH_SIZE.

(** ** JobApplicationLogger (lines 444-625) *)

Module Logger.

Fixpoint fill (n : nat) (c : ascii) : string :=
  match n with
  | O => EmptyString
  | S n' => String c (fill n' c)
  end.

(** [s.padStart(n, c)] for a one-character filler. *)
Definition padStart (n : nat) (c : ascii) (s : string) : string :=
  fill (n - String.length s) c +++ s.

(** [hours % 12 || 12] *)
Definition displayHours (hours : nat) : nat :=
  if hours mod 12 =? 0 then 12 else hours mod 12.

(** [hours >= 12 ? "PM" : "AM"] *)
Definition ampm (hours : nat) : string := if 12 <=? hours then "PM" else "AM".

(** generateFilename (lines 461-475), from the fields of the current date:
    [getFullYear()], [getMonth()], [getDate()], [getHours()],
    [getMinutes()]. *)
Definition generateFilename (year month date hours minutes : nat) : string :=
  "JobApp_" +++ Js.natToString year +++ "-"
  +++ padStart 2 "0" (Js.natToString (month + 1)) +++ "-"
  +++ padStart 2 "0" (Js.natToString date) +++ "_"
  +++ padStart 2 "0" (Js.natToString (displayHours hours)) +++ "-"
  +++ padStart 2 "0" (Js.natToString minutes) +++ "-"
  +++ ampm hours +++ ".xlsx".

(** categorizeStatus (lines 595-607) *)
Definition categorizeStatus (status : string) : string :=
  let statusLower := Js.toLowerCase status in
  if Js.includes statusLower "success" || Js.includes statusLower "applied"
  then "success"
  else if Js.includes statusLower "already applied" then "already_applied"
  else if Js.includes statusLower "skipped" then "skipped"
  else if Js.includes statusLower "failed" || Js.includes statusLower "error"
  then "failed"
  else if Js.includes statusLower "llm match" then "llm_match"
  else if Js.includes statusLower "llm partial_match" then "llm_partial_match"
  else if Js.includes statusLower "llm no_match" then "llm_no_match"
  else "unknown".

(** The colour logJob fills the row with (lines 552-571). *)
Definition fillColor (status : string) : string :=
  let statusLower := Js.toLowerCase status in
  if Js.includes statusLower "success" || Js.includes statusLower "applied"
  then "FFD4EDDA"
  else if Js.includes statusLower "failed" || Js.includes statusLower "error"
  then "FFF8D7DA"
  else if Js.includes statusLower "already applied" then "FFFFEAA7"
  else if Js.includes statusLower "skipped" then "FFFFF3CD"
  else if Js.includes statusLower "llm match" then "FFDAEDDB"
  else if Js.includes statusLower "llm partial match" then "FFFFEEBB"
  else if Js.includes statusLower "llm no_match" then "FFE6E6E6"
  else "FFFFFFFF".

(** The object logJob builds (lines 534-544). *)
Record JobEntry : Type := mkEntry {
  serialNo : nat;
  e_jobTitle : string;
  e_companyName : string;
  e_status : string;
  e_timestamp : string;
  e_category : string;
  e_llmMatchScore : string;
  e_llmReason : option string;
  e_jobPageUrl : string
}.

(** The fields of the logger the methods below read and write: the rows of
    the worksheet ([None] before initializeExcel), each with its fill colour
    ([None] for a row that was added and not styled), [serialNumber],
    [jobData], and the number of times the workbook was written to its
    file. *)
Record State : Type := mkState {
  worksheet : option (list (JobEntry * option string));
  serialNumber : nat;
  jobData : list JobEntry;
  writes : nat
}.

(** The constructor (lines 445-459). *)
Definition create : State := mkState None 1 [] 0.

(** initializeExcel (lines 477-516).  [dirs] is the outcome of the steps
    before [this.worksheet] is assigned (making sure that the two directories
    exist, and addWorksheet, lines 479-489), [sheet] that of the steps after
    it (the columns and the header row, lines 491-509).  Either failure is
    raised again; after the second the worksheet stays assigned. *)
Definition initializeExcel (dirs sheet : res unit) (l : State) : res unit * State :=
  match dirs with
  | Ok _ =>
      let l' := mkState (Some []) (serialNumber l) (jobData l) (writes l) in
      match sheet with
      | Ok _ => (Ok tt, l')
      | Throw msg => (Throw msg, l')
      end
  | Throw msg => (Throw msg, l)
  end.

(** What the worksheet does with a row: addRow and the assignments that
    style the row go through; addRow raises (line 547); or addRow adds the
    row and one of the assignments that style it raises (lines 549-576). *)
Inductive SheetAnswer : Type := Written | AddRowRaises | StylingRaises.

(** [x || d] on strings *)
Definition orElse (x d : string) : string := if Js.truthy x then x else d.

(** logJob (lines 518-593).  [timestamp] is [new Date().toLocaleString()];
    [sheet] is what the worksheet does with the row.  When a call into the
    worksheet raises, the [catch] leaves [jobData] with the entry pushed and
    [serialNumber] as it was; a row that addRow had added by then stays in
    the worksheet.  saveExcel swallows a failure of the write, so the write
    is only counted. *)
Definition logJob (timestamp : string) (sheet : SheetAnswer)
  (jobTitle companyName status : string) (llmMatch : option LlmMatch)
  (jobPageUrl : option string) (l : State) : State :=
  match worksheet l with
  | None => l
  | Some rows =>
      let jobEntry :=
        mkEntry (serialNumber l)
                (orElse jobTitle "Unknown Job Title")
                (orElse companyName "Unknown Company")
                status timestamp (categorizeStatus status)
                (match llmMatch with
                 | Some m => verdictName (match_ m)
                 | None => "N/A"
                 end)
                (match llmMatch with
                 | Some m => reason_ m
                 | None => Some EmptyString
                 end)
                (match jobPageUrl with
                 | Some u => orElse u "N/A"
                 | None => "N/A"
                 end) in
      let jobData' := jobData l ++ [jobEntry] in
      match sheet with
      | Written =>
          let serialNumber' := S (serialNumber l) in
          mkState (Some (rows ++ [(jobEntry, Some (fillColor status))]))
                  serialNumber' jobData'
                  (if serialNumber' mod 5 =? 0 then S (writes l) else writes l)
      | AddRowRaises => mkState (Some rows) (serialNumber l) jobData' (writes l)
      | StylingRaises =>
          mkState (Some (rows ++ [(jobEntry, None)])) (serialNumber l) jobData'
                  (writes l)
      end
  end.

(** [getLogSummary().totalEntries] (line 620) *)
Definition totalEntries (l : State) : nat := serialNumber l - 1.

(** One call of logJob: its arguments and the two answers of the outside. *)
Record Call : Type := mkCall {
  c_timestamp : string;
  c_sheet : SheetAnswer;
  c_jobTitle : string;
  c_companyName : string;
  c_status : string;
  c_llmMatch : option LlmMatch;
  c_jobPageUrl : option string
}.

(** The calls into the worksheet all went through. *)
Definition c_sheetOk (c : Call) : bool :=
  match c_sheet c with Written => true | _ => false end.

(** addRow went through. *)
Definition c_rowAdded (c : Call) : bool :=
  match c_sheet c with AddRowRaises => false | _ => true end.

Definition logCall (l : State) (c : Call) : State :=
  logJob (c_timestamp c) (c_sheet c) (c_jobTitle c) (c_companyName c) (c_status c)
         (c_llmMatch c) (c_jobPageUrl c) l.

(** A series of calls of logJob, one after the other. *)
Definition logAll (calls : list Call) (l : State) : State := fold_left logCall calls l.

End Logger.

(** ** getCVKeywords (lines 110-151) *)

Section Keywords.

Context {W : Type} (B : Browser W).

(** The chat completion of the keyword prompt, asked with the text of the
    CV: [choices[0]?.message?.content], or the rejection of the request. *)
Variable groq_keywords : string -> W -> res (option string) * W.

(** An awaited call the trace does not record. *)
Definition ask {S A : Type} (f : S -> res A * S) : M S A :=
  fun s => let (r, s') := f s in mkOut r s' [].

Definition keywordsOf (responseContent : string) : list string :=
  filter (fun kw => 1 <? String.length kw)
         (map Js.trim (Js.splitOn Js.newline responseContent)).

Definition getCVKeywords (cvText : string) : M W (list string) :=
  if negb (groqClient W B) || negb (Js.truthy cvText) then ret []
  else
    tryCatch
      (responseContent <- ask (groq_keywords cvText) ;;
       match responseContent with
       | Some s =>
           if negb (Js.truthy s)
              || String.eqb (Js.toLowerCase s) "no relevant skills found"
           then ret []
           else ret (keywordsOf s)
       | None => ret []
       end)
      (fun _ => ret []).

End Keywords.

(** ** safeClick and performLogin (lines 768-778 and 1028-1052) *)

Definition LOGIN_URL : string := "https://www.dice.com/dashboard/login".

Definition emailInput : string := "input[name=" +++ Js.dq +++ "email" +++ Js.dq +++ "]".
Definition passwordInput : string :=
  "input[name=" +++ Js.dq +++ "password" +++ Js.dq +++ "]".
Definition submitButton : string :=
  "button[type=" +++ Js.dq +++ "submit" +++ Js.dq +++ "]".

Section Login.

Context {W : Type} (B : Browser W).

(** [page.fill(selector, value)] and [page.waitForNavigation(...)]; the
    trace does not record them. *)
Variable page_fill : Page -> string -> option string -> W -> res unit * W.
Variable page_waitForNavigation : Page -> W -> res unit * W.

(** DICE_USERNAME and DICE_PASSWORD of the environment, undefined when not
    set (lines 38-39). *)
Variables USERNAME PASSWORD : option string.

Definition safeClick (page : Page) (selector : string) : M W bool :=
  tryCatch (waitForSelector B page selector 10000 ;;
            click B page selector ;;
            ret true)
           (fun _ => ret false).

(** The click and the wait for the navigation of [Promise.all] overlap in
    time; here the click runs first and the wait settles after it.  The
    click never rejects, so the pair rejects exactly when the wait does. *)
Definition performLogin (page : Page) : M W unit :=
  currentUrl <- url B page ;;
  if Js.includes currentUrl "/dashboard/overview" then ret tt
  else
    loginSuccess <- safeGoto B page LOGIN_URL 2 ;;
    if negb loginSuccess then throw "Failed to load login page"
    else
      tryCatch
        (waitForSelector B page emailInput 15000 ;;
         ask (page_fill page emailInput USERNAME) ;;
         safeClick page submitButton ;;
         waitForSelector B page passwordInput 15000 ;;
         ask (page_fill page passwordInput PASSWORD) ;;
         safeClick page submitButton ;;
         ask (page_waitForNavigation page) ;;
         waitForTimeout B page 3000)
        (fun msg => throw ("Login failed: " +++ msg)).

End Login.

(** * Concrete worlds

    Worlds to run the script in.  The state is a clock that every awaited
    call advances. *)

Module Worlds.

Definition tick {A : Type} (r : res A) (w : nat) : res A * nat := (r, S w).

(** A site that answers every call and does not change: which locators are
    visible, which selectors are present, what the elements of the detail
    page hold, which cards the result page lists and what the scorer says. *)
Record Site : Type := mkSite {
  site_groq : option (res (option string));
  site_visible : string -> bool;
  site_present : string -> bool;
  site_url : string;
  site_dom : string -> list Element;
  site_text : Element -> option string;
  site_inner : Element -> option string;
  site_body : string;
  site_cards : list Card;
  site_links : Card -> nat;
  site_tab : Card -> Page
}.

Definition siteBrowser (s : Site) : Browser nat :=
  mkBrowser nat
    (match site_groq s with Some _ => true | None => false end)
    (fun _ _ => false)
    (fun _ _ => site_url s)
    (fun _ => 1)
    (fun _ _ => tick (Ok tt))
    (fun _ _ => tick (Ok tt))
    (fun _ => tick (Ok "Dice"))
    (fun _ sel _ => tick (if site_present s sel then Ok tt else Throw "Timeout"))
    (fun _ => tick (Ok tt))
    (fun _ sel => tick (Ok (hd_error (site_dom s sel))))
    (fun _ sel => tick (Ok (site_dom s sel)))
    (fun el => tick (Ok (site_text s el)))
    (fun _ el => tick (Ok (site_inner s el)))
    (fun _ => tick (Ok (site_body s)))
    (fun _ sel _ => tick (Ok (site_visible s sel)))
    (fun _ _ => tick (Ok tt))
    (fun c => tick (Ok (site_links s c)))
    (fun c w => (Delivered (Some (site_tab s c)), S w))
    (fun _ => tick (Ok tt))
    (fun _ _ => tick (Ok (site_cards s)))
    (fun _ _ => tick (match site_groq s with
                      | Some r => r
                      | None => Throw "no client"
                      end))
    (fun ms w => w + N.to_nat ms).

(** The same world with other answers to some calls. *)
Definition withGoto {W : Type} (f : Page -> string -> W -> res unit * W)
  (B : Browser W) : Browser W :=
  mkBrowser W (groqClient W B) (page_isClosed W B) (page_url W B)
    (context_pages_length W B) f (page_waitForTimeout W B) (page_title W B)
    (page_waitForSelector W B) (page_waitForLoadState W B) (page_query W B)
    (page_queryAll W B) (element_textContent W B) (element_innerText W B)
    (page_visibleText W B) (locator_isVisible W B) (locator_click W B)
    (card_linkCount W B) (card_openTab W B) (page_close W B) (locator_all W B)
    (groq_create W B) (elapse W B).

Definition withWaitForTimeout {W : Type} (f : Page -> N -> W -> res unit * W)
  (B : Browser W) : Browser W :=
  mkBrowser W (groqClient W B) (page_isClosed W B) (page_url W B)
    (context_pages_length W B) (page_goto W B) f (page_title W B)
    (page_waitForSelector W B) (page_waitForLoadState W B) (page_query W B)
    (page_queryAll W B) (element_textContent W B) (element_innerText W B)
    (page_visibleText W B) (locator_isVisible W B) (locator_click W B)
    (card_linkCount W B) (card_openTab W B) (page_close W B) (locator_all W B)
    (groq_create W B) (elapse W B).

Definition withContextPages {W : Type} (f : W -> nat) (B : Browser W) : Browser W :=
  mkBrowser W (groqClient W B) (page_isClosed W B) (page_url W B)
    f (page_goto W B) (page_waitForTimeout W B) (page_title W B)
    (page_waitForSelector W B) (page_waitForLoadState W B) (page_query W B)
    (page_queryAll W B) (element_textContent W B) (element_innerText W B)
    (page_visibleText W B) (locator_isVisible W B) (locator_click W B)
    (card_linkCount W B) (card_openTab W B) (page_close W B) (locator_all W B)
    (groq_create W B) (elapse W B).

(** An empty site: nothing visible, nothing present, no text, no cards. *)
Definition emptySite : Site :=
  mkSite None (fun _ => false) (fun _ => false) "https://www.dice.com/job-detail/1"
         (fun _ => []) (fun _ => None) (fun _ => None) EmptyString [] (fun _ => 1)
         (fun c => 100 + c).

(** A detail page with an Easy apply button and no confirmation banner. *)
Definition easyApplySite : Site :=
  mkSite None (fun sel => String.eqb sel "button:has-text('Easy apply')")
         (fun _ => false) "https://www.dice.com/job-detail/1"
         (fun _ => []) (fun _ => None) (fun _ => None) EmptyString [] (fun _ => 1)
         (fun c => 100 + c).

(** A detail page of a job applied to before. *)
Definition appliedSite : Site :=
  mkSite None (fun sel => String.eqb sel "text=Applied")
         (fun _ => false) "https://www.dice.com/job-detail/1"
         (fun _ => []) (fun _ => None) (fun _ => None) EmptyString [] (fun _ => 1)
         (fun c => 100 + c).

(** A site whose scorer answers with the given text. *)
Definition scorerSite (answer : string) : Site :=
  mkSite (Some (Ok (Some answer))) (fun _ => false) (fun _ => false)
         "https://www.dice.com/job-detail/1"
         (fun _ => []) (fun _ => None) (fun _ => None) EmptyString [] (fun _ => 1)
         (fun c => 100 + c).

(** A page that is lost while the script waits: it is open at clock 0 and 1
    and closed from clock 2 on; loading fails, and a wait that is pending
    when the page closes is rejected. *)
Definition lostPage : Browser nat :=
  mkBrowser nat
    false
    (fun _ w => 2 <=? w)
    (fun _ _ => "about:blank")
    (fun w => if 2 <=? w then 0 else 1)
    (fun _ _ => tick (Throw "net::ERR_CONNECTION_RESET"))
    (fun _ _ w => (if 2 <=? S w then Throw "Target page has been closed" else Ok tt,
                   S w))
    (fun _ => tick (Ok "Dice"))
    (fun _ _ _ => tick (Throw "Timeout"))
    (fun _ => tick (Ok tt))
    (fun _ _ => tick (Ok None))
    (fun _ _ => tick (Ok []))
    (fun _ => tick (Ok None))
    (fun _ _ => tick (Ok None))
    (fun _ => tick (Ok EmptyString))
    (fun _ _ _ => tick (Ok false))
    (fun _ _ => tick (Ok tt))
    (fun _ => tick (Ok 1))
    (fun _ w => (Delivered None, S w))
    (fun _ => tick (Ok tt))
    (fun _ _ => tick (Ok []))
    (fun _ _ => tick (Throw "no client"))
    (fun ms w => w + N.to_nat ms).

(** A session that loses its last page early: the context has a page at
    clock 0 to 2 and none from clock 3 on. *)
Definition closingContext : Browser nat :=
  withContextPages (fun w => if w <? 3 then 1 else 0) (siteBrowser emptySite).

Definition withClose {W : Type} (f : Page -> W -> res unit * W) (B : Browser W)
  : Browser W :=
  mkBrowser W (groqClient W B) (page_isClosed W B) (page_url W B)
    (context_pages_length W B) (page_goto W B) (page_waitForTimeout W B)
    (page_title W B) (page_waitForSelector W B) (page_waitForLoadState W B)
    (page_query W B) (page_queryAll W B) (element_textContent W B)
    (element_innerText W B) (page_visibleText W B) (locator_isVisible W B)
    (locator_click W B) (card_linkCount W B) (card_openTab W B) f (locator_all W B)
    (groq_create W B) (elapse W B).

Definition withOpenTab {W : Type} (f : Card -> W -> Opening * W) (B : Browser W)
  : Browser W :=
  mkBrowser W (groqClient W B) (page_isClosed W B) (page_url W B)
    (context_pages_length W B) (page_goto W B) (page_waitForTimeout W B)
    (page_title W B) (page_waitForSelector W B) (page_waitForLoadState W B)
    (page_query W B) (page_queryAll W B) (element_textContent W B)
    (element_innerText W B) (page_visibleText W B) (locator_isVisible W B)
    (locator_click W B) (card_linkCount W B) f (page_close W B) (locator_all W B)
    (groq_create W B) (elapse W B).

(** A tab that does not react: it stays open, and [close] on it is
    rejected. *)
Definition stuckTab : Browser nat :=
  withClose (fun _ w => (Throw "Target crashed", S w)) (siteBrowser emptySite).

(** A link whose click opens the tab and then fails. *)
Definition failingClick : Browser nat :=
  withOpenTab (fun c w => (Dropped (100 + c) "locator.click: Timeout exceeded", S w))
              (siteBrowser emptySite).

(** A result page that cannot be loaded: every load of the first page of
    the term QA fails while the browser page stays open; every other address
    loads, and shows no job card. *)
Definition unreachableFirstPage : Browser nat :=
  withGoto (fun _ u => tick (if String.eqb u (searchUrl "QA" 1)
                             then Throw "net::ERR_TIMED_OUT" else Ok tt))
           (siteBrowser emptySite).

Definition noStats : Stats := mkStats 0 0 0 0 0 0 0 0.

(** A detail page whose only heading reads QA followed by two spaces. *)
Definition shortTitleSite : Site :=
  mkSite None (fun _ => false) (fun _ => false) "https://www.dice.com/job-detail/1"
         (fun sel => if String.eqb sel "h1" then [1] else [])
         (fun _ => Some "QA  ") (fun _ => Some "QA  ") EmptyString [] (fun _ => 1)
         (fun c => 100 + c).

Fixpoint repeatString (n : nat) (s : string) : string :=
  match n with
  | O => EmptyString
  | S n' => s +++ repeatString n' s
  end.

(** A detail page of a job outside the search terms, with a description of
    228 characters, and a scorer that answers with the given text. *)
Definition javaJobSite (answer : string) : Site :=
  mkSite (Some (Ok (Some answer))) (fun _ => false) (fun _ => false)
         "https://www.dice.com/job-detail/2"
         (fun sel => if String.eqb sel "h1" then [1]
                     else if String.eqb sel ".job-description" then [2] else [])
         (fun el => if el =? 1 then Some "Java Developer"
                    else Some (repeatString 12 "Java backend role. "))
         (fun _ => None) EmptyString [] (fun _ => 1)
         (fun c => 100 + c).

(** A result page of seven cards, each opening the detail page of a QA job
    with an Easy apply button. *)
Definition qaJobSite : Site :=
  mkSite None (fun sel => String.eqb sel "button:has-text('Easy apply')")
         (fun sel => String.eqb sel cardSelector)
         "https://www.dice.com/job-detail/3"
         (fun sel => if String.eqb sel "h1" then [1] else [])
         (fun _ => Some "Senior QA Engineer") (fun _ => None) EmptyString
         [1; 2; 3; 4; 5; 6; 7] (fun _ => 1)
         (fun c => 100 + c).

(** A detail page with an Easy apply button, in a session whose scorer would
    answer NO_MATCH. *)
Definition scoredApplySite : Site :=
  mkSite (Some (Ok (Some "NO_MATCH")))
         (fun sel => String.eqb sel "button:has-text('Easy apply')")
         (fun _ => false) "https://www.dice.com/job-detail/1"
         (fun _ => []) (fun _ => None) (fun _ => None) EmptyString [] (fun _ => 1)
         (fun c => 100 + c).

(** A detail page whose description is one [div] of class job-description,
    which three of the description selectors match, holding 228
    characters. *)
Definition descriptionDivSite : Site :=
  mkSite None (fun _ => false) (fun _ => false) "https://www.dice.com/job-detail/4"
         (fun sel => if String.eqb sel ".job-description" then [2]
                     else if String.eqb sel ("div[class*=" +++ Js.dq +++ "job-description"
                                             +++ Js.dq +++ "]") then [2]
                     else if String.eqb sel ("div[class*=" +++ Js.dq +++ "description"
                                             +++ Js.dq +++ "]") then [2]
                     else [])
         (fun _ => Some (repeatString 12 "Java backend role. "))
         (fun _ => None) EmptyString [] (fun _ => 1)
         (fun c => 100 + c).

End Worlds.

(** * The vocabulary of the properties *)

(** Every recorded call of [m] satisfies [P], from every state. *)
Definition emits {S A : Type} (P : Event -> Prop) (m : M S A) : Prop :=
  forall s, Forall P (events (m s)).

(** [m] never raises. *)
Definition total {S A : Type} (m : M S A) : Prop :=
  forall s, exists a, value (m s) = Ok a.

(** ** Events of applyToJob *)

(** A probe of one of [sels] on [page], and nothing else. *)
Definition probeOf (page : Page) (sels : list string) (e : Event) : Prop :=
  exists s r, In s sels /\ e = EvIsVisible page s r.

(** Not a probe that found its control visible. *)
Definition notSeen (page : Page) (e : Event) : Prop :=
  forall s, e <> EvIsVisible page s (Ok true).

(** Not a click that went through. *)
Definition notClicked (e : Event) : Prop :=
  forall p s, e <> EvClick p s (Ok tt).

(** A probe is of one of [sels]. *)
Definition probesWithin (sels : list string) (e : Event) : Prop :=
  forall p s r, e = EvIsVisible p s r -> In s sels.

Definition notProbe (e : Event) : Prop :=
  forall p s r, e <> EvIsVisible p s r.

Definition notClick (e : Event) : Prop :=
  forall p s r, e <> EvClick p s r.

(** The probe that ends the first loop. *)
Definition endsSeen (page : Page) (sels : list string) (es : list Event) : Prop :=
  exists before sel,
    In sel sels /\ es = before ++ [EvIsVisible page sel (Ok true)].

(** ** Events of safeGoto *)

Definition isGoto (e : Event) : bool :=
  match e with EvGoto _ _ _ => true | _ => false end.

(** The number of page loads a run attempted. *)
Definition loads (es : list Event) : nat := length (filter isGoto es).

(** ** Entries of a batch *)

Section Entries.

Context {W : Type} (B : Browser W).

(** [r] is the entry of the card at position [k]: what the task of that card
    settled to, or the placeholder for its rejection. *)
Definition entryFor (cvKeywords : list string) (k : nat) (card : Card)
  (r : JobResult) : Prop :=
  exists i index w,
    k = i + index /\ r = entryOf (value (batchTask B cvKeywords i index card w)).

(** [results] holds one entry per card of [cards], in the order of the
    cards, the first card standing at position [k]. *)
Fixpoint inOrder (cvKeywords : list string) (k : nat) (cards : list Card)
  (results : list JobResult) : Prop :=
  match cards, results with
  | [], [] => True
  | card :: cards', r :: results' =>
      entryFor cvKeywords k card r /\ inOrder cvKeywords (S k) cards' results'
  | _, _ => False
  end.

End Entries.

(** [o] with the calls [es] made before it. *)
Definition after {S A : Type} (es : list Event) (o : Out S A) : Out S A :=
  mkOut (value o) (final o) (es ++ events o).

(** ** What the extractors compute on a site that does not change *)

(** The text an element yields on a site that does not change: its
    textContent, or its innerText when that is blank, trimmed, when it
    passes the test of the script. *)
Definition acceptedText (site : Worlds.Site) (bound : nat) (el : Element)
  : option string :=
  let t := Worlds.site_text site el in
  let t' := if blank t then Worlds.site_inner site el else t in
  match t' with
  | Some s => if qualifies bound t' then Some (Js.trim s) else None
  | None => None
  end.

(** The first selector, in order, whose first element yields a text. *)
Fixpoint firstBySelector (site : Worlds.Site) (bound : nat) (selectors : list string)
  : option string :=
  match selectors with
  | [] => None
  | selector :: rest =>
      match match hd_error (Worlds.site_dom site selector) with
            | Some el => acceptedText site bound el
            | None => None
            end with
      | Some s => Some s
      | None => firstBySelector site bound rest
      end
  end.

(** The first element, in order, that yields a text. *)
Fixpoint firstByElement (site : Worlds.Site) (bound : nat) (els : list Element)
  : option string :=
  match els with
  | [] => None
  | el :: rest =>
      match acceptedText site bound el with
      | Some s => Some s
      | None => firstByElement site bound rest
      end
  end.

(** What the title and company extractors compute on such a site. *)
Definition extracted (site : Worlds.Site) (selectors : list string) (bound : nat)
  (scanSelector unknown : string) : string :=
  match firstBySelector site bound selectors with
  | Some s => s
  | None =>
      match firstByElement site bound (Worlds.site_dom site scanSelector) with
      | Some s => s
      | None => unknown
      end
  end.

(** The acceptance test in the words of the specification: the trimmed
    length exceeds the bound. *)
Definition qualifiesTrimmed (bound : nat) (t : option string) : bool :=
  match t with
  | Some s => bound <? String.length (Js.trim s)
  | None => false
  end.

(** ** Events of processJob *)

(** The calls the extractors make. *)
Definition isRead (e : Event) : Prop :=
  match e with
  | EvQuery _ _ _ | EvQueryAll _ _ _ | EvTextContent _ _ | EvInnerText _ _ _
  | EvVisibleText _ _ => True
  | _ => False
  end.

(** The calls of applyToJob on [page]. *)
Definition isApply (page : Page) (e : Event) : Prop :=
  match e with
  | EvEnter (FnApplyToJob p) => p = page
  | EvWaitForTimeout _ _ _ | EvIsVisible _ _ _ | EvClick _ _ _
  | EvWaitForSelector _ _ _ => True
  | _ => False
  end.

(** The calls of the scorer. *)
Definition isScoring (e : Event) : Prop :=
  match e with
  | EvEnter FnCheckJobMatchWithLLM | EvGroq _ _ _ | EvVerdict _ => True
  | _ => False
  end.

(** What processJob does around the deciding step: waits, reads of the
    page, rows of the log. *)
Definition isQuiet (e : Event) : Prop :=
  match e with
  | EvWaitForLoadState _ _ | EvWaitForTimeout _ _ _ | EvLinkCount _ _
  | EvLogJob _ _ _ _ _ => True
  | _ => isRead e
  end.

(** The calls of the applying step: those of applyToJob, then one row of
    the log. *)
Definition isApplying (tab : Page) (e : Event) : Prop :=
  isApply tab e \/ exists t c s l u, e = EvLogJob t c s l u.

(** What processJob does before the deciding step. *)
Definition isOpening (e : Event) : Prop :=
  isQuiet e \/ exists c r, e = EvOpenTab c r.

(** ** Rows, counters and runs *)

(** The hour field of the name, with its AM or PM, for an hour of the day. *)
Definition hourStamp (hours : nat) : string * string :=
  (Logger.padStart 2 "0" (Js.natToString (Logger.displayHours hours)),
   Logger.ampm hours).

(** The logger of the script once beforeAll has set up its worksheet. *)
Definition readyLogger : Logger.State := 
  snd (Logger.initializeExcel (Ok tt) (Ok tt) Logger.create).

(** The four outcome counters together. *)
Definition outcomes (s : Stats) : nat :=
  st_applied s + st_failed s + st_skipped s + st_alreadyApplied s.

(** The three verdict counters together. *)
Definition verdicts (s : Stats) : nat :=
  st_llmMatch s + st_llmPartialMatch s + st_llmNoMatch s.

(** The result carries a verdict that one of the three counters counts. *)
Definition hasVerdict (r : JobResult) : bool :=
  match llmResult r with
  | Some m => match match_ m with
              | MATCH | PARTIAL_MATCH | NO_MATCH => true
              | _ => false
              end
  | None => false
  end.

(** The statuses of the rows logged in a run, in order. *)
Definition statuses (es : list Event) : list string :=
  flat_map (fun e => match e with
                     | EvLogJob _ _ status _ _ => [status]
                     | _ => []
                     end) es.

Arguments statuses : simpl never.

(** The statuses processJob gives a job it skips. *)
Definition skippedStatuses : list string :=
  [ "Skipped - Context closed";
    "Skipped (LLM NO_MATCH)";
    "Skipped (LLM ERROR)";
    "Skipped - No LLM info & No initial match";
    "Skipped (No LLM Match or Fallback Failed)" ].

(** The status agrees with the result, read the way the counters of the
    run read it: success first, then skipped, else failed. *)
Definition agrees (r : JobResult) (status : string) : Prop :=
  if success r then
    if isTrue (alreadyApplied r) then status = "Already Applied"
    else status = "Success - Applied"
  else if isTrue (skipped r) then In status skippedStatuses
  else exists why, reason r = Some why /\ status = "Failed - " +++ why.

(** [m] returns a result and logs one row, which agrees with it. *)
Definition reports {S : Type} (m : M S JobResult) : Prop :=
  forall s, exists r status,
    value (m s) = Ok r /\ statuses (events (m s)) = [status] /\ agrees r status.

(** Not a row of the log. *)
Definition notLog (e : Event) : Prop :=
  forall t c s l u, e <> EvLogJob t c s l u.

(** The runs of processJob a trace holds: card and index, in order. *)
Definition entered (es : list Event) : list (Card * nat) :=
  flat_map (fun e => match e with
                     | EvEnter (FnProcessJob c i) => [(c, i)]
                     | _ => []
                     end) es.

Arguments entered : simpl never.

(** Not the entry of a run of processJob. *)
Definition notJobEntry (e : Event) : Prop :=
  forall c i, e <> EvEnter (FnProcessJob c i).

(** Not a page load. *)
Definition notLoad (e : Event) : Prop := isGoto e = false.

(** Not a request to the language model. *)
Definition notGroq (e : Event) : Prop := forall k d r, e <> EvGroq k d r.

(** What stands behind a success on [tab]: applyToJob ran on it, and either
    saw an already-applied indicator or clicked an apply control. *)
Definition earned (tab : Page) (es : list Event) (r : JobResult) : Prop :=
  In (EvEnter (FnApplyToJob tab)) es
  /\ if isTrue (alreadyApplied r)
     then exists sel, In sel alreadyAppliedSelectors
                      /\ In (EvIsVisible tab sel (Ok true)) es
     else exists sel, In sel applySelectors /\ In (EvClick tab sel (Ok tt)) es.

(** The figure afterAll prints as skipped (line 1348). *)
Definition skippedLine (s : Stats) : nat := st_skipped s + st_llmNoMatch s.

(** ** What the applying step makes of the answer of applyToJob *)

(** The status of the row and the result the applying step derives from
    what applyToJob answered (lines 901-943). *)
Definition applyStatus (r : ApplyResult) : string :=
  if a_success r then
    match a_alreadyApplied r with
    | Some true => "Already Applied"
    | _ => "Success - Applied"
    end
  else "Failed - " +++ match a_reason r with
                       | Some why => why
                       | None => "undefined"
                       end.

Definition applyOutcome (r : ApplyResult) (llm : option LlmMatch) : JobResult :=
  if a_success r then mkJob true None None (a_alreadyApplied r) llm
  else mkJob false (a_reason r) None None llm.

(** ** The rows of the worksheet *)

(** A row whose styling went through. *)
Definition styled (r : Logger.JobEntry * option string) : bool :=
  match snd r with Some _ => true | None => false end.

(** The rows are numbered from [n] on: each bears the number the counter
    had when it was added, and the counter goes on by one after a row whose
    styling went through and stays after a row whose styling raised. *)
Fixpoint numbered (n : nat) (rows : list (Logger.JobEntry * option string)) : Prop :=
  match rows with
  | [] => True
  | r :: rest =>
      Logger.serialNo (fst r) = n /\ numbered (if styled r then S n else n) rest
  end.


(** ** What the extractors asked and read *)

(** The selectors asked with [page.$], in order. *)
Definition queried (es : list Event) : list string :=
  flat_map (fun e => match e with EvQuery _ sel _ => [sel] | _ => [] end) es.

(** The selectors asked with [page.$$], in order. *)
Definition scanned (es : list Event) : list string :=
  flat_map (fun e => match e with EvQueryAll _ sel _ => [sel] | _ => [] end) es.

(** The texts the elements gave, by textContent or innerText, in order. *)
Definition textsRead (es : list Event) : list string :=
  flat_map (fun e => match e with
                     | EvTextContent _ (Ok (Some t)) => [t]
                     | EvInnerText _ _ (Ok (Some t)) => [t]
                     | _ => []
                     end) es.

(** The answers of textContent, in order. *)
Definition contents (es : list Event) : list (option string) :=
  flat_map (fun e => match e with EvTextContent _ (Ok t) => [t] | _ => [] end) es.

(** The elements the queries and scans found, in order. *)
Definition elementsFound (es : list Event) : list Element :=
  flat_map (fun e => match e with
                     | EvQuery _ _ (Ok (Some el)) => [el]
                     | EvQueryAll _ _ (Ok els) => els
                     | _ => []
                     end) es.

(** The elements whose textContent was asked, in order. *)
Definition elementsRead (es : list Event) : list Element :=
  flat_map (fun e => match e with EvTextContent el _ => [el] | _ => [] end) es.

(** The run ends with a read that was rejected. *)
Definition endsRejected (es : list Event) : Prop :=
  exists before e,
    es = before ++ [e]
    /\ ((exists el msg, e = EvTextContent el (Throw msg))
        \/ exists p el msg, e = EvInnerText p el (Throw msg)).

Arguments elementsFound : simpl never.
Arguments elementsRead : simpl never.
Arguments queried : simpl never.
Arguments scanned : simpl never.
Arguments textsRead : simpl never.
Arguments contents : simpl never.

(** [e] is the read that gave the text [t]. *)
Definition readOf (e : Event) (t : string) : Prop :=
  (exists el, e = EvTextContent el (Ok (Some t)))
  \/ exists p el, e = EvInnerText p el (Ok (Some t)).

(** Every text read has a trimmed length of at most the bound. *)
Definition passedOver (bound : nat) (es : list Event) : Prop :=
  Forall (fun t => qualifiesTrimmed bound (Some t) = false) (textsRead es).

(** The run ends with the read of a text that is not blank and has more
    characters than the bound, of which [s] is the trimmed form; every text
    read before it has a trimmed length of at most the bound. *)
Definition acceptedLast (bound : nat) (es : list Event) (s : string) : Prop :=
  exists before e t,
    es = before ++ [e] /\ readOf e t /\ passedOver bound before
    /\ blank (Some t) = false /\ bound < String.length t /\ s = Js.trim t.

(** A run of a title or company extractor: it returns; the selectors it
    asked are a first part of its list, in order; the second scan is made
    only after the whole list; the elements it read are a first part of those
    it found, in order; and it returns the text at which it stopped, or its
    unknown value when it asked every selector, passed over every text it
    read, and read every element it found unless its last read was
    rejected. *)
Definition fallbackRun {W : Type} (selectors : list string) (bound : nat)
  (scanSelector unknown : string) (o : Out W string) : Prop :=
  exists s,
    value o = Ok s
    /\ (exists k, queried (events o) = firstn k selectors)
    /\ (scanned (events o) = []
        \/ (scanned (events o) = [scanSelector] /\ queried (events o) = selectors))
    /\ (exists n, elementsRead (events o) = firstn n (elementsFound (events o)))
    /\ (acceptedLast bound (events o) s
        \/ (s = unknown /\ passedOver bound (events o)
            /\ queried (events o) = selectors
            /\ (elementsRead (events o) = elementsFound (events o)
                \/ endsRejected (events o)))).

(** The reads that follow one scan of the description extractor: one of
    each element found, in order, up to the first that is rejected.  Gives
    what is left of the trace after them. *)
Fixpoint readsOf (els : list Element) (es : list Event) : option (list Event) :=
  match els with
  | [] => Some es
  | el :: rest =>
      match es with
      | EvTextContent el' (Ok _) :: es' =>
          if Nat.eqb el' el then readsOf rest es' else None
      | EvTextContent el' (Throw _) :: es' =>
          if Nat.eqb el' el then Some es' else None
      | _ => None
      end
  end.

(** One scan for each selector, in order, each followed by the reads of what
    it found.  Gives what is left of the trace after them. *)
Fixpoint scansOf (page : Page) (selectors : list string) (es : list Event)
  : option (list Event) :=
  match selectors with
  | [] => Some es
  | selector :: rest =>
      match es with
      | EvQueryAll p sel (Ok els) :: es' =>
          if Nat.eqb p page && String.eqb sel selector
          then match readsOf els es' with
               | Some es'' => scansOf page rest es''
               | None => None
               end
          else None
      | EvQueryAll p sel (Throw _) :: es' =>
          if Nat.eqb p page && String.eqb sel selector
          then scansOf page rest es' else None
      | _ => None
      end
  end.

(** What the description extractor has gathered from the texts it read. *)
Definition gathered (es : list Event) : string :=
  fold_left addDescription (contents es) EmptyString.

(** A run of the description extractor on [page]: it returns; it scans
    every selector of its list, in order, whatever the earlier ones gave, and
    reads every element of every scan up to a rejected read, after which it
    may ask the visible text of the page and nothing else; when what it
    gathered from all the texts it read, cleaned, has 200 characters or more
    it returns that; and what it returns is empty or has 200 characters or
    more. *)
Definition gatheringRun {W : Type} (page : Page) (o : Out W string) : Prop :=
  exists s,
    value o = Ok s
    /\ scanned (events o) = descriptionSelectors
    /\ (exists tail, scansOf page descriptionSelectors (events o) = Some tail
                     /\ (tail = [] \/ exists r, tail = [EvVisibleText page r]))
    /\ (200 <= String.length (clean (gathered (events o))) ->
        s = clean (gathered (events o)))
    /\ (s = EmptyString \/ 200 <= String.length s).

(** What the reads of the elements [els] give: a text accepted, or only
    texts passed over. *)
Definition reading {W : Type} (bound : nat) (els : list Element)
  (o : Out W (option string)) : Prop :=
  queried (events o) = [] /\ scanned (events o) = []
  /\ elementsFound (events o) = []
  /\ match value o with
     | Ok (Some s) =>
         acceptedLast bound (events o) s
         /\ exists n, elementsRead (events o) = firstn n els
     | Ok None => passedOver bound (events o) /\ elementsRead (events o) = els
     | Throw _ =>
         passedOver bound (events o) /\ endsRejected (events o)
         /\ exists n, elementsRead (events o) = firstn n els
     end.

(** * Reasoning about computations *)

Section MonadFacts.

Context {S : Type}.

Lemma bind_ok {A B : Type} (m : M S A) (k : A -> M S B) (s : S) (a : A) :
  value (m s) = Ok a ->
  bind m k s = mkOut (value (k a (final (m s)))) (final (k a (final (m s))))
                     (events (m s) ++ events (k a (final (m s)))).
Proof.
  intros H. unfold bind. destruct (m s) as [v s1 es1]. cbn in *. subst v.
  destruct (k a s1); reflexivity.
Qed.

Lemma bind_throw {A B : Type} (m : M S A) (k : A -> M S B) (s : S) (msg : string) :
  value (m s) = Throw msg ->
  bind m k s = mkOut (Throw msg) (final (m s)) (events (m s)).
Proof.
  intros H. unfold bind. destruct (m s) as [v s1 es1]. cbn in *. subst v.
  reflexivity.
Qed.

Lemma emits_ret {A : Type} (P : Event -> Prop) (a : A) : emits P (@ret S A a).
Proof. intros s. constructor. Qed.

Lemma emits_throw {A : Type} (P : Event -> Prop) (msg : string) :
  emits P (@throw S A msg).
Proof. intros s. constructor. Qed.

Lemma emits_gets {A : Type} (P : Event -> Prop) (f : S -> A) : emits P (gets f).
Proof. intros s. constructor. Qed.

Lemma emits_modify (P : Event -> Prop) (f : S -> S) : emits P (modify f).
Proof. intros s. constructor. Qed.

Lemma emits_emit (P : Event -> Prop) (e : Event) : P e -> emits P (@emit S e).
Proof. intros H s. cbn. auto. Qed.

Lemma emits_call {A : Type} (P : Event -> Prop) (f : S -> res A * S)
  (ev : res A -> Event) :
  (forall r, P (ev r)) -> emits P (call f ev).
Proof. intros H s. unfold call. destruct (f s) as [r s']. cbn. auto. Qed.

Lemma emits_bind {A B : Type} (P : Event -> Prop) (m : M S A) (k : A -> M S B) :
  emits P m -> (forall a, emits P (k a)) -> emits P (bind m k).
Proof.
  intros Hm Hk s. unfold bind. specialize (Hm s).
  destruct (m s) as [[a | msg] s1 es1]; cbn in *; [| exact Hm].
  specialize (Hk a s1). destruct (k a s1) as [v s2 es2]. cbn in *.
  apply Forall_app. split; assumption.
Qed.

Lemma emits_tryCatch {A : Type} (P : Event -> Prop) (m : M S A)
  (h : string -> M S A) :
  emits P m -> (forall msg, emits P (h msg)) -> emits P (tryCatch m h).
Proof.
  intros Hm Hh s. unfold tryCatch. specialize (Hm s).
  destruct (m s) as [[a | msg] s1 es1]; cbn in *; [exact Hm |].
  specialize (Hh msg s1). destruct (h msg s1) as [v s2 es2]. cbn in *.
  apply Forall_app. split; assumption.
Qed.

Lemma emits_finally {A : Type} (P : Event -> Prop) (m : M S A) (f : M S unit) :
  emits P m -> emits P f -> emits P (finally m f).
Proof.
  intros Hm Hf s. unfold finally. specialize (Hm s).
  destruct (m s) as [v s1 es1]. specialize (Hf s1).
  destruct (f s1) as [[[] | msg] s2 es2]; cbn in *;
    apply Forall_app; split; assumption.
Qed.

Lemma emits_settled {A : Type} (P : Event -> Prop) (m : M S A) :
  emits P m -> emits P (settled m).
Proof.
  intros Hm s. unfold settled. specialize (Hm s).
  destruct (m s) as [v s1 es1]. exact Hm.
Qed.

Lemma emits_weaken {A : Type} (P Q : Event -> Prop) (m : M S A) :
  (forall e, P e -> Q e) -> emits P m -> emits Q m.
Proof. intros H Hm s. eapply Forall_impl; [exact H | apply Hm]. Qed.

Lemma total_ret {A : Type} (a : A) : total (@ret S A a).
Proof. intros s. exists a. reflexivity. Qed.

Lemma total_gets {A : Type} (f : S -> A) : total (gets f).
Proof. intros s. eexists. reflexivity. Qed.

Lemma total_modify (f : S -> S) : total (modify f).
Proof. intros s. eexists. reflexivity. Qed.

Lemma total_emit (e : Event) : total (@emit S e).
Proof. intros s. eexists. reflexivity. Qed.

Lemma total_bind {A B : Type} (m : M S A) (k : A -> M S B) :
  total m -> (forall a, total (k a)) -> total (bind m k).
Proof.
  intros Hm Hk s. destruct (Hm s) as [a Ha].
  rewrite (bind_ok m k s a Ha). cbn. apply Hk.
Qed.

Lemma total_tryCatch {A : Type} (m : M S A) (h : string -> M S A) :
  (forall msg, total (h msg)) -> total (tryCatch m h).
Proof.
  intros Hh s. unfold tryCatch.
  destruct (m s) as [[a | msg] s1 es1]; cbn.
  - exists a. reflexivity.
  - destruct (Hh msg s1) as [b Hb]. destruct (h msg s1) as [v s2 es2].
    exists b. exact Hb.
Qed.

Lemma total_settled {A : Type} (m : M S A) : total (settled m).
Proof. intros s. unfold settled. destruct (m s). eexists. reflexivity. Qed.

End MonadFacts.

Lemma emits_lift {L S A : Type} (P : Event -> Prop) (m : M S A) :
  emits P m -> emits P (@lift L S A m).
Proof.
  intros Hm [l s]. unfold lift. cbn. specialize (Hm s).
  destruct (m s) as [v s1 es1]. exact Hm.
Qed.

Lemma total_lift {L S A : Type} (m : M S A) : total m -> total (@lift L S A m).
Proof.
  intros Hm [l s]. unfold lift. cbn. destruct (Hm s) as [a Ha].
  destruct (m s) as [v s1 es1]. exists a. exact Ha.
Qed.

Create HintDb emits.
#[export] Hint Resolve emits_ret emits_throw emits_gets emits_modify
  emits_settled emits_lift : emits.

Create HintDb total.
#[export] Hint Resolve total_ret total_gets total_modify total_emit
  total_settled total_lift : total.

Create HintDb prims.
#[export] Hint Unfold isClosed url contextPages goto waitForTimeout title
  waitForSelector waitForLoadState query queryAll textContent innerText
  visibleText isVisible click linkCount openTab close locatorAll groqCreate
  logJob : prims.

(** One structural step of a proof that a computation emits only [P]. *)
Ltac emits_step :=
  match goal with
  | |- emits _ (bind _ _) => apply emits_bind; [ | intro ]
  | |- emits _ (tryCatch _ _) => apply emits_tryCatch; [ | intro ]
  | |- emits _ (finally _ _) => apply emits_finally
  | |- emits _ (call _ _) => apply emits_call; intro; try (cbn; exact I)
  | |- emits _ (emit _) => apply emits_emit; try (cbn; exact I)
  | |- emits _ (if ?b then _ else _) => destruct b
  | |- emits _ (match ?x with _ => _ end) => destruct x
  | |- emits _ (let _ := _ in _) => cbv zeta
  | |- emits _ _ => solve [ eauto with emits ]
  end.

Ltac emits_auto := autounfold with prims; repeat emits_step.

Ltac total_step :=
  match goal with
  | |- total (bind _ _) => apply total_bind; [ | intro ]
  | |- total (tryCatch _ _) => apply total_tryCatch; intro
  | |- total (if ?b then _ else _) => destruct b
  | |- total (match ?x with _ => _ end) => destruct x
  | |- total (let _ := _ in _) => cbv zeta
  | |- total _ => solve [ eauto with total ]
  end.

Ltac total_auto := autounfold with prims; repeat total_step.

(** One step of a symbolic run: case analysis on the next answer of the
    world, or on the next test. *)
Ltac run_step :=
  cbn;
  match goal with
  | |- context [let (_, _) := ?x in _] =>
      lazymatch type of x with
      | (res _ * _)%type => destruct x as [[?|?] ?] eqn:?
      end
  | |- context [if ?c then _ else _] => destruct c eqn:?
  end.

(** The backoff wait raised, against the assumption [Hok] that it does not. *)
Ltac stuck_wait Hok :=
  match goal with
  | E : page_waitForTimeout _ _ _ 3000%N ?w = (Throw _, _) |- _ =>
      specialize (Hok w); rewrite E in Hok; discriminate
  end.

(** [Forall P] of an explicit list, each [P e] by a fact at hand. *)
Ltac each_event :=
  repeat first [ apply Forall_nil | apply Forall_cons; [ solve [auto] | ] ].

(** Closes [H : In e l] for a concrete list [l] that lacks [e]. *)
Ltac absent H :=
  vm_compute in H;
  repeat (destruct H as [H | H]; [discriminate |]);
  exact H.

(** Proves [In e l] for a concrete list [l] that holds [e]. *)
Ltac present := vm_compute; repeat (first [left; reflexivity | right]).

(** * The model at work *)

Example trim_example : Js.trim "  QA Lead  " = "QA Lead".
Proof. reflexivity. Qed.

Example includes_example :
  Js.includes (Js.toLowerCase "Senior QA Engineer") (Js.toLowerCase "QA") = true.
Proof. reflexivity. Qed.

Example collapse_example :
  Js.collapseSpaces ("a  b" +++ String Js.newline "c") = "a b c".
Proof. reflexivity. Qed.

Example searchUrl_first_page :
  searchUrl "Software Developer Engineer in Test" 1
  = "https://www.dice.com/jobs?filters.easyApply=true&filters.postedDate=ONE&q=Software%20Developer%20Engineer%20in%20Test".
Proof. reflexivity. Qed.

Example searchUrl_third_page :
  searchUrl "QA" 3
  = "https://www.dice.com/jobs?filters.easyApply=true&filters.postedDate=ONE&q=QA&page=3".
Proof. reflexivity. Qed.

Example matchesSearchCriteria_example :
  matchesSearchCriteria "Senior Quality Assurance (QA) Analyst"
  = mkCriteria true ["QA"; "Quality"].
Proof. reflexivity. Qed.

Example matchesSearchCriteria_none :
  matchesSearchCriteria "Java Developer" = mkCriteria false [].
Proof. reflexivity. Qed.

Example classifyResponse_partial :
  classifyResponse (Some "PARTIAL_MATCH, some overlap")
  = mkLlm MATCH (Some "PARTIAL_MATCH, some overlap").
Proof. reflexivity. Qed.

Example classifyResponse_none :
  classifyResponse (Some "Little overlap.") = mkLlm NO_MATCH (Some "Little overlap.").
Proof. reflexivity. Qed.

(** A page that loads at the first attempt. *)
Example safeGoto_loads :
  safeGoto (Worlds.siteBrowser Worlds.emptySite) 1 "https://www.dice.com/jobs" 2 0
  = mkOut (Ok true) 3
          [EvGoto 1 "https://www.dice.com/jobs" (Ok tt);
           EvWaitForTimeout 1 2000 (Ok tt);
           EvTitle 1 (Ok "Dice")].
Proof. reflexivity. Qed.

(** The job of a card nobody wants: no title, no description. *)
Example processJob_skips :
  value (processJob (Worlds.siteBrowser Worlds.emptySite) 1 0 [] 0)
  = Ok (mkJob false (Some "Skipped - No LLM info & No initial match")
              (Some true) None None).
Proof. vm_compute. reflexivity. Qed.

(** A job whose title holds a search term is applied to. *)
Example processJob_applies :
  value (processJob (Worlds.siteBrowser Worlds.qaJobSite) 1 0 [] 0)
  = Ok (mkJob true None None (Some false) None).
Proof. vm_compute. reflexivity. Qed.

(** Seven cards whose titles match, in groups of two: seven outcomes, all
    applied. *)
Example processJobBatch_seven :
  match value (processJobBatch (Worlds.siteBrowser Worlds.qaJobSite)
                               [1; 2; 3; 4; 5; 6; 7] [] 0) with
  | Ok results =>
      length results = 7
      /\ fold_left tally results Worlds.noStats = mkStats 7 0 0 0 7 0 0 0
  | Throw _ => False
  end.
Proof. vm_compute. split; reflexivity. Qed.

(** The first page of a term lists seven cards, the second one as well, and
    so on up to the fifth page: thirty-five jobs. *)
Example searchTermPages_five_pages :
  st_total (fst (final (searchTermPages (Worlds.siteBrowser Worlds.qaJobSite) 9 "QA" []
                                        (Worlds.noStats, 0)))) = 35.
Proof. vm_compute. reflexivity. Qed.

(** * Facts about strings *)

Lemma prefix_app_inv (a b s : string) :
  String.prefix (a +++ b) s = true ->
  exists rest, s = a +++ rest /\ String.prefix b rest = true.
Proof.
  revert s. induction a as [| c a IH]; intros s H.
  - exists s. split; [reflexivity | exact H].
  - destruct s as [| d s]; cbn in H; [discriminate |].
    destruct (ascii_dec c d) as [Hcd | Hne]; [| discriminate].
    destruct (IH s H) as [rest [Hs Hb]].
    exists rest. split; [cbn; rewrite Hcd, Hs; reflexivity | exact Hb].
Qed.

Lemma includes_prefix (s sub : string) :
  String.prefix sub s = true -> Js.includes s sub = true.
Proof. intros H. destruct s; cbn in *; rewrite H; reflexivity. Qed.

Lemma includes_tail (c : ascii) (s sub : string) :
  Js.includes s sub = true -> Js.includes (String c s) sub = true.
Proof. intros H. cbn [Js.includes]. rewrite H. apply orb_true_r. Qed.

Lemma includes_prepend (a t sub : string) :
  Js.includes t sub = true -> Js.includes (a +++ t) sub = true.
Proof.
  intros H. induction a as [| c a IH]; cbn [String.append].
  - exact H.
  - apply includes_tail. exact IH.
Qed.

(** A string that contains [a +++ b] contains [b]. *)
Lemma includes_app_r (s a b : string) :
  Js.includes s (a +++ b) = true -> Js.includes s b = true.
Proof.
  induction s as [| c s IH]; intros H.
  - cbn [Js.includes] in H. rewrite orb_false_r in H.
    destruct (prefix_app_inv a b _ H) as [rest [Hs Hb]].
    rewrite Hs. apply includes_prepend, includes_prefix, Hb.
  - cbn [Js.includes] in H. apply orb_true_iff in H. destruct H as [H | H].
    + destruct (prefix_app_inv a b _ H) as [rest [Hs Hb]].
      rewrite Hs. apply includes_prepend, includes_prefix, Hb.
    + apply includes_tail, IH, H.
Qed.

Lemma includes_partial_match (s : string) :
  Js.includes s "partial_match" = true -> Js.includes s "match" = true.
Proof. apply (includes_app_r s "partial_" "match"). Qed.

(** * checkJobMatchWithLLM *)

Section Scorer.

Context {W : Type} (B : Browser W).

Lemma classifyResponse_match (s : string) :
  s <> EmptyString ->
  Js.includes (Js.toLowerCase s) "match" = true ->
  classifyResponse (Some s) = mkLlm MATCH (Some s).
Proof.
  intros Hs Hm. unfold classifyResponse. rewrite Hm.
  destruct s; [congruence | reflexivity].
Qed.

Lemma classifyResponse_never_partial (r : option string) :
  match_ (classifyResponse r) <> PARTIAL_MATCH.
Proof.
  destruct r as [s |]; cbn; [| discriminate].
  destruct (Js.truthy s); cbn; [| discriminate].
  destruct (Js.includes (Js.toLowerCase s) "match") eqn:Hm; cbn; [discriminate |].
  destruct (Js.includes (Js.toLowerCase s) "partial_match") eqn:Hp; cbn;
    [| discriminate].
  apply includes_partial_match in Hp. congruence.
Qed.

Lemma classifyResponse_no_match (r : option string) :
  match_ (classifyResponse r) = NO_MATCH ->
  forall s, r = Some s -> Js.includes (Js.toLowerCase s) "match" = false.
Proof.
  intros H s ->. unfold classifyResponse in H.
  destruct s as [| c s]; [reflexivity |].
  cbn [Js.truthy andb] in H.
  destruct (Js.includes (Js.toLowerCase (String c s)) "match"); [discriminate |].
  reflexivity.
Qed.

Lemma checkJobMatchWithLLM_total (cvKeywords : list string) (jobDescription : string) :
  total (checkJobMatchWithLLM B cvKeywords jobDescription).
Proof. unfold checkJobMatchWithLLM. total_auto. Qed.

(** The run of the scorer, case by case. *)
Lemma checkJobMatchWithLLM_run (cvKeywords : list string) (jobDescription : string)
  (w : W) :
  let o := checkJobMatchWithLLM B cvKeywords jobDescription w in
  (negb (groqClient W B) || (length cvKeywords =? 0)
   || negb (Js.truthy jobDescription) = true
   /\ value o = Ok (mkLlm SKIPPED_LLM (Some "Missing data or LLM client"))
   /\ events o = [EvEnter FnCheckJobMatchWithLLM;
                  EvVerdict (mkLlm SKIPPED_LLM (Some "Missing data or LLM client"))])
  \/ (exists r w',
        groq_create W B cvKeywords jobDescription w = (Ok r, w')
        /\ value o = Ok (classifyResponse r)
        /\ events o = [EvEnter FnCheckJobMatchWithLLM;
                       EvGroq cvKeywords jobDescription (Ok r);
                       EvVerdict (classifyResponse r)])
  \/ (exists msg w',
        groq_create W B cvKeywords jobDescription w = (Throw msg, w')
        /\ value o = Ok (mkLlm ERROR (Some ("Groq API error: " +++ msg)))
        /\ events o = [EvEnter FnCheckJobMatchWithLLM;
                       EvGroq cvKeywords jobDescription (Throw msg);
                       EvVerdict (mkLlm ERROR (Some ("Groq API error: " +++ msg)))]).
Proof.
  cbv zeta. unfold checkJobMatchWithLLM, groqCreate, bind, tryCatch, call, emit, ret.
  cbn.
  destruct (negb (groqClient W B) || (length cvKeywords =? 0)
            || negb (Js.truthy jobDescription)) eqn:Hskip; cbn.
  - left. repeat split.
  - right.
    destruct (groq_create W B cvKeywords jobDescription w) as [[r | msg] w'] eqn:E; cbn.
    + left. exists r, w'. repeat split.
    + right. exists msg, w'. repeat split.
Qed.

(** C10. Whenever the scorer answers with a non-empty text whose lower-case
    form contains the word match, the verdict is MATCH, also for the answers
    PARTIAL_MATCH and NO_MATCH themselves; the verdict PARTIAL_MATCH is never
    returned; and NO_MATCH is returned only for an answer that has no
    occurrence of match at all. *)
Theorem checkJobMatchWithLLM_match_wins (cvKeywords : list string)
  (jobDescription : string) (w : W) :
  let o := checkJobMatchWithLLM B cvKeywords jobDescription w in
  (forall s,
      In (EvGroq cvKeywords jobDescription (Ok (Some s))) (events o) ->
      s <> EmptyString ->
      Js.includes (Js.toLowerCase s) "match" = true ->
      value o = Ok (mkLlm MATCH (Some s)))
  /\ (forall m, value o = Ok m -> match_ m <> PARTIAL_MATCH)
  /\ (forall m, value o = Ok m -> match_ m = NO_MATCH ->
      exists r, In (EvGroq cvKeywords jobDescription (Ok r)) (events o)
                /\ forall s, r = Some s ->
                             Js.includes (Js.toLowerCase s) "match" = false)
  /\ classifyResponse (Some "PARTIAL_MATCH") = mkLlm MATCH (Some "PARTIAL_MATCH")
  /\ classifyResponse (Some "NO_MATCH") = mkLlm MATCH (Some "NO_MATCH").
Proof.
  cbv zeta.
  pose proof (checkJobMatchWithLLM_run cvKeywords jobDescription w) as Hrun.
  cbv zeta in Hrun.
  split; [| split; [| split; [| split; reflexivity]]].
  - intros s Hin Hs Hm.
    destruct Hrun as [[_ [_ Hev]] | [[r [w' [_ [Hv Hev]]]] | [msg [w' [_ [_ Hev]]]]]];
      rewrite Hev in Hin; cbn in Hin;
      repeat (destruct Hin as [Hin | Hin]; try discriminate); try contradiction.
    injection Hin as ->. rewrite Hv. f_equal. apply classifyResponse_match; assumption.
  - intros m Hv.
    destruct Hrun as [[_ [Hv' _]] | [[r [w' [_ [Hv' _]]]] | [msg [w' [_ [Hv' _]]]]]];
      rewrite Hv' in Hv; injection Hv as <-; cbn; try discriminate.
    apply classifyResponse_never_partial.
  - intros m Hv Hno.
    destruct Hrun as [[_ [Hv' _]] | [[r [w' [_ [Hv' Hev]]]] | [msg [w' [_ [Hv' _]]]]]];
      rewrite Hv' in Hv; injection Hv as <-; cbn in Hno; try discriminate.
    exists r. split.
    + rewrite Hev. cbn. auto.
    + apply classifyResponse_no_match. exact Hno.
Qed.

End Scorer.

(** * applyToJob *)

Section Apply.

Context {W : Type} (B : Browser W).

Lemma alreadyAppliedLoop_spec (page : Page) (sels : list string) (w : W) :
  let o := alreadyAppliedLoop B page sels w in
  (exists b, value o = Ok b
             /\ (b = false -> Forall (notSeen page) (events o))
             /\ (b = true -> endsSeen page sels (events o)))
  /\ Forall (probeOf page sels) (events o).
Proof.
  revert w. induction sels as [| sel rest IH]; intros w; cbn.
  - split; [exists false; repeat split; [constructor | discriminate] | constructor].
  - assert (Hin : forall e, probeOf page rest e -> probeOf page (sel :: rest) e).
    { intros e [s [r [Hin He]]]. exists s, r. split; [now right | exact He]. }
    assert (Hhere : forall r, probeOf page (sel :: rest) (EvIsVisible page sel r)).
    { intros r. exists sel, r. split; [now left | reflexivity]. }
    assert (Hends : forall e es, endsSeen page rest es ->
                                 endsSeen page (sel :: rest) (e :: es)).
    { intros e es [before [s [Hs ->]]]. exists (e :: before), s.
      split; [now right | reflexivity]. }
    unfold isVisible, bind, tryCatch, call, ret. cbn.
    destruct (locator_isVisible W B page sel 1000 w) as [[[|] | msg] w'] eqn:E; cbn.
    + split.
      * exists true. repeat split; [discriminate |].
        intros _. exists [], sel. split; [now left | reflexivity].
      * constructor; [apply Hhere | constructor].
    + specialize (IH w'). cbv zeta in IH.
      destruct (alreadyAppliedLoop B page rest w') as [v s2 es2]. cbn in *.
      destruct IH as [[b [Hb [Hns Hs]]] Hp]. split.
      * exists b. repeat split; [exact Hb | | auto].
        intros Hf. constructor; [intros s; discriminate | auto].
      * constructor; [apply Hhere |].
        eapply Forall_impl; [exact Hin | exact Hp].
    + specialize (IH w'). cbv zeta in IH.
      destruct (alreadyAppliedLoop B page rest w') as [v s2 es2]. cbn in *.
      destruct IH as [[b [Hb [Hns Hs]]] Hp]. split.
      * exists b. repeat split; [exact Hb | | auto].
        intros Hf. constructor; [intros s; discriminate | auto].
      * constructor; [apply Hhere |].
        eapply Forall_impl; [exact Hin | exact Hp].
Qed.

(** Once [applyClicked] is set it stays set. *)
Lemma applyLoop_clicked (page : Page) (sels : list string) (w : W) :
  value (applyLoop B page sels true w) <> Ok false.
Proof.
  revert w. induction sels as [| sel rest IH]; intros w; cbn; [discriminate |].
  unfold applyStep, isVisible, click, waitForTimeout, bind, tryCatch, call, ret. cbn.
  destruct (locator_isVisible W B page sel 2000 w) as [[[|] | m1] w1]; cbn.
  - destruct (locator_click W B page sel w1) as [[[] | m2] w2]; cbn.
    + destruct (page_waitForTimeout W B page 3000 w2) as [[[] | m3] w3]; cbn;
        [discriminate |].
      specialize (IH w3). destruct (applyLoop B page rest true w3). exact IH.
    + specialize (IH w2). destruct (applyLoop B page rest true w2). exact IH.
  - specialize (IH w1). destruct (applyLoop B page rest true w1). exact IH.
  - specialize (IH w1). destruct (applyLoop B page rest true w1). exact IH.
Qed.

Lemma applyLoop_spec (page : Page) (sels : list string) (acc : bool) (w : W) :
  let o := applyLoop B page sels acc w in
  (exists b, value o = Ok b /\ (b = false -> Forall notClicked (events o)))
  /\ Forall (probesWithin sels) (events o).
Proof.
  revert acc w. induction sels as [| sel rest IH]; intros acc w; cbn.
  - split; [exists acc; split; [reflexivity | constructor] | constructor].
  - assert (Hin : forall e, probesWithin rest e -> probesWithin (sel :: rest) e).
    { intros e H p s r He. right. eapply H; eauto. }
    assert (Hhere : forall r, probesWithin (sel :: rest) (EvIsVisible page sel r)).
    { intros r p s r' He. injection He as _ <- _. left. reflexivity. }
    assert (Hother : forall e, (forall p s r, e <> EvIsVisible p s r) ->
                               probesWithin (sel :: rest) e).
    { intros e H p s r He. exfalso. eapply H; eauto. }
    unfold applyStep, isVisible, click, waitForTimeout, bind, tryCatch, call, ret.
    cbn.
    destruct (locator_isVisible W B page sel 2000 w) as [[[|] | msg] w1] eqn:E; cbn.
    + destruct (locator_click W B page sel w1) as [[[] | msg] w2] eqn:Ec; cbn.
      * destruct (page_waitForTimeout W B page 3000 w2) as [[[] | msg] w3] eqn:Ew; cbn.
        -- split.
           ++ exists true. split; [reflexivity | discriminate].
           ++ constructor; [apply Hhere |].
              constructor; [apply Hother; intros; discriminate |].
              constructor; [apply Hother; intros; discriminate | constructor].
        -- pose proof (applyLoop_clicked page rest w3) as Hset.
           specialize (IH true w3). cbv zeta in IH.
           destruct (applyLoop B page rest true w3) as [v s2 es2]. cbn in *.
           destruct IH as [[b [Hb Hnc]] Hp]. split.
           ++ exists b. split; [exact Hb |]. intros ->. contradiction.
           ++ constructor; [apply Hhere |].
              constructor; [apply Hother; intros; discriminate |].
              constructor; [apply Hother; intros; discriminate |].
              eapply Forall_impl; [exact Hin | exact Hp].
      * specialize (IH acc w2). cbv zeta in IH.
        destruct (applyLoop B page rest acc w2) as [v s2 es2]. cbn in *.
        destruct IH as [[b [Hb Hnc]] Hp]. split.
        -- exists b. split; [exact Hb |]. intros Hf.
           constructor; [intros p s; discriminate |].
           constructor; [intros p s; discriminate | auto].
        -- constructor; [apply Hhere |].
           constructor; [apply Hother; intros; discriminate |].
           eapply Forall_impl; [exact Hin | exact Hp].
    + specialize (IH acc w1). cbv zeta in IH.
      destruct (applyLoop B page rest acc w1) as [v s2 es2]. cbn in *.
      destruct IH as [[b [Hb Hnc]] Hp]. split.
      * exists b. split; [exact Hb |]. intros Hf.
        constructor; [intros p s; discriminate | auto].
      * constructor; [apply Hhere |].
        eapply Forall_impl; [exact Hin | exact Hp].
    + specialize (IH acc w1). cbv zeta in IH.
      destruct (applyLoop B page rest acc w1) as [v s2 es2]. cbn in *.
      destruct IH as [[b [Hb Hnc]] Hp]. split.
      * exists b. split; [exact Hb |]. intros Hf.
        constructor; [intros p s; discriminate | auto].
      * constructor; [apply Hhere |].
        eapply Forall_impl; [exact Hin | exact Hp].
Qed.

Lemma probesWithin_here (sels : list string) (p : Page) (s : string) (r : res bool) :
  In s sels -> probesWithin sels (EvIsVisible p s r).
Proof. intros H p' s' r' He. injection He as _ <- _. exact H. Qed.

Lemma clickFirstLoop_total (page : Page) (sels : list string) (pause : N) :
  total (clickFirstLoop B page sels pause).
Proof.
  induction sels as [| sel rest IH]; cbn [clickFirstLoop]; total_auto.
Qed.

Lemma clickFirstLoop_probes (page : Page) (sels : list string) (pause : N) :
  emits (probesWithin sels) (clickFirstLoop B page sels pause).
Proof.
  induction sels as [| sel rest IH]; cbn [clickFirstLoop]; emits_auto.
  - apply probesWithin_here. now left.
  - intros p s r' He. discriminate.
  - intros p s r' He. discriminate.
  - eapply emits_weaken; [| exact IH]. intros e H p s r' He. right. eapply H; eauto.
Qed.

Lemma confirmationLoop_total (page : Page) (sels : list string) :
  total (confirmationLoop B page sels).
Proof.
  induction sels as [| sel rest IH]; cbn [confirmationLoop]; total_auto.
Qed.

Lemma confirmationLoop_quiet (page : Page) (sels : list string) :
  emits (fun e => notProbe e /\ notClick e) (confirmationLoop B page sels).
Proof.
  induction sels as [| sel rest IH]; cbn [confirmationLoop]; emits_auto.
  split; intros p s r'; discriminate.
Qed.

(** The shape of every run of applyToJob. *)
Lemma applyToJob_cases (page : Page) (w : W) :
  let o := applyToJob B page w in
  let enter := EvEnter (FnApplyToJob page) in
  let waited := EvWaitForTimeout page 2000 (Ok tt) in
  (exists why, value o = Ok (notApplied why)
               /\ (events o = [enter]
                   \/ exists msg,
                        events o = [enter; EvWaitForTimeout page 2000 (Throw msg)]))
  \/ exists ea,
       Forall (probeOf page alreadyAppliedSelectors) ea
       /\ ((value o = Ok appliedBefore /\ events o = enter :: waited :: ea
            /\ endsSeen page alreadyAppliedSelectors ea)
           \/ (Forall (notSeen page) ea
               /\ exists eb,
                    Forall (probesWithin applySelectors) eb
                    /\ ((value o = Ok (notApplied "No Apply button found")
                         /\ Forall notClicked eb
                         /\ events o = enter :: waited :: ea ++ eb)
                        \/ (value o = Ok applied
                            /\ exists en es ec,
                                 Forall (probesWithin nextSelectors) en
                                 /\ Forall (probesWithin submitSelectors) es
                                 /\ Forall (fun e => notProbe e /\ notClick e) ec
                                 /\ events o
                                    = enter :: waited :: ea ++ eb ++ en ++ es ++ ec)))).
Proof.
  cbv zeta. unfold applyToJob.
  generalize (alreadyAppliedLoop_spec page alreadyAppliedSelectors).
  generalize (applyLoop_spec page applySelectors false).
  generalize (clickFirstLoop_total page nextSelectors 3000).
  generalize (clickFirstLoop_probes page nextSelectors 3000).
  generalize (clickFirstLoop_total page submitSelectors 4000).
  generalize (clickFirstLoop_probes page submitSelectors 4000).
  generalize (confirmationLoop_total page confirmationSelectors).
  generalize (confirmationLoop_quiet page confirmationSelectors).
  generalize alreadyAppliedSelectors applySelectors nextSelectors submitSelectors
    confirmationSelectors.
  intros la lb ln ls lc Hcq Hct Hsp Hst Hnp Hnt Hb Ha.
  unfold isClosed, url, waitForTimeout, bind, tryCatch, call, emit, gets, ret. cbn.
  destruct (page_isClosed W B page w) eqn:Hclosed; cbn.
  { left. exists "Page is closed". split; [reflexivity | left; reflexivity]. }
  destruct (page_waitForTimeout W B page 2000 w) as [[[] | msg] w1] eqn:Hw; cbn.
  2:{ left. exists msg. split; [reflexivity | right; exists msg; reflexivity]. }
  right.
  specialize (Ha w1). cbv zeta in Ha.
  destruct (alreadyAppliedLoop B page la w1) as [va sa ea]. cbn in Ha.
  destruct Ha as [[ba [-> [Hns Hends]]] Hpa]. exists ea. split; [exact Hpa |].
  destruct ba; cbn.
  { left. rewrite app_nil_r. repeat split. auto. }
  right. split; [auto |].
  specialize (Hb sa). cbv zeta in Hb.
  destruct (applyLoop B page lb false sa) as [vb sb eb]. cbn in Hb.
  destruct Hb as [[bb [-> Hnc]] Hpb]. exists eb. split; [exact Hpb |].
  destruct bb; cbn.
  2:{ left. rewrite app_nil_r. repeat split; auto. }
  right.
  specialize (Hnt sb). specialize (Hnp sb).
  destruct (clickFirstLoop B page ln 3000 sb) as [vn sn en]. cbn in Hnt, Hnp.
  destruct Hnt as [[] ->].
  specialize (Hst sn). specialize (Hsp sn).
  destruct (clickFirstLoop B page ls 4000 sn) as [vs ss es]. cbn in Hst, Hsp.
  destruct Hst as [[] ->].
  specialize (Hct ss). specialize (Hcq ss).
  destruct (confirmationLoop B page lc ss) as [vc sc ec]. cbn in Hct, Hcq.
  destruct Hct as [bc ->].
  destruct bc; cbn.
  - split; [reflexivity |]. exists en, es, ec. repeat split; auto.
    rewrite ?app_nil_r, <- ?app_assoc. reflexivity.
  - destruct (urlIndicatesSuccess (page_url W B page sc)); cbn;
      (split; [reflexivity |]); exists en, es, ec; repeat split; auto;
      rewrite ?app_nil_r, <- ?app_assoc; reflexivity.
Qed.

Lemma already_not_clickable (sel : string) :
  In sel alreadyAppliedSelectors ->
  ~ In sel (applySelectors ++ nextSelectors ++ submitSelectors).
Proof.
  intros H1 H2.
  assert (Hb : existsb (String.eqb sel)
                       (applySelectors ++ nextSelectors ++ submitSelectors) = true).
  { apply existsb_exists. exists sel. split; [exact H2 | apply String.eqb_refl]. }
  cbn in H1.
  repeat (destruct H1 as [H1 | H1]; [subst sel; vm_compute in Hb; discriminate |]).
  exact H1.
Qed.

Lemma probeOf_notClick (page : Page) (sels : list string) (e : Event) :
  probeOf page sels e -> notClick e.
Proof. intros [s [r [_ ->]]] p s' r'. discriminate. Qed.

(** A run of applyToJob in which a probe of an already-applied indicator
    found it visible returns success with alreadyApplied set; the probe is
    the last call it makes, and it clicks nothing. *)
Lemma applyToJob_seen_indicator (page : Page) (w : W) :
  let o := applyToJob B page w in
  (exists sel, In sel alreadyAppliedSelectors
               /\ In (EvIsVisible page sel (Ok true)) (events o)) ->
  value o = Ok (mkApply true (Some true) None)
  /\ (forall p sel r, ~ In (EvClick p sel r) (events o))
  /\ (exists before sel,
        In sel alreadyAppliedSelectors
        /\ events o = before ++ [EvIsVisible page sel (Ok true)]).
Proof.
  cbv zeta. intros [sel [Hsel Hin]].
  destruct (applyToJob_cases page w) as [[why [_ [Hev | [msg Hev]]]] | [ea [Hpa Hc]]].
  - rewrite Hev in Hin. cbn in Hin. destruct Hin as [Hin | []]. discriminate.
  - rewrite Hev in Hin. cbn in Hin. destruct Hin as [Hin | [Hin | []]]; discriminate.
  - destruct Hc as [[Hv [Hev [before [s [Hs Hea]]]]] | [Hns [eb [Hpb Hc]]]].
    + split; [exact Hv |]. split.
      * intros p s' r Hc. rewrite Hev in Hc. cbn in Hc.
        destruct Hc as [Hc | [Hc | Hc]]; try discriminate.
        rewrite Forall_forall in Hpa.
        exact (probeOf_notClick _ _ _ (Hpa _ Hc) p s' r eq_refl).
      * exists (EvEnter (FnApplyToJob page)
                :: EvWaitForTimeout page 2000 (Ok tt) :: before), s.
        split; [exact Hs |]. rewrite Hev, Hea. reflexivity.
    + exfalso.
      assert (Hea : ~ In (EvIsVisible page sel (Ok true)) ea).
      { intros H. rewrite Forall_forall in Hns. exact (Hns _ H sel eq_refl). }
      assert (Hno : forall l es, Forall (probesWithin l) es ->
                  (forall x, In x l ->
                             In x (applySelectors ++ nextSelectors ++ submitSelectors)) ->
                  ~ In (EvIsVisible page sel (Ok true)) es).
      { intros l es Hl Hsub H. rewrite Forall_forall in Hl.
        apply (already_not_clickable sel Hsel), Hsub.
        exact (Hl _ H page sel (Ok true) eq_refl). }
      destruct Hc as [[_ [_ Hev]] | [_ [en [es [ec [Hen [Hes [Hec Hev]]]]]]]];
        rewrite Hev in Hin; cbn in Hin;
        destruct Hin as [Hin | [Hin | Hin]]; try discriminate;
        repeat (apply in_app_or in Hin; destruct Hin as [Hin | Hin]);
        try contradiction.
      * eapply (Hno applySelectors); eauto. intros x Hx. apply in_or_app. now left.
      * eapply (Hno applySelectors); eauto. intros x Hx. apply in_or_app. now left.
      * eapply (Hno nextSelectors); eauto. intros x Hx.
        apply in_or_app. right. apply in_or_app. now left.
      * eapply (Hno submitSelectors); eauto. intros x Hx.
        apply in_or_app. right. apply in_or_app. now right.
      * rewrite Forall_forall in Hec. destruct (Hec _ Hin) as [Hnp _].
        exact (Hnp page sel (Ok true) eq_refl).
Qed.

(** C3. When no already-applied indicator was seen, an apply control was
    clicked, no confirmation selector appeared and the address shows none of
    the success words, applyToJob still returns success with alreadyApplied
    false. *)
Theorem applyToJob_unconfirmed_success (page : Page) (w : W) :
  let o := applyToJob B page w in
  (forall sel, In sel alreadyAppliedSelectors ->
               ~ In (EvIsVisible page sel (Ok true)) (events o)) ->
  (exists sel, In sel applySelectors /\ In (EvClick page sel (Ok tt)) (events o)) ->
  (forall sel, In sel confirmationSelectors ->
               ~ In (EvWaitForSelector page sel (Ok tt)) (events o)) ->
  urlIndicatesSuccess (page_url W B page (final o)) = false ->
  value o = Ok (mkApply true (Some false) None).
Proof.
  cbv zeta. intros _ [sel [Hsel Hin]] _ _.
  destruct (applyToJob_cases page w) as [[why [_ [Hev | [msg Hev]]]] | [ea [Hpa Hc]]].
  - rewrite Hev in Hin. cbn in Hin. destruct Hin as [Hin | []]. discriminate.
  - rewrite Hev in Hin. cbn in Hin. destruct Hin as [Hin | [Hin | []]]; discriminate.
  - assert (Hea : ~ In (EvClick page sel (Ok tt)) ea).
    { intros H. rewrite Forall_forall in Hpa.
      exact (probeOf_notClick _ _ _ (Hpa _ H) page sel (Ok tt) eq_refl). }
    destruct Hc as [[Hv [Hev _]] | [Hns [eb [Hpb [[_ [Hnc Hev]] | [Hv _]]]]]].
    + exfalso. rewrite Hev in Hin. cbn in Hin.
      destruct Hin as [Hin | [Hin | Hin]]; try discriminate. contradiction.
    + exfalso. rewrite Hev in Hin. cbn in Hin.
      destruct Hin as [Hin | [Hin | Hin]]; try discriminate.
      apply in_app_or in Hin. destruct Hin as [Hin | Hin]; [contradiction |].
      rewrite Forall_forall in Hnc. exact (Hnc _ Hin page sel eq_refl).
    + exact Hv.
Qed.

End Apply.

Section AlreadyApplied.

Context {W : Type} (B : Browser W).

(** The first loop, when it answers true: the probe that found its
    indicator visible is the last call, and no probe before it did. *)
Lemma alreadyAppliedLoop_stops_at_first (page : Page) (sels : list string) (w : W) :
  value (alreadyAppliedLoop B page sels w) = Ok true ->
  exists probes seen,
    In seen sels
    /\ events (alreadyAppliedLoop B page sels w)
       = probes ++ [EvIsVisible page seen (Ok true)]
    /\ Forall (probeOf page sels) probes
    /\ Forall (notSeen page) probes.
Proof.
  revert w. induction sels as [| sel rest IH]; intros w; cbn; [discriminate |].
  assert (Hin : forall e, probeOf page rest e -> probeOf page (sel :: rest) e).
  { intros e [s [r [Hin He]]]. exists s, r. split; [now right | exact He]. }
  assert (Hhere : forall r, probeOf page (sel :: rest) (EvIsVisible page sel r)).
  { intros r. exists sel, r. split; [now left | reflexivity]. }
  unfold isVisible, bind, tryCatch, call, ret. cbn.
  destruct (locator_isVisible W B page sel 1000 w) as [[[|] | msg] w'] eqn:E; cbn.
  - intros _. exists [], sel. repeat split; [now left | constructor | constructor].
  - specialize (IH w'). destruct (alreadyAppliedLoop B page rest w') as [v s2 es2].
    cbn in *. intros Hv. destruct (IH Hv) as [probes [seen [Hs [-> [Hp Hn]]]]].
    exists (EvIsVisible page sel (Ok false) :: probes), seen.
    split; [now right |]. split; [reflexivity |]. split.
    + constructor; [apply Hhere | eapply Forall_impl; [exact Hin | exact Hp]].
    + constructor; [intros s; discriminate | exact Hn].
  - specialize (IH w'). destruct (alreadyAppliedLoop B page rest w') as [v s2 es2].
    cbn in *. intros Hv. destruct (IH Hv) as [probes [seen [Hs [-> [Hp Hn]]]]].
    exists (EvIsVisible page sel (Throw msg) :: probes), seen.
    split; [now right |]. split; [reflexivity |]. split.
    + constructor; [apply Hhere | eapply Forall_impl; [exact Hin | exact Hp]].
    + constructor; [intros s; discriminate | exact Hn].
Qed.

(** The first loop finds an indicator that is visible whenever it is
    probed, whatever the probes before it answer. *)
Lemma alreadyAppliedLoop_finds (page : Page) (sels : list string) (sel : string)
  (w : W) :
  In sel sels ->
  (forall w', fst (locator_isVisible W B page sel 1000 w') = Ok true) ->
  value (alreadyAppliedLoop B page sels w) = Ok true.
Proof.
  intros Hin Hvis. revert w Hin.
  induction sels as [| s rest IH]; intros w Hin; [destruct Hin |].
  cbn. unfold isVisible, bind, tryCatch, call, ret. cbn.
  destruct (locator_isVisible W B page s 1000 w) as [[[|] | msg] w'] eqn:E; cbn;
    [reflexivity | |];
    (destruct Hin as [-> | Hin];
     [ specialize (Hvis w); rewrite E in Hvis; discriminate
     | specialize (IH w' Hin);
       destruct (alreadyAppliedLoop B page rest w') as [v s2 es2]; exact IH ]).
Qed.

(** C7. On every detail page that is open, stays there for the two
    seconds applyToJob first waits, and shows one of the already-applied
    indicators whenever it is probed, applyToJob returns success with
    alreadyApplied set; it stops at the first probe that finds an indicator
    visible, which is the last call it makes; before it there are only
    probes of indicators, none of which found its indicator; and it clicks
    nothing: no apply, next or submit control. *)
Theorem applyToJob_already_applied (page : Page) (sel : string) (w : W) :
  page_isClosed W B page w = false ->
  fst (page_waitForTimeout W B page 2000 w) = Ok tt ->
  In sel alreadyAppliedSelectors ->
  (forall w', fst (locator_isVisible W B page sel 1000 w') = Ok true) ->
  let o := applyToJob B page w in
  value o = Ok (mkApply true (Some true) None)
  /\ (forall p s r, ~ In (EvClick p s r) (events o))
  /\ (exists probes seen,
        In seen alreadyAppliedSelectors
        /\ events o = EvEnter (FnApplyToJob page)
                      :: EvWaitForTimeout page 2000 (Ok tt)
                      :: probes ++ [EvIsVisible page seen (Ok true)]
        /\ Forall (probeOf page alreadyAppliedSelectors) probes
        /\ Forall (notSeen page) probes).
Proof.
  intros Hopen Hwait Hin Hvis. cbv zeta. unfold applyToJob.
  pose proof (alreadyAppliedLoop_finds page alreadyAppliedSelectors sel) as Hfind.
  pose proof (alreadyAppliedLoop_stops_at_first page alreadyAppliedSelectors) as Hstop.
  revert Hin Hfind Hstop. generalize alreadyAppliedSelectors. intros la Hin Hfind Hstop.
  unfold isClosed, waitForTimeout, bind, tryCatch, call, emit, gets, ret. cbn.
  rewrite Hopen. cbn.
  destruct (page_waitForTimeout W B page 2000 w) as [[[] | msg] w1]; cbn in Hwait;
    [| discriminate].
  cbn. specialize (Hfind w1 Hin Hvis). specialize (Hstop w1 Hfind).
  destruct (alreadyAppliedLoop B page la w1) as [v s1 es1]. cbn in Hfind, Hstop.
  subst v. cbn. destruct Hstop as [probes [seen [Hs [-> [Hp Hn]]]]].
  rewrite app_nil_r. split; [reflexivity |]. split.
  - intros p s r [H | [H | H]]; try discriminate.
    apply in_app_or in H. destruct H as [H | [H | []]]; [| discriminate].
    rewrite Forall_forall in Hp. destruct (Hp _ H) as [s' [r' [_ He]]]. discriminate.
  - exists probes, seen. repeat split; assumption.
Qed.

End AlreadyApplied.

(** The scorer answers NO_MATCH with an explanation: the verdict is MATCH. *)
Lemma checkJobMatchWithLLM_match_wins_witness :
  value (checkJobMatchWithLLM
           (Worlds.siteBrowser (Worlds.scorerSite "NO_MATCH: little overlap"))
           ["Playwright"] "Java developer wanted" 0)
  = Ok (mkLlm MATCH (Some "NO_MATCH: little overlap")).
Proof.
  apply (proj1 (checkJobMatchWithLLM_match_wins
                  (Worlds.siteBrowser (Worlds.scorerSite "NO_MATCH: little overlap"))
                  ["Playwright"] "Java developer wanted" 0)).
  - present.
  - discriminate.
  - reflexivity.
Defined.

(** A page that shows the text Applied, the last of the seven indicators. *)
Lemma applyToJob_already_applied_witness :
  value (applyToJob (Worlds.siteBrowser Worlds.appliedSite) 7 0)
  = Ok (mkApply true (Some true) None)
  /\ (forall p s r,
         ~ In (EvClick p s r)
              (events (applyToJob (Worlds.siteBrowser Worlds.appliedSite) 7 0)))
  /\ (exists probes seen,
        In seen alreadyAppliedSelectors
        /\ events (applyToJob (Worlds.siteBrowser Worlds.appliedSite) 7 0)
           = EvEnter (FnApplyToJob 7)
             :: EvWaitForTimeout 7 2000 (Ok tt)
             :: probes ++ [EvIsVisible 7 seen (Ok true)]
        /\ Forall (probeOf 7 alreadyAppliedSelectors) probes
        /\ Forall (notSeen 7) probes).
Proof.
  apply (applyToJob_already_applied (Worlds.siteBrowser Worlds.appliedSite)
                                        7 "text=Applied" 0).
  - reflexivity.
  - reflexivity.
  - present.
  - intros w'. reflexivity.
Defined.

(** A page with an Easy apply button and no confirmation of any kind. *)
Lemma applyToJob_unconfirmed_success_witness :
  value (applyToJob (Worlds.siteBrowser Worlds.easyApplySite) 7 0)
  = Ok (mkApply true (Some false) None).
Proof.
  apply (applyToJob_unconfirmed_success
           (Worlds.siteBrowser Worlds.easyApplySite) 7 0).
  - intros sel Hsel H. cbn in Hsel.
    repeat (destruct Hsel as [Hsel | Hsel]; [subst sel; absent H |]).
    exact Hsel.
  - exists "button:has-text('Easy apply')". split; present.
  - intros sel Hsel H. cbn in Hsel.
    repeat (destruct Hsel as [Hsel | Hsel]; [subst sel; absent H |]).
    exact Hsel.
  - reflexivity.
Defined.

(** * safeGoto *)

Section Navigation.

Context {W : Type} (B : Browser W).

Lemma loads_app (es es' : list Event) : loads (es ++ es') = loads es + loads es'.
Proof. unfold loads. rewrite filter_app, length_app. reflexivity. Qed.

(** One round of the loop: at most one load; [Some true] only after a load
    that went through and a title that is not empty. *)
Lemma safeGoto_round (page : Page) (u : string) (retries attempt : nat) (w : W) :
  let o := tryCatch (safeGoto_try B page u)
                    (fun _ => safeGoto_catch B page retries attempt) w in
  loads (events o) <= 1
  /\ (value o = Ok (Some true) ->
      In (EvGoto page u (Ok tt)) (events o)
      /\ exists t, t <> EmptyString /\ In (EvTitle page (Ok t)) (events o))
  /\ (page_isClosed W B page w = true -> value o = Ok (Some false) /\ events o = [])
  /\ ((forall w', fst (page_waitForTimeout W B page 3000 w') = Ok tt) ->
      exists r, value o = Ok r).
Proof.
  cbv zeta.
  unfold safeGoto_try, safeGoto_catch, isClosed, goto, waitForTimeout, title,
    tryCatch, bind, call, gets, ret.
  repeat run_step; cbn;
    repeat match goal with a : unit |- _ => destruct a end;
    (split; [unfold loads; cbn; lia |
     split; [intros Hv; try discriminate |
     split; [intros Hcl; try discriminate; try (split; reflexivity) |
             intros Hok; first [solve [eauto] | stuck_wait Hok]]]]).
  split; [auto |].
  match goal with
  | H : page_title _ _ _ _ = (Ok ?t, _) |- _ => exists t
  end.
  split; [intros ->; discriminate | cbn; auto].
Qed.

Lemma safeGoto_loop_facts (page : Page) (u : string) (retries : nat)
  (attempts : list nat) (w : W) :
  let o := safeGoto_loop B page u retries attempts w in
  loads (events o) <= length attempts
  /\ (value o = Ok true ->
      In (EvGoto page u (Ok tt)) (events o)
      /\ exists t, t <> EmptyString /\ In (EvTitle page (Ok t)) (events o))
  /\ (page_isClosed W B page w = true -> value o = Ok false /\ events o = [])
  /\ ((forall w', fst (page_waitForTimeout W B page 3000 w') = Ok tt) ->
      exists b, value o = Ok b).
Proof.
  cbv zeta. revert w. induction attempts as [| attempt rest IH]; intros w.
  - cbn. repeat split; try discriminate; eauto.
  - cbn [safeGoto_loop]. unfold bind.
    pose proof (safeGoto_round page u retries attempt w) as Hr. cbv zeta in Hr.
    destruct (tryCatch (safeGoto_try B page u)
                       (fun _ => safeGoto_catch B page retries attempt) w)
      as [v s1 es1].
    cbn [value events] in Hr. destruct Hr as [Hl [Ht [Hc Hok]]].
    destruct v as [[b |] | msg]; cbn -[loads].
    + rewrite app_nil_r. split; [lia |]. split; [| split].
      * intros Hv. injection Hv as ->. auto.
      * intros Hcl. destruct (Hc Hcl) as [Hv He]. injection Hv as ->. auto.
      * eauto.
    + specialize (IH s1).
      destruct (safeGoto_loop B page u retries rest s1) as [v2 s2 es2].
      cbn -[loads] in *. destruct IH as [Hl2 [Ht2 [Hc2 Hok2]]].
      split; [rewrite loads_app; lia |]. split; [| split].
      * intros Hv. destruct (Ht2 Hv) as [Hg [t [Hne Hin]]].
        split; [apply in_or_app; now right |].
        exists t. split; [exact Hne | apply in_or_app; now right].
      * intros Hcl. destruct (Hc Hcl) as [Hv _]. discriminate.
      * exact Hok2.
    + split; [lia |]. split; [discriminate |]. split.
      * intros Hcl. destruct (Hc Hcl) as [Hv _]. discriminate.
      * intros H. destruct (Hok H) as [r Hr]. discriminate.
Qed.

(** What holds of safeGoto with two retries on every page: at most three
    loads; [true] only after a load that went through and a title that is
    not empty; [false] at once on a closed page; and no exception as long as
    the wait between two attempts is not itself rejected. *)
Lemma safeGoto_two_retries (page : Page) (u : string) (w : W) :
  let o := safeGoto B page u 2 w in
  loads (events o) <= 3
  /\ (value o = Ok true ->
      In (EvGoto page u (Ok tt)) (events o)
      /\ exists t, t <> EmptyString /\ In (EvTitle page (Ok t)) (events o))
  /\ (page_isClosed W B page w = true -> value o = Ok false /\ events o = [])
  /\ ((forall w', fst (page_waitForTimeout W B page 3000 w') = Ok tt) ->
      exists b, value o = Ok b).
Proof. exact (safeGoto_loop_facts page u 2 (seq 0 3) w). Qed.

End Navigation.

(** C6. The part of the property the script misses: the wait between two
    attempts stands in the [catch] block, outside every [try], so when the
    page is lost during that wait safeGoto raises instead of returning false.
    Here the first load fails, the page is still open, and the page closes
    while the script waits three seconds. *)
Theorem safeGoto_raises_during_backoff :
  value (safeGoto Worlds.lostPage 1 "https://www.dice.com/dashboard/login" 2 0)
  = Throw "Target page has been closed"
  /\ events (safeGoto Worlds.lostPage 1 "https://www.dice.com/dashboard/login" 2 0)
     = [EvGoto 1 "https://www.dice.com/dashboard/login"
               (Throw "net::ERR_CONNECTION_RESET");
        EvWaitForTimeout 1 3000 (Throw "Target page has been closed")].
Proof. split; reflexivity. Qed.

(** * processJobBatch *)

Section Batch.

Context {W : Type} (B : Browser W).

Lemma inOrder_length (cvKeywords : list string) (k : nat) (cards : list Card)
  (results : list JobResult) :
  inOrder B cvKeywords k cards results -> length results = length cards.
Proof.
  revert k results. induction cards as [| c cards IH]; intros k [| r results] H;
    cbn in *; try contradiction; [reflexivity |].
  destruct H as [_ H]. f_equal. eapply IH, H.
Qed.

Lemma inOrder_app (cvKeywords : list string) (k : nat) (c1 c2 : list Card)
  (r1 r2 : list JobResult) :
  inOrder B cvKeywords k c1 r1 ->
  inOrder B cvKeywords (k + length c1) c2 r2 ->
  inOrder B cvKeywords k (c1 ++ c2) (r1 ++ r2).
Proof.
  revert k r1. induction c1 as [| c c1 IH]; intros k [| r r1] H1 H2;
    cbn in *; try contradiction.
  - rewrite Nat.add_0_r in H2. exact H2.
  - destruct H1 as [He H1]. split; [exact He |].
    apply IH; [exact H1 |]. rewrite <- Nat.add_succ_comm in H2. exact H2.
Qed.

Lemma firstn_add {A : Type} (i l : nat) (xs : list A) :
  firstn (i + l) xs = firstn i xs ++ firstn l (skipn i xs).
Proof.
  revert xs. induction i as [| i IH]; intros xs; [reflexivity |].
  destruct xs as [| x xs]; cbn.
  - rewrite firstn_nil. reflexivity.
  - f_equal. apply IH.
Qed.

(** [Promise.allSettled] answers with one settlement per card of the group,
    in the order of the group, and never rejects. *)
Lemma allSettled_spec (cvKeywords : list string) (i index : nat)
  (batch : list Card) (w : W) :
  exists rs,
    value (allSettled B cvKeywords i index batch w) = Ok rs
    /\ inOrder B cvKeywords (i + index) batch (map entryOf rs).
Proof.
  revert index w. induction batch as [| card rest IH]; intros index w.
  - exists []. split; [reflexivity | exact I].
  - cbn [allSettled]. unfold bind, settled.
    destruct (batchTask B cvKeywords i index card w) as [v s1 es1] eqn:E.
    destruct (IH (S index) s1) as [rs [Hv Hin]].
    destruct (allSettled B cvKeywords i (S index) rest s1) as [v2 s2 es2].
    cbn in Hv. subst v2. cbn.
    exists (v :: rs). split; [reflexivity |]. cbn. split.
    + exists i, index, w. split; [reflexivity |]. rewrite E. reflexivity.
    + rewrite <- Nat.add_succ_comm in Hin. exact Hin.
Qed.

Lemma batchLoop_spec (cvKeywords : list string) (limit : nat) (jobCards : list Card)
  (rounds i : nat) (results : list JobResult) (w : W) :
  1 <= limit ->
  length jobCards - i <= rounds ->
  inOrder B cvKeywords 0 (firstn i jobCards) results ->
  exists results',
    value (batchLoop B cvKeywords limit jobCards rounds i results w) = Ok results'
    /\ (exists m, m <= length jobCards
                  /\ inOrder B cvKeywords 0 (firstn m jobCards) results')
    /\ ((forall w', context_pages_length W B w' <> 0) ->
        inOrder B cvKeywords 0 jobCards results').
Proof.
  intros Hlimit. revert i results w.
  assert (Hcap : forall i results,
             inOrder B cvKeywords 0 (firstn i jobCards) results ->
             exists m, m <= length jobCards
                       /\ inOrder B cvKeywords 0 (firstn m jobCards) results).
  { intros i results H. exists (Nat.min i (length jobCards)).
    split; [apply Nat.le_min_r |].
    rewrite <- firstn_firstn, firstn_all. exact H. }
  assert (Hall : forall i results,
             length jobCards <= i ->
             inOrder B cvKeywords 0 (firstn i jobCards) results ->
             inOrder B cvKeywords 0 jobCards results).
  { intros i results Hi H. rewrite firstn_all2 in H by exact Hi. exact H. }
  induction rounds as [| rounds IH]; intros i results w Hfuel Hinv.
  - cbn. exists results. split; [reflexivity |]. split; [eauto |].
    intros _. apply (Hall i); [lia | exact Hinv].
  - cbn [batchLoop].
    destruct (i <? length jobCards) eqn:Hi.
    2:{ apply Nat.ltb_ge in Hi. exists results. split; [reflexivity |].
        split; [eauto |]. intros _. eapply Hall; eauto. }
    apply Nat.ltb_lt in Hi.
    unfold bind, contextPages, gets, sleep.
    destruct (context_pages_length W B w =? 0) eqn:Hp.
    { exists results. split; [reflexivity |]. split; [eauto |].
      intros Hopen. apply Nat.eqb_eq in Hp. destruct (Hopen w Hp). }
    destruct (allSettled_spec cvKeywords i 0 (slice i (i + limit) jobCards) w)
      as [rs [Hv Hrs]].
    destruct (allSettled B cvKeywords i 0 (slice i (i + limit) jobCards) w)
      as [v1 s1 es1].
    cbn in Hv. subst v1.
    assert (Hinv' : inOrder B cvKeywords 0 (firstn (i + limit) jobCards)
                            (results ++ map entryOf rs)).
    { rewrite firstn_add. apply inOrder_app; [exact Hinv |].
      rewrite Nat.add_0_r in Hrs. unfold slice in Hrs.
      replace (i + limit - i) with limit in Hrs by lia.
      rewrite length_firstn, Nat.min_l by lia. exact Hrs. }
    destruct (i + limit <? length jobCards) eqn:Hmore.
    + destruct (context_pages_length W B s1 =? 0) eqn:Hp1.
      { exists (results ++ map entryOf rs). split; [reflexivity |].
        split; [eauto |].
        intros Hopen. apply Nat.eqb_eq in Hp1. destruct (Hopen s1 Hp1). }
      destruct (IH (i + limit) (results ++ map entryOf rs)
                   (elapse W B PAGE_DELAY s1)) as [res' [Hv' [Hm' Hall']]];
        [lia | exact Hinv' |].
      destruct (batchLoop B cvKeywords limit jobCards rounds (i + limit)
                          (results ++ map entryOf rs) (elapse W B PAGE_DELAY s1))
        as [v2 s2 es2].
      cbn in Hv'. subst v2. exists res'. cbn. auto.
    + destruct (IH (i + limit) (results ++ map entryOf rs) s1)
        as [res' [Hv' [Hm' Hall']]]; [lia | exact Hinv' |].
      destruct (batchLoop B cvKeywords limit jobCards rounds (i + limit)
                          (results ++ map entryOf rs) s1) as [v2 s2 es2].
      cbn in Hv'. subst v2. exists res'. cbn. auto.
Qed.


End Batch.



(** * The search driver *)

Section Driver.

Context {W : Type} (B : Browser W).

(** C2, as amended.  On a page of a term whose browser page is open:
    when no job-card marker appears, or no card is collected, the loop over
    the pages of the term ends there, whatever pages remain; when the
    navigation fails the page is skipped and the loop goes on with the next
    page number; and on a closed browser page the loop ends at once. *)
Theorem pageLoop_stops (page : Page) (searchTerm : string)
  (cvKeywords : list string) (pageNum : nat) (rest : list nat)
  (stats : Stats) (w : W) :
  let run := pageLoop B page searchTerm cvKeywords (pageNum :: rest) (stats, w) in
  let nav := safeGoto B page (searchUrl searchTerm pageNum) 2 w in
  (page_isClosed W B page w = true -> run = mkOut (Ok tt) (stats, w) [])
  /\ (page_isClosed W B page w = false ->
      (forall msg w2,
          value nav = Ok true ->
          page_waitForSelector W B page cardSelector 15000 (final nav)
          = (Throw msg, w2) ->
          run = mkOut (Ok tt) (stats, w2)
                      (events nav ++ [EvWaitForSelector page cardSelector (Throw msg)]))
      /\ (forall w2 w3,
          value nav = Ok true ->
          page_waitForSelector W B page cardSelector 15000 (final nav)
          = (Ok tt, w2) ->
          locator_all W B page cardSelector w2 = (Ok [], w3) ->
          run = mkOut (Ok tt) (stats, w3)
                      (events nav ++ [EvWaitForSelector page cardSelector (Ok tt);
                                      EvLocatorAll page cardSelector (Ok [])]))
      /\ (value nav = Ok false ->
          run = after (events nav)
                      (pageLoop B page searchTerm cvKeywords rest (stats, final nav)))).
Proof.
  cbv zeta. cbn [pageLoop].
  remember (safeGoto B page (searchUrl searchTerm pageNum) 2) as nav eqn:Hnav.
  remember (pageLoop B page searchTerm cvKeywords rest) as next eqn:Hnext.
  clear Hnav Hnext.
  unfold bind, lift, isClosed, gets, tryCatch, waitForSelector, locatorAll, call,
    ret, after.
  cbn [fst snd].
  destruct (page_isClosed W B page w) eqn:Hc.
  - split; [reflexivity | discriminate].
  - split; [discriminate |]. intros _.
    cbn.
    destruct (nav w) as [v w1 es1].
    cbn [value final events]. split; [| split].
    + intros msg w2 -> Hw. cbn. rewrite Hw.
      cbn. rewrite ?app_nil_r. reflexivity.
    + intros w2 w3 -> Hw Hl. cbn. rewrite Hw.
      cbn. rewrite Hl. cbn. rewrite ?app_nil_r. reflexivity.
    + intros ->. cbn.
      destruct (next (stats, w1)).
      reflexivity.
Qed.

End Driver.

(** The first page of the term cannot be loaded: it is skipped. *)
Lemma pageLoop_stops_witness :
  pageLoop Worlds.unreachableFirstPage 1 "QA" [] [1; 2] (Worlds.noStats, 0)
  = after (events (safeGoto Worlds.unreachableFirstPage 1 (searchUrl "QA" 1) 2 0))
          (pageLoop Worlds.unreachableFirstPage 1 "QA" [] [2]
                    (Worlds.noStats,
                     final (safeGoto Worlds.unreachableFirstPage 1
                                     (searchUrl "QA" 1) 2 0))).
Proof.
  apply (proj2 (proj2 (proj2 (pageLoop_stops Worlds.unreachableFirstPage 1 "QA" []
                                             1 [2] Worlds.noStats 0)
                             eq_refl))).
  vm_compute. reflexivity.
Defined.

(** C2 as stated fails: every attempt to load the first page of the term
    fails, so the navigation fails, and the driver goes on to load the second
    page of the same term. *)
Lemma searchTermPages_goes_on_after_failed_navigation :
  value (safeGoto Worlds.unreachableFirstPage 1 (searchUrl "QA" 1) 2 0) = Ok false
  /\ In (EvGoto 1 (searchUrl "QA" 2) (Ok tt))
        (events (searchTermPages Worlds.unreachableFirstPage 1 "QA" []
                                 (Worlds.noStats, 0))).
Proof. split; [vm_compute; reflexivity | present]. Qed.

(** * The extractors *)

Section Extraction.

Context {W : Type} (B : Browser W).

Lemma extractWith_total (selectors : list string) (bound : nat)
  (scanSelector unknown : string) (page : Page) :
  total (extractWith B selectors bound scanSelector unknown page).
Proof. unfold extractWith. apply total_tryCatch. intro. apply total_ret. Qed.

Lemma extractJobDescription_total (page : Page) :
  total (extractJobDescription B page).
Proof. unfold extractJobDescription. apply total_tryCatch. intro. apply total_ret. Qed.

(** The description is empty or at least 200 characters long. *)
Lemma extractJobDescription_length (page : Page) (w : W) (s : string) :
  value (extractJobDescription B page w) = Ok s ->
  s = EmptyString \/ 200 <= String.length s.
Proof.
  unfold extractJobDescription, tryCatch, bind, visibleText, call, ret.
  destruct (descriptionLoop B page descriptionSelectors EmptyString w)
    as [[gathered | msg] w1 es1]; cbn -[Nat.ltb].
  2:{ intros H. injection H as <-. now left. }
  destruct (String.length (clean gathered) <? 200) eqn:Hshort.
  - destruct (page_visibleText W B page w1) as [[allVisibleText | msg] w2];
      cbn -[Nat.ltb].
    2:{ intros H. injection H as <-. now left. }
    match goal with
    | |- context [String.length ?t <? 200] =>
        destruct (String.length t <? 200) eqn:Hb
    end; cbn; intros H; injection H as <-.
    + now left.
    + right. apply Nat.ltb_ge in Hb. exact Hb.
  - cbn. intros H. injection H as <-. right. apply Nat.ltb_ge in Hshort. exact Hshort.
Qed.

End Extraction.

Section StaticSite.

Variable site : Worlds.Site.

Lemma readElement_site (page : Page) (bound : nat) (el : Element) (w : nat) :
  value (readElement (Worlds.siteBrowser site) page bound el w)
  = Ok (acceptedText site bound el).
Proof.
  unfold readElement, textContent, innerText, bind, call, ret, acceptedText.
  cbn -[qualifies blank].
  destruct (blank (Worlds.site_text site el)); cbn -[qualifies blank].
  - destruct (Worlds.site_inner site el) as [s |]; cbn -[qualifies blank];
      [| reflexivity].
    destruct (qualifies bound (Some s)); reflexivity.
  - destruct (Worlds.site_text site el) as [s |]; cbn -[qualifies blank];
      [| reflexivity].
    destruct (qualifies bound (Some s)); reflexivity.
Qed.

Lemma selectorLoop_site (page : Page) (bound : nat) (selectors : list string)
  (w : nat) :
  value (selectorLoop (Worlds.siteBrowser site) page bound selectors w)
  = Ok (firstBySelector site bound selectors).
Proof.
  revert w. induction selectors as [| selector rest IH]; intros w; [reflexivity |].
  cbn [selectorLoop firstBySelector]. unfold bind, tryCatch, query, call, ret.
  cbn -[readElement acceptedText].
  destruct (hd_error (Worlds.site_dom site selector)) as [el |].
  - pose proof (readElement_site page bound el (S w)) as Hr.
    destruct (readElement (Worlds.siteBrowser site) page bound el (S w))
      as [v w1 es1].
    cbn in Hr. subst v. cbn -[acceptedText].
    destruct (acceptedText site bound el) as [s |]; [reflexivity |].
    specialize (IH w1).
    destruct (selectorLoop (Worlds.siteBrowser site) page bound rest w1).
    exact IH.
  - cbn. specialize (IH (S w)).
    destruct (selectorLoop (Worlds.siteBrowser site) page bound rest (S w)).
    exact IH.
Qed.

Lemma elementLoop_site (page : Page) (bound : nat) (els : list Element) (w : nat) :
  value (elementLoop (Worlds.siteBrowser site) page bound els w)
  = Ok (firstByElement site bound els).
Proof.
  revert w. induction els as [| el rest IH]; intros w; [reflexivity |].
  cbn [elementLoop firstByElement]. unfold bind, ret.
  pose proof (readElement_site page bound el w) as Hr.
  destruct (readElement (Worlds.siteBrowser site) page bound el w) as [v w1 es1].
  cbn in Hr. subst v.
  destruct (acceptedText site bound el) as [s |]; [reflexivity |].
  specialize (IH w1).
  destruct (elementLoop (Worlds.siteBrowser site) page bound rest w1).
  exact IH.
Qed.

Lemma extractWith_site (selectors : list string) (bound : nat)
  (scanSelector unknown : string) (page : Page) (w : nat) :
  value (extractWith (Worlds.siteBrowser site) selectors bound scanSelector unknown
                     page w)
  = Ok (extracted site selectors bound scanSelector unknown).
Proof.
  unfold extractWith, extracted, tryCatch, bind, queryAll, call, ret.
  pose proof (selectorLoop_site page bound selectors w) as Hs.
  destruct (selectorLoop (Worlds.siteBrowser site) page bound selectors w)
    as [v w1 es1].
  cbn in Hs. subst v.
  destruct (firstBySelector site bound selectors) as [s |]; [reflexivity |].
  cbn -[elementLoop firstByElement].
  pose proof (elementLoop_site page bound (Worlds.site_dom site scanSelector) (S w1))
    as He.
  destruct (elementLoop (Worlds.siteBrowser site) page bound
                        (Worlds.site_dom site scanSelector) (S w1)) as [v w2 es2].
  cbn in He. subst v.
  destruct (firstByElement site bound (Worlds.site_dom site scanSelector));
    reflexivity.
Qed.

End StaticSite.

(** An accepted text is the trimmed form of a text that is not blank and
    whose length before trimming exceeds the bound. *)
Lemma acceptedText_inv (site : Worlds.Site) (bound : nat) (el : Element)
  (s : string) :
  acceptedText site bound el = Some s ->
  exists t, (Worlds.site_text site el = Some t
             \/ (blank (Worlds.site_text site el) = true
                 /\ Worlds.site_inner site el = Some t))
            /\ Js.trim t <> EmptyString
            /\ bound < String.length t
            /\ s = Js.trim t.
Proof.
  unfold acceptedText.
  destruct (blank (Worlds.site_text site el)) eqn:Hb.
  - destruct (Worlds.site_inner site el) as [t |]; [| discriminate].
    destruct (qualifies bound (Some t)) eqn:Hq; [| discriminate].
    intros H. injection H as <-. exists t. cbn in Hq.
    apply andb_true_iff in Hq. destruct Hq as [Hq Hl].
    apply andb_true_iff in Hq. destruct Hq as [_ Ht].
    repeat split; auto.
    + intros E. rewrite E in Ht. discriminate.
    + apply Nat.ltb_lt. exact Hl.
  - destruct (Worlds.site_text site el) as [t |]; [| discriminate].
    destruct (qualifies bound (Some t)) eqn:Hq; [| discriminate].
    intros H. injection H as <-. exists t. cbn in Hq.
    apply andb_true_iff in Hq. destruct Hq as [Hq Hl].
    apply andb_true_iff in Hq. destruct Hq as [_ Ht].
    repeat split; auto.
    + intros E. rewrite E in Ht. discriminate.
    + apply Nat.ltb_lt. exact Hl.
Qed.

(** The title and company extractors compare the length of the text before
    trimming with their bound (lines 658, 673, 709, 726), where the
    description extractor compares the trimmed length (line 175): the
    heading QA followed by two spaces has four characters and is returned as
    QA, whose length does not exceed the bound of three. *)
Lemma extractJobTitle_accepts_short_text :
  value (extractJobTitleFromDetailPage
           (Worlds.siteBrowser Worlds.shortTitleSite) 7 0) = Ok "QA"
  /\ qualifiesTrimmed 3 (Some "QA  ") = false.
Proof. repeat split; vm_compute; reflexivity. Qed.

(** * The extractors on every page *)

Lemma trimStart_length (s : string) : String.length (Js.trimStart s) <= String.length s.
Proof.
  induction s as [| c s IH]; cbn [Js.trimStart]; [lia |].
  destruct (Js.isSpace c); cbn [String.length]; lia.
Qed.

Lemma trimEnd_length (s : string) : String.length (Js.trimEnd s) <= String.length s.
Proof.
  induction s as [| c s IH]; cbn [Js.trimEnd]; [lia |].
  destruct (Js.trimEnd s); [destruct (Js.isSpace c) |]; cbn [String.length] in *; lia.
Qed.

Lemma trim_length (s : string) : String.length (Js.trim s) <= String.length s.
Proof.
  unfold Js.trim. pose proof (trimEnd_length (Js.trimStart s)).
  pose proof (trimStart_length s). lia.
Qed.

(** A text the code rejects has a trimmed length of at most the bound. *)
Lemma qualifies_false_trimmed (bound : nat) (t : string) :
  qualifies bound (Some t) = false -> qualifiesTrimmed bound (Some t) = false.
Proof.
  unfold qualifies, qualifiesTrimmed. intros H. apply Nat.ltb_ge.
  pose proof (trim_length t) as Hl.
  destruct (Js.truthy t) eqn:Ht; cbn in H.
  - destruct (Js.truthy (Js.trim t)) eqn:Htt; cbn in H.
    + apply Nat.ltb_ge in H. lia.
    + destruct (Js.trim t); [cbn; lia | discriminate].
  - destruct t; [cbn; lia | discriminate].
Qed.

Lemma blank_trimmed (bound : nat) (t : string) :
  blank (Some t) = true -> qualifiesTrimmed bound (Some t) = false.
Proof.
  intros H. apply qualifies_false_trimmed. unfold qualifies, blank in *.
  destruct (Js.truthy t); cbn in *; [| reflexivity].
  destruct (Js.truthy (Js.trim t)); cbn in *; [discriminate | reflexivity].
Qed.

Lemma qualifies_not_blank (bound : nat) (t : string) :
  qualifies bound (Some t) = true ->
  blank (Some t) = false /\ bound < String.length t.
Proof.
  unfold qualifies, blank. intros H.
  destruct (Js.truthy t); cbn in *; [| discriminate].
  destruct (Js.truthy (Js.trim t)); cbn in *; [| discriminate].
  split; [reflexivity |]. apply Nat.ltb_lt. exact H.
Qed.

Lemma queried_app (es es' : list Event) : queried (es ++ es') = queried es ++ queried es'.
Proof. apply flat_map_app. Qed.

Lemma scanned_app (es es' : list Event) : scanned (es ++ es') = scanned es ++ scanned es'.
Proof. apply flat_map_app. Qed.

Lemma textsRead_app (es es' : list Event) :
  textsRead (es ++ es') = textsRead es ++ textsRead es'.
Proof. apply flat_map_app. Qed.

Lemma contents_app (es es' : list Event) :
  contents (es ++ es') = contents es ++ contents es'.
Proof. apply flat_map_app. Qed.

Lemma passedOver_app (bound : nat) (es es' : list Event) :
  passedOver bound es -> passedOver bound es' -> passedOver bound (es ++ es').
Proof.
  unfold passedOver. intros H H'. rewrite textsRead_app. apply Forall_app. auto.
Qed.

Lemma passedOver_nil (bound : nat) : passedOver bound [].
Proof. constructor. Qed.

Lemma acceptedLast_after (bound : nat) (es es' : list Event) (s : string) :
  passedOver bound es -> acceptedLast bound es' s -> acceptedLast bound (es ++ es') s.
Proof.
  intros H [before [e [t [-> [Hr [Hp [Hb [Hl Hs]]]]]]]].
  exists (es ++ before), e, t. rewrite app_assoc.
  repeat split; auto. apply passedOver_app; assumption.
Qed.

Lemma elementsFound_app (es es' : list Event) :
  elementsFound (es ++ es') = elementsFound es ++ elementsFound es'.
Proof. apply flat_map_app. Qed.

Lemma elementsRead_app (es es' : list Event) :
  elementsRead (es ++ es') = elementsRead es ++ elementsRead es'.
Proof. apply flat_map_app. Qed.

Lemma endsRejected_after (es es' : list Event) :
  endsRejected es' -> endsRejected (es ++ es').
Proof.
  intros [before [e [-> H]]]. exists (es ++ before), e.
  split; [apply app_assoc | exact H].
Qed.

Section ExtractorRuns.

Context {W : Type} (B : Browser W).

Lemma readElement_reading (page : Page) (bound : nat) (el : Element) (w : W) :
  let o := readElement B page bound el w in
  reading bound [el] o /\ elementsRead (events o) = [el].
Proof.
  cbv zeta. unfold reading, readElement, textContent, innerText, bind, call, ret.
  assert (Hone : forall t, blank t = true ->
                           passedOver bound [EvTextContent el (Ok t)]).
  { intros [t |] Hb; [| constructor].
    constructor; [apply blank_trimmed; exact Hb | constructor]. }
  assert (Hn : forall l, l = [el] -> exists n, l = firstn n [el])
    by (intros l ->; exists 1; reflexivity).
  destruct (element_textContent W B el w) as [[t | msg] w1];
    cbn -[qualifies blank queried scanned].
  2:{ repeat split; [constructor | | apply Hn; reflexivity].
      exists [], (EvTextContent el (Throw msg)). split; [reflexivity | left; eauto]. }
  destruct (blank t) eqn:Hb; cbn -[qualifies blank queried scanned].
  - destruct (element_innerText W B page el w1) as [[[s |] | msg] w2];
      cbn -[qualifies blank queried scanned].
    + destruct (qualifies bound (Some s)) eqn:Hq;
        cbn -[qualifies blank queried scanned].
      * repeat split; [| apply Hn; reflexivity].
        exists [EvTextContent el (Ok t)], (EvInnerText page el (Ok (Some s))), s.
        destruct (qualifies_not_blank bound s Hq) as [Hnb Hlen].
        repeat split; [right; eauto | apply Hone; exact Hb | exact Hnb | exact Hlen].
      * repeat split.
        apply (passedOver_app bound [_] [_]); [apply Hone; exact Hb |].
        constructor; [apply qualifies_false_trimmed; exact Hq | constructor].
    + repeat split. apply (passedOver_app bound [_] [_]); [apply Hone; exact Hb |].
      constructor.
    + repeat split; [| | apply Hn; reflexivity].
      * apply (passedOver_app bound [_] [_]); [apply Hone; exact Hb |]. constructor.
      * exists [EvTextContent el (Ok t)], (EvInnerText page el (Throw msg)).
        split; [reflexivity | right; eauto].
  - destruct t as [s |]; [| discriminate]. cbn -[qualifies blank queried scanned].
    destruct (qualifies bound (Some s)) eqn:Hq;
      cbn -[qualifies blank queried scanned].
    + repeat split; [| apply Hn; reflexivity].
      exists [], (EvTextContent el (Ok (Some s))), s.
      destruct (qualifies_not_blank bound s Hq) as [_ Hlen].
      repeat split; [left; eauto | constructor | exact Hb | exact Hlen].
    + repeat split.
      constructor; [apply qualifies_false_trimmed; exact Hq | constructor].
Qed.

Lemma selectorLoop_run (page : Page) (bound : nat) (selectors : list string) (w : W) :
  let o := selectorLoop B page bound selectors w in
  exists v,
    value o = Ok v
    /\ scanned (events o) = []
    /\ elementsRead (events o) = elementsFound (events o)
    /\ match v with
       | Some s => acceptedLast bound (events o) s
                   /\ exists k, queried (events o) = firstn k selectors
       | None => passedOver bound (events o) /\ queried (events o) = selectors
       end.
Proof.
  cbv zeta. revert w. induction selectors as [| selector rest IH]; intros w.
  - exists None. repeat split. constructor.
  - cbn [selectorLoop].
    pose proof (readElement_reading page bound) as Hread.
    revert Hread. generalize (readElement B page bound). intros read Hread.
    unfold query, bind, tryCatch, call, ret.
    assert (Hq : forall r, passedOver bound [EvQuery page selector r])
      by (intros; constructor).
    assert (Hnext : forall r es2 w2,
               queried ([EvQuery page selector r] ++ es2) = [selector] ->
               scanned ([EvQuery page selector r] ++ es2) = [] ->
               elementsRead ([EvQuery page selector r] ++ es2)
               = elementsFound ([EvQuery page selector r] ++ es2) ->
               passedOver bound ([EvQuery page selector r] ++ es2) ->
               let o := selectorLoop B page bound rest w2 in
               exists v,
                 Ok (A := option string) v = Ok v
                 /\ value o = Ok v
                 /\ scanned (([EvQuery page selector r] ++ es2) ++ events o) = []
                 /\ elementsRead (([EvQuery page selector r] ++ es2) ++ events o)
                    = elementsFound (([EvQuery page selector r] ++ es2) ++ events o)
                 /\ match v with
                    | Some s =>
                        acceptedLast bound
                          (([EvQuery page selector r] ++ es2) ++ events o) s
                        /\ exists k,
                            queried (([EvQuery page selector r] ++ es2) ++ events o)
                            = firstn k (selector :: rest)
                    | None =>
                        passedOver bound
                          (([EvQuery page selector r] ++ es2) ++ events o)
                        /\ queried (([EvQuery page selector r] ++ es2) ++ events o)
                           = selector :: rest
                    end).
    { intros r es2 w2 Hqu Hsc Hel Hp. cbv zeta.
      destruct (IH w2) as [v [Hv [Hs [He Hm]]]]. exists v.
      rewrite scanned_app, elementsRead_app, elementsFound_app, queried_app,
        Hqu, Hsc, Hel, Hs, He.
      split; [reflexivity |]. split; [exact Hv |]. split; [reflexivity |].
      split; [reflexivity |]. destruct v as [s |].
      - destruct Hm as [Ha [k Hk]]. split.
        + apply acceptedLast_after; assumption.
        + exists (S k). rewrite Hk. reflexivity.
      - destruct Hm as [Hp' Hk]. split.
        + apply passedOver_app; assumption.
        + rewrite Hk. reflexivity. }
    destruct (page_query W B page selector w) as [[[el |] | msg] w1];
      cbv beta iota delta [events value final].
    + destruct (Hread el w1) as [Hrd Hels]. unfold reading in Hrd.
      destruct (read el w1) as [[[s |] | msg] w2 es2];
        cbv beta iota delta [events value final] in Hrd, Hels |- *;
        destruct Hrd as [Hqu [Hsc [Hfo Hrd]]].
      * exists (Some s). rewrite ?app_nil_r.
        change (EvQuery page selector (Ok (Some el)) :: es2)
          with ([EvQuery page selector (Ok (Some el))] ++ es2).
        rewrite scanned_app, elementsRead_app, elementsFound_app, queried_app,
          Hsc, Hels, Hfo, Hqu.
        split; [reflexivity |]. split; [reflexivity |]. split; [reflexivity |].
        split; [| exists 1; reflexivity].
        apply acceptedLast_after; [apply Hq | apply Hrd].
      * destruct (Hnext (Ok (Some el)) es2 w2) as [v [_ H]].
        -- rewrite queried_app, Hqu. reflexivity.
        -- rewrite scanned_app, Hsc. reflexivity.
        -- rewrite elementsRead_app, elementsFound_app, Hels, Hfo. reflexivity.
        -- apply passedOver_app; [apply Hq | apply Hrd].
        -- destruct (selectorLoop B page bound rest w2) as [v3 w3 es3].
           cbv beta iota delta [events value final] in H |- *.
           destruct H as [-> H]. exists v. split; [reflexivity | exact H].
      * destruct (Hnext (Ok (Some el)) es2 w2) as [v [_ H]].
        -- rewrite queried_app, Hqu. reflexivity.
        -- rewrite scanned_app, Hsc. reflexivity.
        -- rewrite elementsRead_app, elementsFound_app, Hels, Hfo. reflexivity.
        -- apply passedOver_app; [apply Hq | apply Hrd].
        -- destruct (selectorLoop B page bound rest w2) as [v3 w3 es3].
           cbv beta iota delta [events value final] in H |- *.
           destruct H as [-> H]. exists v. rewrite app_nil_r.
           split; [reflexivity | exact H].
    + destruct (Hnext (Ok None) [] w1) as [v [_ H]];
        [reflexivity | reflexivity | reflexivity | apply Hq |].
      destruct (selectorLoop B page bound rest w1) as [v3 w3 es3].
      cbv beta iota delta [events value final] in H |- *.
      destruct H as [-> H]. exists v. split; [reflexivity | exact H].
    + destruct (Hnext (Throw msg) [] w1) as [v [_ H]];
        [reflexivity | reflexivity | reflexivity | apply Hq |].
      destruct (selectorLoop B page bound rest w1) as [v3 w3 es3].
      cbv beta iota delta [events value final] in H |- *.
      destruct H as [-> H]. exists v. split; [reflexivity | exact H].
Qed.

Lemma elementLoop_reading (page : Page) (bound : nat) (els : list Element) (w : W) :
  reading bound els (elementLoop B page bound els w).
Proof.
  revert w. induction els as [| el rest IH]; intros w.
  - repeat split. constructor.
  - cbn [elementLoop]. destruct (readElement_reading page bound el w) as [Hread Hel].
    unfold reading in Hread |- *. unfold bind, ret.
    destruct (readElement B page bound el w) as [[[s |] | msg] w1 es1];
      cbv beta iota delta [events value final] in Hread, Hel |- *;
      destruct Hread as [Hqu [Hsc [Hfo Hrd]]].
    + rewrite app_nil_r. repeat split; try assumption; [apply Hrd |].
      exists 1. rewrite Hel. reflexivity.
    + specialize (IH w1). unfold reading in IH.
      destruct (elementLoop B page bound rest w1) as [v2 w2 es2].
      cbv beta iota delta [events value final] in IH |- *.
      destruct IH as [Hqu2 [Hsc2 [Hfo2 Hrd2]]].
      rewrite queried_app, scanned_app, elementsFound_app, elementsRead_app,
        Hqu, Hsc, Hfo, Hel, Hqu2, Hsc2, Hfo2.
      split; [reflexivity |]. split; [reflexivity |]. split; [reflexivity |].
      destruct Hrd as [Hp _].
      destruct v2 as [[s |] | msg].
      * destruct Hrd2 as [Ha [n Hn]]. split.
        -- apply acceptedLast_after; assumption.
        -- exists (S n). rewrite Hn. reflexivity.
      * destruct Hrd2 as [Hp2 Hn]. split.
        -- apply passedOver_app; assumption.
        -- rewrite Hn. reflexivity.
      * destruct Hrd2 as [Hp2 [Hend [n Hn]]]. split; [| split].
        -- apply passedOver_app; assumption.
        -- apply endsRejected_after. exact Hend.
        -- exists (S n). rewrite Hn. reflexivity.
    + destruct Hrd as [Hp [Hend _]]. repeat split; try assumption.
      exists 1. rewrite Hel. reflexivity.
Qed.

Lemma extractWith_run (selectors : list string) (bound : nat)
  (scanSelector unknown : string) (page : Page) (w : W) :
  fallbackRun selectors bound scanSelector unknown
    (extractWith B selectors bound scanSelector unknown page w).
Proof.
  unfold fallbackRun, extractWith.
  destruct (selectorLoop_run page bound selectors w) as [v [Hv [Hs [He Hm]]]].
  pose proof (elementLoop_reading page bound) as Hels.
  revert Hels. generalize (elementLoop B page bound). intros scan Hels.
  unfold tryCatch, bind, ret, queryAll, call.
  destruct (selectorLoop B page bound selectors w) as [v1 w1 es1].
  cbv beta iota delta [events value final] in Hv, Hs, He, Hm |- *.
  subst v1. destruct v as [s |]; cbv beta iota delta [events value final].
  - destruct Hm as [Ha Hk]. exists s. rewrite app_nil_r.
    split; [reflexivity |]. split; [exact Hk |]. split; [left; exact Hs |].
    split; [| left; exact Ha].
    exists (length (elementsFound es1)). rewrite He. symmetry. apply firstn_all.
  - destruct Hm as [Hp Hk].
    assert (Hq : forall r, passedOver bound [EvQueryAll page scanSelector r])
      by (intros; constructor).
    assert (Hall : exists k, selectors = firstn k selectors)
      by (exists (length selectors); symmetry; apply firstn_all).
    destruct (page_queryAll W B page scanSelector w1) as [[els | msg] w2];
      cbv beta iota delta [events value final].
    + specialize (Hels els w2). unfold reading in Hels.
      destruct (scan els w2) as [v3 w3 es3].
      cbv beta iota delta [events value final] in Hels |- *.
      destruct Hels as [Hqu3 [Hsc3 [Hfo3 Hrd3]]].
      set (es := es1 ++ [EvQueryAll page scanSelector (Ok els)] ++ es3).
      assert (Hquery : queried es = selectors)
        by (unfold es; rewrite !queried_app, Hk, Hqu3; apply app_nil_r).
      assert (Hscan : scanned es = [scanSelector])
        by (unfold es; rewrite !scanned_app, Hs, Hsc3; reflexivity).
      assert (Hfound : elementsFound es = elementsFound es1 ++ els).
      { unfold es. rewrite !elementsFound_app, Hfo3.
        change (elementsFound [EvQueryAll page scanSelector (Ok els)])
          with (els ++ []). rewrite !app_nil_r. reflexivity. }
      assert (Hreads : elementsRead es = elementsFound es1 ++ elementsRead es3).
      { unfold es. rewrite !elementsRead_app, He. reflexivity. }
      assert (Hpart : forall n, elementsRead es3 = firstn n els ->
                                exists n', elementsRead es = firstn n' (elementsFound es)).
      { intros n Hn. exists (length (elementsFound es1) + n).
        rewrite Hreads, Hfound, Hn, firstn_app_2. reflexivity. }
      assert (Hpass : passedOver bound (es1 ++ [EvQueryAll page scanSelector (Ok els)])).
      { apply passedOver_app; [exact Hp | apply Hq]. }
      destruct v3 as [[s |] | msg]; cbv beta iota delta [events value final].
      * exists s. rewrite ?app_nil_r.
        change (es1 ++ [EvQueryAll page scanSelector (Ok els)] ++ es3) with es.
        rewrite Hquery, Hscan.
        destruct Hrd3 as [Ha [n Hn]].
        split; [reflexivity |]. split; [exact Hall |]. split; [right; auto |].
        split; [apply (Hpart n Hn) |]. left.
        unfold es. rewrite app_assoc. apply acceptedLast_after; assumption.
      * exists unknown. rewrite ?app_nil_r.
        change (es1 ++ [EvQueryAll page scanSelector (Ok els)] ++ es3) with es.
        rewrite Hquery, Hscan.
        destruct Hrd3 as [Hp3 Hn].
        split; [reflexivity |]. split; [exact Hall |]. split; [right; auto |].
        split; [apply (Hpart (length els)); rewrite firstn_all; exact Hn |].
        right. split; [reflexivity |]. split; [| split; [reflexivity |]].
        -- unfold es. rewrite app_assoc. apply passedOver_app; assumption.
        -- left. rewrite Hreads, Hfound, Hn. reflexivity.
      * exists unknown. rewrite ?app_nil_r.
        change (es1 ++ [EvQueryAll page scanSelector (Ok els)] ++ es3) with es.
        rewrite Hquery, Hscan.
        destruct Hrd3 as [Hp3 [Hend [n Hn]]].
        split; [reflexivity |]. split; [exact Hall |]. split; [right; auto |].
        split; [apply (Hpart n Hn) |].
        right. split; [reflexivity |]. split; [| split; [reflexivity |]].
        -- unfold es. rewrite app_assoc. apply passedOver_app; assumption.
        -- right. unfold es. rewrite app_assoc. apply endsRejected_after. exact Hend.
    + exists unknown. rewrite ?app_nil_r.
      rewrite queried_app, scanned_app, elementsRead_app, elementsFound_app, Hk, Hs, He.
      change (queried [EvQueryAll page scanSelector (Throw msg)]) with (@nil string).
      change (elementsRead [EvQueryAll page scanSelector (Throw msg)])
        with (@nil Element).
      change (elementsFound [EvQueryAll page scanSelector (Throw msg)])
        with (@nil Element).
      rewrite !app_nil_r.
      split; [reflexivity |]. split; [exact Hall |].
      split; [right; split; reflexivity |].
      split; [exists (length (elementsFound es1)); symmetry; apply firstn_all |].
      right. split; [reflexivity |]. split; [| split; [reflexivity | left; reflexivity]].
      apply passedOver_app; [exact Hp | apply Hq].
Qed.

(** The inner loop of the description extractor never raises, asks no
    selector, reads the elements in order up to a rejected read, and returns
    what the texts it read add to what it had. *)
Lemma descriptionElements_run (els : list Element) (acc : string) (w : W) :
  let o := descriptionElements B els acc w in
  value o = Ok (fold_left addDescription (contents (events o)) acc)
  /\ scanned (events o) = []
  /\ forall tail, readsOf els (events o ++ tail) = Some tail.
Proof.
  cbv zeta. revert acc w. induction els as [| el rest IH]; intros acc w.
  - repeat split.
  - cbn [descriptionElements]. unfold tryCatch, bind, textContent, call, ret.
    destruct (element_textContent W B el w) as [[t | msg] w1];
      cbv beta iota delta [events value final].
    + specialize (IH (addDescription acc t) w1).
      destruct (descriptionElements B rest (addDescription acc t) w1) as [v2 w2 es2].
      cbv beta iota delta [events value final] in IH |- *.
      destruct IH as [Hv [Hs Hr]]. subst v2.
      rewrite contents_app, scanned_app, Hs. split; [reflexivity |].
      split; [reflexivity |]. intros tail. cbn [app readsOf].
      rewrite Nat.eqb_refl. apply Hr.
    + repeat split. intros tail. cbn [app readsOf]. rewrite Nat.eqb_refl. reflexivity.
Qed.

Lemma descriptionLoop_run (page : Page) (selectors : list string) (acc : string) (w : W) :
  let o := descriptionLoop B page selectors acc w in
  value o = Ok (fold_left addDescription (contents (events o)) acc)
  /\ scanned (events o) = selectors
  /\ forall tail, scansOf page selectors (events o ++ tail) = Some tail.
Proof.
  cbv zeta. revert acc w. induction selectors as [| selector rest IH]; intros acc w.
  - repeat split.
  - cbn [descriptionLoop]. unfold tryCatch, bind, queryAll, call, ret.
    destruct (page_queryAll W B page selector w) as [[els | msg] w1];
      cbv beta iota delta [events value final].
    + destruct (descriptionElements_run els acc w1) as [Hv [Hs Hr]].
      destruct (descriptionElements B els acc w1) as [v2 w2 es2].
      cbv beta iota delta [events value final] in Hv, Hs, Hr |- *. subst v2.
      destruct (IH (fold_left addDescription (contents es2) acc) w2) as [Hv3 [Hs3 Hr3]].
      destruct (descriptionLoop B page rest (fold_left addDescription (contents es2) acc) w2)
        as [v3 w3 es3].
      cbv beta iota delta [events value final] in Hv3, Hs3, Hr3 |- *. subst v3.
      change (EvQueryAll page selector (Ok els) :: es2)
        with ([EvQueryAll page selector (Ok els)] ++ es2).
      rewrite !contents_app, !scanned_app, Hs, Hs3, fold_left_app.
      split; [reflexivity |]. split; [reflexivity |]. intros tail.
      cbn [app scansOf]. rewrite Nat.eqb_refl, String.eqb_refl. cbn [andb].
      rewrite <- app_assoc, Hr. apply Hr3.
    + destruct (IH acc w1) as [Hv3 [Hs3 Hr3]].
      destruct (descriptionLoop B page rest acc w1) as [v3 w3 es3].
      cbv beta iota delta [events value final] in Hv3, Hs3, Hr3 |- *. subst v3.
      change ([EvQueryAll page selector (Throw msg)] ++ [])
        with [EvQueryAll page selector (Throw msg)].
      rewrite !contents_app, !scanned_app, Hs3.
      split; [reflexivity |]. split; [reflexivity |]. intros tail.
      cbn [app scansOf]. rewrite Nat.eqb_refl, String.eqb_refl. cbn [andb].
      apply Hr3.
Qed.

Lemma extractJobDescription_run (page : Page) (w : W) :
  gatheringRun page (extractJobDescription B page w).
Proof.
  unfold gatheringRun, gathered, extractJobDescription.
  destruct (descriptionLoop_run page descriptionSelectors EmptyString w)
    as [Hv [Hs Hr]].
  revert Hv Hs Hr. generalize descriptionSelectors. intros selectors.
  unfold tryCatch, bind, visibleText, call, ret.
  destruct (descriptionLoop B page selectors EmptyString w) as [v1 w1 es1].
  cbv beta iota delta [events value final]. intros -> Hs Hr.
  set (text := fold_left addDescription (contents es1) EmptyString).
  cbv beta iota zeta.
  destruct (String.length (clean text) <? 200) eqn:Hshort.
  - assert (Hno : 200 <= String.length (clean text) -> False)
      by (apply Nat.ltb_lt in Hshort; lia).
    destruct (page_visibleText W B page w1) as [[allVisibleText | msg] w2];
      cbv beta iota delta [events value final].
    + match goal with
      | |- context [String.length ?t <? 200] =>
          destruct (String.length t <? 200) eqn:Hb; [exists EmptyString | exists t]
      end; cbv beta iota delta [events value final];
        change (es1 ++ [EvVisibleText page (Ok allVisibleText)] ++ [])
          with (es1 ++ [EvVisibleText page (Ok allVisibleText)]);
        rewrite contents_app, scanned_app, Hs, Hr, !app_nil_r;
        fold text; (split; [reflexivity |]); (split; [reflexivity |]);
        (split; [eexists; split; [reflexivity | right; eexists; reflexivity] |]);
        (split; [intros H; destruct (Hno H) |]).
      * now left.
      * right. apply Nat.ltb_ge in Hb. exact Hb.
    + exists EmptyString.
      rewrite (app_nil_r (es1 ++ [EvVisibleText page (Throw msg)])).
      rewrite contents_app, scanned_app, Hs, Hr, !app_nil_r.
      fold text. split; [reflexivity |]. split; [reflexivity |].
      split; [eexists; split; [reflexivity | right; eexists; reflexivity] |].
      split; [intros H; destruct (Hno H) | now left].
  - exists (clean text). cbv beta iota delta [events value final].
    rewrite !app_nil_r. fold text. apply Nat.ltb_ge in Hshort.
    split; [reflexivity |]. split; [exact Hs |].
    split; [exists []; split; [rewrite <- (app_nil_r es1); apply Hr | left; reflexivity] |].
    split; [reflexivity | right; exact Hshort].
Qed.

End ExtractorRuns.



(** The title of a page whose eighth selector finds the heading. *)
Example extractJobTitle_stops_at_heading :
  let o := extractJobTitleFromDetailPage (Worlds.siteBrowser Worlds.qaJobSite) 7 0 in
  value o = Ok "Senior QA Engineer"
  /\ queried (events o) = firstn 8 titleSelectors
  /\ scanned (events o) = []
  /\ textsRead (events o) = ["Senior QA Engineer"].
Proof. repeat split. Qed.

(** * processJob *)

Section JobEvents.

Context {W : Type} (B : Browser W).

Lemma readElement_reads (page : Page) (bound : nat) (el : Element) :
  emits isRead (readElement B page bound el).
Proof. unfold readElement. emits_auto. Qed.

Lemma selectorLoop_reads (page : Page) (bound : nat) (selectors : list string) :
  emits isRead (selectorLoop B page bound selectors).
Proof.
  induction selectors as [| selector rest IH]; cbn [selectorLoop].
  - emits_auto.
  - pose proof (readElement_reads page bound) as Hr. emits_auto.
Qed.

Lemma elementLoop_reads (page : Page) (bound : nat) (els : list Element) :
  emits isRead (elementLoop B page bound els).
Proof.
  induction els as [| el rest IH]; cbn [elementLoop].
  - emits_auto.
  - pose proof (readElement_reads page bound) as Hr. emits_auto.
Qed.

Lemma extractWith_reads (selectors : list string) (bound : nat)
  (scanSelector unknown : string) (page : Page) :
  emits isRead (extractWith B selectors bound scanSelector unknown page).
Proof.
  unfold extractWith.
  pose proof (selectorLoop_reads page bound selectors) as Hs.
  pose proof (elementLoop_reads page bound) as He.
  emits_auto.
Qed.

Lemma descriptionElements_reads (els : list Element) (acc : string) :
  emits isRead (descriptionElements B els acc).
Proof.
  revert acc. induction els as [| el rest IH]; intros acc; cbn [descriptionElements];
    emits_auto.
Qed.

Lemma descriptionLoop_reads (page : Page) (selectors : list string) (acc : string) :
  emits isRead (descriptionLoop B page selectors acc).
Proof.
  revert acc. induction selectors as [| selector rest IH]; intros acc;
    cbn [descriptionLoop].
  - emits_auto.
  - pose proof descriptionElements_reads as Hd. emits_auto.
Qed.

Lemma extractJobDescription_reads (page : Page) :
  emits isRead (extractJobDescription B page).
Proof.
  unfold extractJobDescription.
  pose proof (descriptionLoop_reads page descriptionSelectors EmptyString) as Hd.
  emits_auto.
Qed.

Lemma checkJobMatchWithLLM_scoring (cvKeywords : list string) (jobDescription : string) :
  emits isScoring (checkJobMatchWithLLM B cvKeywords jobDescription).
Proof. unfold checkJobMatchWithLLM. emits_auto. Qed.

End JobEvents.

Section Deciding.

Context {W : Type} (B : Browser W).

Lemma alreadyAppliedLoop_applies (page : Page) (selectors : list string) :
  emits (isApply page) (alreadyAppliedLoop B page selectors).
Proof.
  induction selectors as [| selector rest IH]; cbn [alreadyAppliedLoop]; emits_auto.
Qed.

Lemma applyLoop_applies (page : Page) (selectors : list string) (acc : bool) :
  emits (isApply page) (applyLoop B page selectors acc).
Proof.
  revert acc. induction selectors as [| selector rest IH]; intros acc;
    cbn [applyLoop]; unfold applyStep; emits_auto.
Qed.

Lemma clickFirstLoop_applies (page : Page) (selectors : list string) (pause : N) :
  emits (isApply page) (clickFirstLoop B page selectors pause).
Proof.
  induction selectors as [| selector rest IH]; cbn [clickFirstLoop]; emits_auto.
Qed.

Lemma confirmationLoop_applies (page : Page) (selectors : list string) :
  emits (isApply page) (confirmationLoop B page selectors).
Proof.
  induction selectors as [| selector rest IH]; cbn [confirmationLoop]; emits_auto.
Qed.

Lemma applyToJob_applies (page : Page) :
  emits (isApply page) (applyToJob B page).
Proof.
  unfold applyToJob.
  pose proof (alreadyAppliedLoop_applies page alreadyAppliedSelectors).
  pose proof (applyLoop_applies page applySelectors false).
  pose proof (clickFirstLoop_applies page nextSelectors 3000).
  pose proof (clickFirstLoop_applies page submitSelectors 4000).
  pose proof (confirmationLoop_applies page confirmationSelectors).
  emits_auto. reflexivity.
Qed.

Lemma applyToJob_total (page : Page) : total (applyToJob B page).
Proof. unfold applyToJob. total_auto. Qed.

(** The first call of applyToJob is its entry. *)
Lemma applyToJob_enters (page : Page) (w : W) :
  exists es, events (applyToJob B page w) = EvEnter (FnApplyToJob page) :: es.
Proof.
  unfold applyToJob, bind, emit.
  match goal with
  | |- context [tryCatch ?m ?h w] => destruct (tryCatch m h w) as [v w1 es1]
  end.
  exists es1. reflexivity.
Qed.

Lemma processJob_apply_total (tab : Page) (title company : string)
  (pageUrl : option string) (jobDescription : string) (isInitialMatch : Criteria)
  (llmMatchResult : option LlmMatch) :
  total (processJob_apply B tab title company pageUrl jobDescription isInitialMatch
                          llmMatchResult).
Proof.
  unfold processJob_apply. pose proof (applyToJob_total tab). total_auto.
Qed.

Lemma processJob_decide_total (cvKeywords : list string) (tab : Page)
  (title company : string) (pageUrl : option string) (jobDescription : string) :
  total (processJob_decide B cvKeywords tab title company pageUrl jobDescription).
Proof.
  unfold processJob_decide.
  pose proof (checkJobMatchWithLLM_total B cvKeywords jobDescription).
  pose proof (processJob_apply_total tab title company pageUrl jobDescription).
  total_auto.
Qed.

(** A title that contains a search term meets the search criteria. *)
Lemma matchesSearchCriteria_term (title term : string) :
  In term SEARCH_ITEMS ->
  Js.includes (Js.toLowerCase title) (Js.toLowerCase term) = true ->
  matches (matchesSearchCriteria title) = true.
Proof.
  intros Hin Hinc. unfold matchesSearchCriteria.
  destruct title as [| c title].
  - exfalso. cbn in Hin.
    repeat (destruct Hin as [Hin | Hin]; [subst term; discriminate Hinc |]).
    exact Hin.
  - cbn [Js.truthy negb matches].
    set (keep := fun searchItem =>
                   Js.includes (Js.toLowerCase (String c title))
                               (Js.toLowerCase searchItem)).
    assert (Hf : In term (filter keep SEARCH_ITEMS)).
    { apply filter_In. split; [exact Hin | exact Hinc]. }
    destruct (filter keep SEARCH_ITEMS) as [| x xs]; [destruct Hf | reflexivity].
Qed.

(** The scorer reports exactly one verdict, the one it returns. *)
Lemma checkJobMatchWithLLM_verdict (cvKeywords : list string)
  (jobDescription : string) (w : W) :
  exists m,
    value (checkJobMatchWithLLM B cvKeywords jobDescription w) = Ok m
    /\ In (EvVerdict m) (events (checkJobMatchWithLLM B cvKeywords jobDescription w))
    /\ forall m', In (EvVerdict m')
                     (events (checkJobMatchWithLLM B cvKeywords jobDescription w)) ->
                  m' = m.
Proof.
  destruct (checkJobMatchWithLLM_run B cvKeywords jobDescription w)
    as [[_ [Hv Hev]] | [[r [w' [_ [Hv Hev]]]] | [msg [w' [_ [Hv Hev]]]]]];
    cbv zeta in *; rewrite Hv, Hev; eexists; (split; [reflexivity |]);
    (split; [cbn; auto |]);
    intros m' Hin; cbn in Hin;
    repeat (destruct Hin as [Hin | Hin]; try discriminate; try contradiction);
    injection Hin as <-; reflexivity.
Qed.

Lemma processJob_apply_applying (tab : Page) (title company : string)
  (pageUrl : option string) (jobDescription : string) (isInitialMatch : Criteria)
  (llmMatchResult : option LlmMatch) :
  emits (isApplying tab)
        (processJob_apply B tab title company pageUrl jobDescription isInitialMatch
                          llmMatchResult).
Proof.
  unfold processJob_apply.
  assert (Ha : emits (isApplying tab) (applyToJob B tab)).
  { eapply emits_weaken; [| apply applyToJob_applies]. intros e H. now left. }
  emits_auto; right; eauto 10.
Qed.

(** When something speaks for the job, the applying step enters
    applyToJob. *)
Lemma processJob_apply_enters (tab : Page) (title company : string)
  (pageUrl : option string) (jobDescription : string) (isInitialMatch : Criteria)
  (llmMatchResult : option LlmMatch) (w : W) :
  isAcceptance llmMatchResult
  || (negb (Js.truthy jobDescription) && matches isInitialMatch)
  || matches isInitialMatch = true ->
  In (EvEnter (FnApplyToJob tab))
     (events (processJob_apply B tab title company pageUrl jobDescription
                               isInitialMatch llmMatchResult w)).
Proof.
  intros Hc. unfold processJob_apply. rewrite Hc. unfold bind.
  destruct (applyToJob_enters tab w) as [es Hes].
  destruct (applyToJob B tab w) as [[ar | msg] w1 es1]; cbn in Hes; subst es1.
  - match goal with
    | |- context [match ?m w1 with _ => _ end] => destruct (m w1)
    end.
    cbn. now left.
  - cbn. now left.
Qed.

Lemma isApplying_not_scoring (tab : Page) (e : Event) :
  isApplying tab e -> isScoring e -> False.
Proof.
  intros [Ha | [t [c [s [l [u ->]]]]]] Hs; [| exact Hs].
  destruct e; try contradiction. destruct f; contradiction.
Qed.

(** The deciding step on a verdict of the scorer that rejects the job. *)
Lemma processJob_decide_rejected (cvKeywords : list string) (tab : Page)
  (title company : string) (pageUrl : option string) (jobDescription : string)
  (w : W) (m : LlmMatch) :
  let o := processJob_decide B cvKeywords tab title company pageUrl jobDescription w in
  In (EvVerdict m) (events o) ->
  isRejection m = true ->
  value o = Ok (mkJob false (Some ("LLM " +++ verdictName (match_ m)))
                      (Some true) None (Some m))
  /\ In (EvLogJob title company
                  ("Skipped (LLM " +++ verdictName (match_ m) +++ ")")
                  (Some m) pageUrl) (events o)
  /\ (forall p, ~ In (EvEnter (FnApplyToJob p)) (events o)).
Proof.
  cbv zeta. unfold processJob_decide.
  destruct (negb (matches (matchesSearchCriteria title)) && Js.truthy jobDescription)
    eqn:Hllm.
  - unfold bind.
    destruct (checkJobMatchWithLLM_verdict cvKeywords jobDescription w)
      as [m0 [Hv [Hin0 Huniq]]].
    pose proof (checkJobMatchWithLLM_scoring B cvKeywords jobDescription w) as Hsc.
    destruct (checkJobMatchWithLLM B cvKeywords jobDescription w) as [v w1 es1].
    cbn in Hv, Hin0, Huniq, Hsc. subst v.
    destruct (isRejection m0) eqn:Hrej.
    + unfold logJob, emit, ret. cbn. intros Hin _.
      assert (m = m0) as ->.
      { apply in_app_or in Hin. destruct Hin as [Hin | Hin]; [auto |].
        cbn in Hin. destruct Hin as [Hin | []]. discriminate. }
      split; [reflexivity |]. split.
      * apply in_or_app. right. now left.
      * intros p Hin'. apply in_app_or in Hin'. destruct Hin' as [Hin' | Hin'].
        -- rewrite Forall_forall in Hsc. exact (Hsc _ Hin').
        -- cbn in Hin'. destruct Hin' as [Hin' | []]. discriminate.
    + pose proof (processJob_apply_applying tab title company pageUrl jobDescription
                    (matchesSearchCriteria title) (Some m0) w1) as Hap.
      destruct (processJob_apply B tab title company pageUrl jobDescription
                                 (matchesSearchCriteria title) (Some m0) w1)
        as [v2 w2 es2].
      cbn in Hap |- *. intros Hin Hr. exfalso.
      apply in_app_or in Hin. destruct Hin as [Hin | Hin].
      * rewrite (Huniq _ Hin) in Hr. congruence.
      * rewrite Forall_forall in Hap.
        exact (isApplying_not_scoring tab _ (Hap _ Hin) I).
  - intros Hin _. exfalso.
    destruct (negb (Js.truthy jobDescription)
              && negb (matches (matchesSearchCriteria title))).
    + unfold bind, logJob, emit, ret in Hin. cbn in Hin.
      destruct Hin as [Hin | []]. discriminate.
    + pose proof (processJob_apply_applying tab title company pageUrl jobDescription
                    (matchesSearchCriteria title) None w) as Hap.
      rewrite Forall_forall in Hap.
      exact (isApplying_not_scoring tab _ (Hap _ Hin) I).
Qed.

End Deciding.

Section KeywordMatch.

Context {W : Type} (B : Browser W).

(** The applying step, once something speaks for the job: the run of
    applyToJob from the same world, then one row of the log. *)
Lemma processJob_apply_runs_applyToJob (tab : Page) (title company : string)
  (pageUrl : option string) (jobDescription : string) (isInitialMatch : Criteria)
  (llmMatchResult : option LlmMatch) (w : W) :
  isAcceptance llmMatchResult
  || (negb (Js.truthy jobDescription) && matches isInitialMatch)
  || matches isInitialMatch = true ->
  let o := processJob_apply B tab title company pageUrl jobDescription isInitialMatch
                            llmMatchResult w in
  let a := applyToJob B tab w in
  exists r,
    value a = Ok r
    /\ events o = events a ++ [EvLogJob title company (applyStatus r) llmMatchResult
                                        pageUrl]
    /\ final o = final a
    /\ value o = Ok (applyOutcome r llmMatchResult).
Proof.
  intros Hc. cbv zeta. unfold processJob_apply. rewrite Hc. unfold bind.
  destruct (applyToJob_total B tab w) as [r Hr].
  destruct (applyToJob B tab w) as [v w1 es1]. cbn in Hr. subst v.
  exists r. unfold applyStatus, applyOutcome, logJob, emit, ret.
  destruct (a_success r); cbn; repeat split; reflexivity.
Qed.

(** C4. For every title that contains one of the fixed search terms, in
    any case of letters, the deciding step of processJob is the applying
    step: it runs applyToJob on the tab from the world it was entered in,
    logs one row with the status of what applyToJob answered, and returns
    the result derived from that answer; it makes no call of the scorer: it
    neither enters checkJobMatchWithLLM, nor asks the language model, nor
    reports a verdict. *)
Theorem processJob_decide_keyword_match (cvKeywords : list string) (tab : Page)
  (title company : string) (pageUrl : option string) (jobDescription : string)
  (w : W) :
  (exists term, In term SEARCH_ITEMS
                /\ Js.includes (Js.toLowerCase title) (Js.toLowerCase term) = true) ->
  let o := processJob_decide B cvKeywords tab title company pageUrl jobDescription w in
  let a := applyToJob B tab w in
  (exists r,
      value a = Ok r
      /\ events o = events a ++ [EvLogJob title company (applyStatus r) None pageUrl]
      /\ final o = final a
      /\ value o = Ok (applyOutcome r None))
  /\ In (EvEnter (FnApplyToJob tab)) (events o)
  /\ ~ In (EvEnter FnCheckJobMatchWithLLM) (events o)
  /\ (forall k d r, ~ In (EvGroq k d r) (events o))
  /\ (forall m, ~ In (EvVerdict m) (events o)).
Proof.
  intros [term [Hin Hinc]]. cbv zeta.
  pose proof (matchesSearchCriteria_term title term Hin Hinc) as Hm.
  unfold processJob_decide. rewrite Hm. cbn [negb andb].
  rewrite andb_false_r.
  assert (Hc : isAcceptance None
               || (negb (Js.truthy jobDescription)
                   && matches (matchesSearchCriteria title))
               || matches (matchesSearchCriteria title) = true).
  { rewrite Hm. apply orb_true_r. }
  pose proof (processJob_apply_applying B tab title company pageUrl jobDescription
                (matchesSearchCriteria title) None w) as Hev.
  rewrite Forall_forall in Hev.
  split; [| split; [| split; [| split]]].
  - exact (processJob_apply_runs_applyToJob tab title company pageUrl jobDescription
             (matchesSearchCriteria title) None w Hc).
  - apply processJob_apply_enters. exact Hc.
  - intros H. exact (isApplying_not_scoring tab _ (Hev _ H) I).
  - intros k d r H. exact (isApplying_not_scoring tab _ (Hev _ H) I).
  - intros m H. exact (isApplying_not_scoring tab _ (Hev _ H) I).
Qed.

End KeywordMatch.

Section WholeJob.

Context {W : Type} (B : Browser W).

(** Once the tab is there: the variable [newTab] is not assigned again, and
    the run either raises while it waits for the page, or reads the page and
    ends with the deciding step. *)
Lemma processJob_onTab_cases (cvKeywords : list string) (tab : Page)
  (l : Locals) (w : W) :
  let o := processJob_onTab B cvKeywords tab (l, w) in
  newTab (fst (final o)) = newTab l
  /\ ((exists msg, value o = Throw msg /\ Forall isQuiet (events o))
      \/ exists pre t c pageUrl jobDescription w1,
           Forall isQuiet pre
           /\ value o = value (processJob_decide B cvKeywords tab t c (Some pageUrl)
                                                 jobDescription w1)
           /\ events o = pre ++ events (processJob_decide B cvKeywords tab t c
                                          (Some pageUrl) jobDescription w1)
           /\ snd (final o) = final (processJob_decide B cvKeywords tab t c
                                       (Some pageUrl) jobDescription w1)).
Proof.
  cbv zeta. unfold processJob_onTab.
  pose proof (extractWith_total B titleSelectors 3 "h1" "Unknown Job Title" tab
              : total (extractJobTitleFromDetailPage B tab)) as Htt.
  pose proof (extractWith_reads B titleSelectors 3 "h1" "Unknown Job Title" tab
              : emits isRead (extractJobTitleFromDetailPage B tab)) as Htr.
  pose proof (extractWith_total B companySelectors 2 companyLikeSelector
                                "Unknown Company" tab
              : total (extractCompanyName B tab)) as Hct.
  pose proof (extractWith_reads B companySelectors 2 companyLikeSelector
                                "Unknown Company" tab
              : emits isRead (extractCompanyName B tab)) as Hcr.
  pose proof (extractJobDescription_total B tab) as Hdt.
  pose proof (extractJobDescription_reads B tab) as Hdr.
  revert Htt Htr Hct Hcr Hdt Hdr.
  generalize (extractJobTitleFromDetailPage B tab) (extractCompanyName B tab)
    (extractJobDescription B tab) (processJob_decide B cvKeywords tab).
  intros exTitle exCompany exDescription decide Htt Htr Hct Hcr Hdt Hdr.
  unfold bind, lift, waitForLoadState, waitForTimeout, url, gets, call,
    setCurrentJobPageUrl, setJobTitle, setCompanyName, modify, ret.
  cbn.
  destruct (page_waitForLoadState W B tab w) as [[[] | msg] w1]; cbn.
  2:{ split; [reflexivity |]. left. exists msg. split; [reflexivity |].
      repeat constructor. }
  destruct (page_waitForTimeout W B tab 2000 w1) as [[[] | msg] w2]; cbn.
  2:{ split; [reflexivity |]. left. exists msg. split; [reflexivity |].
      repeat constructor. }
  destruct (Htt w2) as [t Ht]. specialize (Htr w2).
  destruct (exTitle w2) as [vt w3 est]. cbn in Ht, Htr. subst vt. cbn.
  destruct (Hct w3) as [c Hc]. specialize (Hcr w3).
  destruct (exCompany w3) as [vc w4 esc]. cbn in Hc, Hcr. subst vc. cbn.
  destruct (Hdt w4) as [d Hd]. specialize (Hdr w4).
  destruct (exDescription w4) as [vd w5 esd]. cbn in Hd, Hdr. subst vd. cbn.
  destruct (decide t c (Some (page_url W B tab w2)) d w5) as [v w6 es6] eqn:Hdec.
  cbn. split; [reflexivity |]. right.
  exists (EvWaitForLoadState tab (Ok tt) :: EvWaitForTimeout tab 2000 (Ok tt)
          :: est ++ esc ++ esd), t, c, (page_url W B tab w2), d, w5.
  rewrite Hdec. cbn. split; [| split; [| split]]; try reflexivity.
  - constructor; [exact I |]. constructor; [exact I |].
    assert (Hq : forall es, Forall isRead es -> Forall isQuiet es).
    { intros es H. eapply Forall_impl; [| exact H].
      intros e He. destruct e; try contradiction; exact I. }
    repeat (apply Forall_app; split); auto.
  - rewrite ?app_nil_r, <- ?app_assoc. reflexivity.
Qed.

Lemma processJob_decide_events (cvKeywords : list string) (tab : Page)
  (title company : string) (pageUrl : option string) (jobDescription : string) :
  emits (fun e => isApplying tab e \/ isScoring e)
        (processJob_decide B cvKeywords tab title company pageUrl jobDescription).
Proof.
  unfold processJob_decide.
  assert (Hs : emits (fun e => isApplying tab e \/ isScoring e)
                     (checkJobMatchWithLLM B cvKeywords jobDescription)).
  { eapply emits_weaken; [| apply checkJobMatchWithLLM_scoring]. intros e H. now right. }
  assert (Ha : forall m l, emits (fun e => isApplying tab e \/ isScoring e)
                     (processJob_apply B tab title company pageUrl jobDescription
                                       m l)).
  { intros m l. eapply emits_weaken; [| apply processJob_apply_applying].
    intros e H. now left. }
  emits_auto; left; right; eauto 10.
Qed.

(** The [try] block under its [catch]: it never raises; the tab a
    successful opening answered is what [newTab] holds; and the run is
    either all opening moves, or opening moves followed by the deciding
    step, whose result it returns. *)
Lemma processJob_guarded_cases (jobCard : Card) (cvKeywords : list string) (w : W) :
  let o := tryCatch (processJob_try B jobCard cvKeywords) processJob_catch
                    (initialLocals, w) in
  (exists v, value o = Ok v)
  /\ (forall tab, In (EvOpenTab jobCard (Delivered (Some tab))) (events o) ->
                  newTab (fst (final o)) = Some tab)
  /\ (Forall isOpening (events o)
      \/ exists pre tab t c pageUrl jobDescription w1,
           Forall isOpening pre
           /\ value o = value (processJob_decide B cvKeywords tab t c (Some pageUrl)
                                                 jobDescription w1)
           /\ events o = pre ++ events (processJob_decide B cvKeywords tab t c
                                          (Some pageUrl) jobDescription w1)
           /\ snd (final o) = final (processJob_decide B cvKeywords tab t c
                                       (Some pageUrl) jobDescription w1)).
Proof.
  cbv zeta.
  pose proof (processJob_onTab_cases cvKeywords) as Hon. cbv zeta in Hon.
  pose proof (processJob_decide_total B cvKeywords) as Hdt.
  pose proof (processJob_decide_events cvKeywords) as Hde.
  unfold processJob_try.
  revert Hon. generalize (processJob_onTab B cvKeywords). intros onTab Hon.
  assert (Hlog : forall t c s l u, isOpening (EvLogJob t c s l u))
    by (intros; left; exact I).
  assert (Hcount : forall c r, isOpening (EvLinkCount c r))
    by (intros; left; exact I).
  assert (Hopen : forall c r, isOpening (EvOpenTab c r))
    by (intros; right; eauto).
  unfold processJob_catch, tryCatch, bind, lift, contextPages, linkCount, openTab,
    isClosed, gets, call, logOutcome, getLocals, logJob, emit, setNewTab, modify, ret.
  cbn.
  destruct (context_pages_length W B w =? 0); cbn.
  { split; [eauto |]. split; [| left; each_event].
    intros tab [H | []]. discriminate. }
  destruct (card_linkCount W B jobCard w) as [[n | msg] w1]; cbn.
  2:{ split; [eauto |]. split; [| left; each_event].
      intros tab [H | [H | []]]; discriminate. }
  destruct (n =? 0); cbn.
  { split; [eauto |]. split; [| left; each_event].
    intros tab [H | [H | []]]; discriminate. }
  destruct (card_openTab W B jobCard w1) as [[[tab |] | tab msg | msg] w2]; cbn.
  - destruct (page_isClosed W B tab w2); cbn.
    { split; [eauto |]. split; [| left; each_event].
      intros tab' [H | [H | [H | []]]]; try discriminate.
      cbn. congruence. }
    specialize (Hon tab (mkLocals (Some tab) "Unknown Job Title" "Unknown Company" None)
                    w2).
    destruct (onTab tab (mkLocals (Some tab) "Unknown Job Title" "Unknown Company" None,
                         w2)) as [v [l3 w3] es3].
    cbn in Hon. destruct Hon as [Hnt [[msg [-> Hq]] | Hdec]].
    + cbn. split; [eauto |]. split.
      * intros tab' Hin. destruct Hin as [H | [H | H]]; try discriminate.
        { cbn in Hnt. congruence. }
        exfalso. apply in_app_or in H. destruct H as [H | [H | []]];
          [| discriminate].
        rewrite Forall_forall in Hq. exact (Hq _ H).
      * left. constructor; [auto |]. constructor; [auto |].
        apply Forall_app. split; [| each_event].
        eapply Forall_impl; [| exact Hq]. intros e He. now left.
    + destruct Hdec as [pre [t [c [pageUrl [d [w4 [Hq [Hv [Hev Hfin]]]]]]]]].
      destruct (Hdt tab t c (Some pageUrl) d w4) as [r Hr].
      rewrite Hr in Hv. subst v. cbn. split; [eauto |]. split.
      * intros tab' Hin. destruct Hin as [H | [H | H]]; try discriminate.
        { cbn in Hnt. congruence. }
        exfalso. rewrite Hev in H. apply in_app_or in H. destruct H as [H | H].
        -- rewrite Forall_forall in Hq. exact (Hq _ H).
        -- specialize (Hde tab t c (Some pageUrl) d w4).
           rewrite Forall_forall in Hde.
           destruct (Hde _ H) as [[Ha | [t' [c' [s' [l' [u' Ha]]]]]] | Ha];
             try discriminate; contradiction.
      * right. exists (EvLinkCount jobCard (Ok n)
                       :: EvOpenTab jobCard (Delivered (Some tab)) :: pre),
                      tab, t, c, pageUrl, d, w4.
        split; [| split; [| split]].
        -- constructor; [auto |]. constructor; [auto |].
           eapply Forall_impl; [| exact Hq]. intros e He. now left.
        -- rewrite Hr. reflexivity.
        -- rewrite Hev. reflexivity.
        -- exact Hfin.
  - split; [eauto |]. split; [| left; each_event].
    intros tab [H | [H | [H | []]]]; discriminate.
  - split; [eauto |]. split; [| left; each_event].
    intros tab' [H | [H | [H | []]]]; discriminate.
  - split; [eauto |]. split; [| left; each_event].
    intros tab [H | [H | [H | []]]]; discriminate.
Qed.

(** processJob around its [try] and [catch]: the result is theirs, and
    the [finally] block adds at most the closing of the tab [newTab] holds. *)
Lemma processJob_cases (jobCard : Card) (cardIndex : nat)
  (cvKeywords : list string) (w : W) :
  let g := tryCatch (processJob_try B jobCard cvKeywords) processJob_catch
                    (initialLocals, w) in
  let o := processJob B jobCard cardIndex cvKeywords w in
  value o = value g
  /\ exists closing,
       events o = EvEnter (FnProcessJob jobCard cardIndex) :: events g ++ closing
       /\ (forall e, In e closing -> exists p r, e = EvClose p r)
       /\ match newTab (fst (final g)) with
          | None => closing = [] /\ final o = snd (final g)
          | Some tab =>
              (closing = [] /\ final o = snd (final g)
               /\ page_isClosed W B tab (final o) = true)
              \/ exists r,
                   closing = [EvClose tab r]
                   /\ page_isClosed W B tab (snd (final g)) = false
                   /\ page_close W B tab (snd (final g)) = (r, final o)
          end.
Proof.
  cbv zeta. unfold processJob, processJob_body.
  generalize (tryCatch (processJob_try B jobCard cvKeywords) processJob_catch).
  intros guarded.
  unfold bind, emit, finally. cbn.
  destruct (guarded (initialLocals, w)) as [v [l1 w1] es1].
  unfold processJob_finally, getLocals, gets, bind, lift, isClosed, close, call,
    tryCatch, ret.
  cbn.
  destruct (newTab l1) as [tab |]; cbn.
  - destruct (page_isClosed W B tab w1) eqn:Hc; cbn.
    + split; [reflexivity |]. exists []. rewrite app_nil_r.
      split; [reflexivity |]. split; [intros e [] |]. left. auto.
    + destruct (page_close W B tab w1) as [[[] | msg] w2] eqn:Hcl; cbn;
        (split; [reflexivity |]); eexists; (split; [reflexivity |]);
        (split; [intros e [<- | []]; eauto |]);
        right; eexists; repeat split; reflexivity.
  - split; [reflexivity |]. exists []. rewrite app_nil_r.
    split; [reflexivity |]. split; [intros e [] | auto].
Qed.

(** C5. Whenever the scorer reports the verdict NO_MATCH or ERROR during
    a run of processJob, the run returns the skipped result that carries the
    verdict, writes the row Skipped (LLM verdict) to the log, and never
    enters applyToJob. *)
Theorem processJob_rejected_by_scorer (jobCard : Card) (cardIndex : nat)
  (cvKeywords : list string) (w : W) (m : LlmMatch) :
  let o := processJob B jobCard cardIndex cvKeywords w in
  In (EvVerdict m) (events o) ->
  match_ m = NO_MATCH \/ match_ m = ERROR ->
  value o = Ok (mkJob false (Some ("LLM " +++ verdictName (match_ m)))
                      (Some true) None (Some m))
  /\ (exists t c u,
        In (EvLogJob t c ("Skipped (LLM " +++ verdictName (match_ m) +++ ")")
                     (Some m) u) (events o))
  /\ (forall p, ~ In (EvEnter (FnApplyToJob p)) (events o)).
Proof.
  cbv zeta. intros Hin Hm.
  assert (Hrej : isRejection m = true).
  { unfold isRejection. destruct Hm as [-> | ->]; reflexivity. }
  destruct (processJob_cases jobCard cardIndex cvKeywords w)
    as [Hv [closing [Hev [Hclosing _]]]].
  destruct (processJob_guarded_cases jobCard cvKeywords w) as [_ [_ Hg]].
  cbv zeta in *.
  assert (Hopening : forall e, isOpening e ->
             (forall m', e <> EvVerdict m') /\ (forall p, e <> EvEnter (FnApplyToJob p))).
  { intros e [He | [c [r ->]]]; [| split; intros; discriminate].
    destruct e; try contradiction; split; intros; discriminate. }
  rewrite Hev in Hin. destruct Hin as [Hin | Hin]; [discriminate |].
  apply in_app_or in Hin. destruct Hin as [Hin | Hin].
  2:{ destruct (Hclosing _ Hin) as [p [r Hc]]. discriminate. }
  destruct Hg as [Hq | [pre [tab [t [c [u [d [w1 [Hq [Hvd [Hevd _]]]]]]]]]]].
  { exfalso. rewrite Forall_forall in Hq.
    destruct (Hopening _ (Hq _ Hin)) as [Hnv _]. exact (Hnv m eq_refl). }
  rewrite Hevd in Hin. apply in_app_or in Hin. destruct Hin as [Hin | Hin].
  { exfalso. rewrite Forall_forall in Hq.
    destruct (Hopening _ (Hq _ Hin)) as [Hnv _]. exact (Hnv m eq_refl). }
  destruct (processJob_decide_rejected B cvKeywords tab t c (Some u) d w1 m Hin Hrej)
    as [Hvalue [Hlog Hnone]].
  split; [rewrite Hv, Hvd; exact Hvalue |]. split.
  - exists t, c, (Some u). rewrite Hev, Hevd. right.
    apply in_or_app. left. apply in_or_app. right. exact Hlog.
  - intros p Hp. rewrite Hev, Hevd in Hp. destruct Hp as [Hp | Hp]; [discriminate |].
    apply in_app_or in Hp. destruct Hp as [Hp | Hp].
    + apply in_app_or in Hp. destruct Hp as [Hp | Hp].
      * rewrite Forall_forall in Hq.
        destruct (Hopening _ (Hq _ Hp)) as [_ Hne]. exact (Hne p eq_refl).
      * exact (Hnone p Hp).
    + destruct (Hclosing _ Hp) as [p' [r Hc]]. discriminate.
Qed.

End WholeJob.

Section TabClosing.

Context {W : Type} (B : Browser W).

(** The [try] block under its [catch] closes nothing. *)
Lemma processJob_guarded_no_close (jobCard : Card) (cvKeywords : list string) (w : W)
  (p : Page) (r : res unit) :
  ~ In (EvClose p r)
       (events (tryCatch (processJob_try B jobCard cvKeywords) processJob_catch
                         (initialLocals, w))).
Proof.
  destruct (processJob_guarded_cases B jobCard cvKeywords w) as [_ [_ Hg]].
  cbv zeta in Hg.
  assert (Hopening : forall e, isOpening e -> e <> EvClose p r).
  { intros e [He | [c [a ->]]]; [| discriminate].
    intros ->. exact He. }
  destruct Hg as [Hq | [pre [tab [t [c [u [d [w1 [Hq [_ [Hevd _]]]]]]]]]]].
  - intros Hin. rewrite Forall_forall in Hq. exact (Hopening _ (Hq _ Hin) eq_refl).
  - rewrite Hevd. intros Hin. apply in_app_or in Hin. destruct Hin as [Hin | Hin].
    + rewrite Forall_forall in Hq. exact (Hopening _ (Hq _ Hin) eq_refl).
    + pose proof (processJob_decide_events B cvKeywords tab t c (Some u) d w1) as Hde.
      rewrite Forall_forall in Hde.
      destruct (Hde _ Hin) as [[Ha | [t' [c' [s' [l' [u' Ha]]]]]] | Ha];
        try discriminate; exact Ha.
Qed.

(** C8, as amended.  On every run of processJob, whatever the exit,
    processJob does not raise, and the tab the opening step assigned to
    newTab is, when the [finally] block runs, either found closed, and then
    the run holds no call of [close] at all, or still open, and then the last
    call of the run, and its only call of [close], is [close] on that tab,
    whatever that call answers. *)
Theorem processJob_closes_tab (jobCard : Card) (cardIndex : nat)
  (cvKeywords : list string) (w : W) (tab : Page) :
  let o := processJob B jobCard cardIndex cvKeywords w in
  In (EvOpenTab jobCard (Delivered (Some tab))) (events o) ->
  (exists v, value o = Ok v)
  /\ ((page_isClosed W B tab (final o) = true
       /\ forall p r, ~ In (EvClose p r) (events o))
      \/ exists es r w',
           events o = es ++ [EvClose tab r]
           /\ (forall p r', ~ In (EvClose p r') es)
           /\ page_isClosed W B tab w' = false
           /\ page_close W B tab w' = (r, final o)).
Proof.
  cbv zeta. intros Hin.
  destruct (processJob_cases B jobCard cardIndex cvKeywords w)
    as [Hv [closing [Hev [Hclosing Hfin]]]].
  destruct (processJob_guarded_cases B jobCard cvKeywords w) as [[v Hg] [Hnt _]].
  pose proof (processJob_guarded_no_close jobCard cvKeywords w) as Hnone.
  cbv zeta in *.
  assert (Htab : newTab (fst (final (tryCatch (processJob_try B jobCard cvKeywords)
                                              processJob_catch (initialLocals, w))))
                 = Some tab).
  { apply Hnt. rewrite Hev in Hin. destruct Hin as [Hin | Hin]; [discriminate |].
    apply in_app_or in Hin. destruct Hin as [Hin | Hin]; [exact Hin |].
    exfalso. destruct (Hclosing _ Hin) as [p [r Hc]]. discriminate. }
  rewrite Htab in Hfin.
  split; [exists v; rewrite Hv; exact Hg |].
  assert (Hbefore : forall p r,
             ~ In (EvClose p r)
                  (EvEnter (FnProcessJob jobCard cardIndex)
                   :: events (tryCatch (processJob_try B jobCard cvKeywords)
                                       processJob_catch (initialLocals, w)))).
  { intros p r [H | H]; [discriminate | exact (Hnone p r H)]. }
  destruct Hfin as [[Hcl [_ Hc]] | [r [Hcl [Hopen Hclose]]]].
  - left. split; [exact Hc |]. intros p r. rewrite Hev, Hcl, app_nil_r.
    apply Hbefore.
  - right.
    exists (EvEnter (FnProcessJob jobCard cardIndex)
            :: events (tryCatch (processJob_try B jobCard cvKeywords)
                                processJob_catch (initialLocals, w))),
           r,
           (snd (final (tryCatch (processJob_try B jobCard cvKeywords)
                                 processJob_catch (initialLocals, w)))).
    split; [rewrite Hev, Hcl; reflexivity |].
    split; [exact Hbefore |]. split; [exact Hopen | exact Hclose].
Qed.

(** The case the [finally] block misses: when the click on the link is
    rejected after the tab arrived, the tab is never assigned to newTab;
    processJob returns the failure and the run holds no call of [close]. *)
Lemma processJob_drops_unassigned_tab (jobCard : Card) (cardIndex : nat)
  (cvKeywords : list string) (w : W) (tab : Page) (msg : string) :
  let o := processJob B jobCard cardIndex cvKeywords w in
  In (EvOpenTab jobCard (Dropped tab msg)) (events o) ->
  value o = Ok (mkJob false (Some msg) None None None)
  /\ forall p r, ~ In (EvClose p r) (events o).
Proof.
  cbv zeta. intros Hin.
  destruct (processJob_cases B jobCard cardIndex cvKeywords w)
    as [Hv [closing [Hev [Hclosing Hfin]]]].
  pose proof (processJob_guarded_no_close jobCard cvKeywords w) as Hnone.
  cbv zeta in *.
  assert (Hg : In (EvOpenTab jobCard (Dropped tab msg))
                  (events (tryCatch (processJob_try B jobCard cvKeywords)
                                    processJob_catch (initialLocals, w)))).
  { rewrite Hev in Hin. destruct Hin as [Hin | Hin]; [discriminate |].
    apply in_app_or in Hin. destruct Hin as [Hin | Hin]; [exact Hin |].
    exfalso. destruct (Hclosing _ Hin) as [p [r Hc]]. discriminate. }
  assert (Hrun : value (tryCatch (processJob_try B jobCard cvKeywords)
                                 processJob_catch (initialLocals, w))
                 = Ok (mkJob false (Some msg) None None None)
                 /\ newTab (fst (final (tryCatch (processJob_try B jobCard cvKeywords)
                                                 processJob_catch (initialLocals, w))))
                    = None).
  { clear Hv Hev Hfin Hnone Hin Hclosing. revert Hg.
    pose proof (processJob_onTab_cases B cvKeywords) as Hon. cbv zeta in Hon.
    pose proof (processJob_decide_events B cvKeywords) as Hde.
    unfold processJob_try.
    revert Hon. generalize (processJob_onTab B cvKeywords). intros onTab Hon.
    unfold processJob_catch, tryCatch, bind, lift, contextPages, linkCount, openTab,
      isClosed, gets, call, logOutcome, getLocals, logJob, emit, setNewTab, modify, ret.
    cbn.
    destruct (context_pages_length W B w =? 0); cbn.
    { intros [H | []]. discriminate. }
    destruct (card_linkCount W B jobCard w) as [[n | m] w1]; cbn.
    2:{ intros [H | [H | []]]; discriminate. }
    destruct (n =? 0); cbn.
    { intros [H | [H | []]]; discriminate. }
    destruct (card_openTab W B jobCard w1) as [[[tab' |] | tab' m | m] w2]; cbn.
    - destruct (page_isClosed W B tab' w2); cbn.
      { intros [H | [H | [H | []]]]; discriminate. }
      specialize (Hon tab' (mkLocals (Some tab') "Unknown Job Title" "Unknown Company"
                                     None) w2).
      destruct (onTab tab' (mkLocals (Some tab') "Unknown Job Title" "Unknown Company"
                                     None, w2)) as [v [l3 w3] es3].
      cbn in Hon. destruct Hon as [_ [[m [-> Hq]] | Hdec]]; cbn.
      + intros [H | [H | H]]; try discriminate. exfalso.
        apply in_app_or in H. destruct H as [H | [H | []]]; [| discriminate].
        rewrite Forall_forall in Hq. exact (Hq _ H).
      + destruct Hdec as [pre [t [c [pageUrl [d [w4 [Hq [_ [Hevd _]]]]]]]]].
        intros H. exfalso.
        assert (H' : In (EvOpenTab jobCard (Dropped tab msg)) es3).
        { destruct v; cbn in H; destruct H as [H | [H | H]]; try discriminate;
            [exact H |].
          apply in_app_or in H. destruct H as [H | [H | []]];
            [exact H | discriminate]. }
        rewrite Hevd in H'. apply in_app_or in H'. destruct H' as [H' | H'].
        * rewrite Forall_forall in Hq. exact (Hq _ H').
        * specialize (Hde tab' t c (Some pageUrl) d w4).
          rewrite Forall_forall in Hde.
          destruct (Hde _ H') as [[Ha | [t' [c' [s' [l' [u' Ha]]]]]] | Ha];
            try discriminate; contradiction.
    - intros [H | [H | [H | []]]]; discriminate.
    - intros [H | [H | [H | []]]]; try discriminate.
      injection H as <- <-. split; reflexivity.
    - intros [H | [H | [H | []]]]; discriminate. }
  destruct Hrun as [Hval Hnew]. rewrite Hnew in Hfin. destruct Hfin as [-> _].
  split; [rewrite Hv; exact Hval |].
  intros p r. rewrite Hev, app_nil_r. intros [H | H]; [discriminate |].
  exact (Hnone p r H).
Qed.

End TabClosing.

(** A title that contains the term QA, with a description and keywords at
    hand and a scorer that would reject the job. *)
Lemma processJob_decide_keyword_match_witness :
  (exists r,
      value (applyToJob (Worlds.siteBrowser Worlds.scoredApplySite) 7 0) = Ok r
      /\ events (processJob_decide (Worlds.siteBrowser Worlds.scoredApplySite)
                                   ["Playwright"] 7 "Senior QA Engineer" "Acme"
                                   (Some "https://www.dice.com/job-detail/1")
                                   "We build payment services in Java." 0)
         = events (applyToJob (Worlds.siteBrowser Worlds.scoredApplySite) 7 0)
           ++ [EvLogJob "Senior QA Engineer" "Acme" (applyStatus r) None
                        (Some "https://www.dice.com/job-detail/1")]
      /\ final (processJob_decide (Worlds.siteBrowser Worlds.scoredApplySite)
                                  ["Playwright"] 7 "Senior QA Engineer" "Acme"
                                  (Some "https://www.dice.com/job-detail/1")
                                  "We build payment services in Java." 0)
         = final (applyToJob (Worlds.siteBrowser Worlds.scoredApplySite) 7 0)
      /\ value (processJob_decide (Worlds.siteBrowser Worlds.scoredApplySite)
                                  ["Playwright"] 7 "Senior QA Engineer" "Acme"
                                  (Some "https://www.dice.com/job-detail/1")
                                  "We build payment services in Java." 0)
         = Ok (applyOutcome r None))
  /\ In (EvEnter (FnApplyToJob 7))
        (events (processJob_decide (Worlds.siteBrowser Worlds.scoredApplySite)
                                   ["Playwright"] 7 "Senior QA Engineer" "Acme"
                                   (Some "https://www.dice.com/job-detail/1")
                                   "We build payment services in Java." 0))
  /\ ~ In (EvEnter FnCheckJobMatchWithLLM)
          (events (processJob_decide (Worlds.siteBrowser Worlds.scoredApplySite)
                                     ["Playwright"] 7 "Senior QA Engineer" "Acme"
                                     (Some "https://www.dice.com/job-detail/1")
                                     "We build payment services in Java." 0))
  /\ (forall k d r,
         ~ In (EvGroq k d r)
              (events (processJob_decide (Worlds.siteBrowser Worlds.scoredApplySite)
                                         ["Playwright"] 7 "Senior QA Engineer" "Acme"
                                         (Some "https://www.dice.com/job-detail/1")
                                         "We build payment services in Java." 0)))
  /\ (forall m,
         ~ In (EvVerdict m)
              (events (processJob_decide (Worlds.siteBrowser Worlds.scoredApplySite)
                                         ["Playwright"] 7 "Senior QA Engineer" "Acme"
                                         (Some "https://www.dice.com/job-detail/1")
                                         "We build payment services in Java." 0))).
Proof.
  apply (processJob_decide_keyword_match
           (Worlds.siteBrowser Worlds.scoredApplySite)
           ["Playwright"] 7 "Senior QA Engineer" "Acme"
           (Some "https://www.dice.com/job-detail/1")
           "We build payment services in Java." 0).
  exists "QA". split; [present | reflexivity].
Defined.

(** In the same world a title without a search term is sent to the scorer,
    which rejects it. *)
Example processJob_decide_asks_scorer_otherwise :
  In (EvGroq ["Playwright"] "We build payment services in Java."
             (Ok (Some "NO_MATCH")))
     (events (processJob_decide (Worlds.siteBrowser Worlds.scoredApplySite)
                                ["Playwright"] 7 "Java Developer" "Acme"
                                (Some "https://www.dice.com/job-detail/1")
                                "We build payment services in Java." 0))
  /\ value (processJob_decide (Worlds.siteBrowser Worlds.scoredApplySite)
                              ["Playwright"] 7 "Senior QA Engineer" "Acme"
                              (Some "https://www.dice.com/job-detail/1")
                              "We build payment services in Java." 0)
     = Ok (mkJob true None None (Some false) None).
Proof. split; [present | vm_compute; reflexivity]. Qed.


(** A Java job, outside the search terms, that the scorer rejects. *)
Lemma processJob_rejected_by_scorer_witness :
  value (processJob (Worlds.siteBrowser (Worlds.javaJobSite "Little overlap."))
                    1 0 ["Playwright"] 0)
  = Ok (mkJob false (Some "LLM NO_MATCH") (Some true) None
              (Some (mkLlm NO_MATCH (Some "Little overlap.")))).
Proof.
  refine (proj1 (processJob_rejected_by_scorer
                   (Worlds.siteBrowser (Worlds.javaJobSite "Little overlap."))
                   1 0 ["Playwright"] 0
                   (mkLlm NO_MATCH (Some "Little overlap.")) _ _)).
  - present.
  - left. reflexivity.
Defined.

(** The tab of card 1 is page 101; closing it is the last call of the run. *)
Lemma processJob_closes_tab_witness :
  (exists v, value (processJob (Worlds.siteBrowser Worlds.emptySite) 1 0 [] 0) = Ok v)
  /\ ((page_isClosed nat (Worlds.siteBrowser Worlds.emptySite) 101
                     (final (processJob (Worlds.siteBrowser Worlds.emptySite) 1 0 [] 0))
       = true
       /\ forall p r,
            ~ In (EvClose p r)
                 (events (processJob (Worlds.siteBrowser Worlds.emptySite) 1 0 [] 0)))
      \/ exists es r w',
           events (processJob (Worlds.siteBrowser Worlds.emptySite) 1 0 [] 0)
           = es ++ [EvClose 101 r]
           /\ (forall p r', ~ In (EvClose p r') es)
           /\ page_isClosed nat (Worlds.siteBrowser Worlds.emptySite) 101 w' = false
           /\ page_close nat (Worlds.siteBrowser Worlds.emptySite) 101 w'
              = (r, final (processJob (Worlds.siteBrowser Worlds.emptySite) 1 0 [] 0))).
Proof.
  apply (processJob_closes_tab (Worlds.siteBrowser Worlds.emptySite) 1 0 [] 0 101).
  present.
Defined.

(** C8 as stated fails: the tab of card 1 was opened, [close] on it is
    rejected, the rejection is swallowed, and processJob returns with the tab
    still open. *)
Lemma processJob_returns_with_open_tab :
  In (EvOpenTab 1 (Delivered (Some 101)))
     (events (processJob Worlds.stuckTab 1 0 [] 0))
  /\ In (EvClose 101 (Throw "Target crashed"))
        (events (processJob Worlds.stuckTab 1 0 [] 0))
  /\ (exists v, value (processJob Worlds.stuckTab 1 0 [] 0) = Ok v)
  /\ page_isClosed nat Worlds.stuckTab 101
                   (final (processJob Worlds.stuckTab 1 0 [] 0)) = false.
Proof.
  split; [present |]. split; [present |].
  split; [eexists; vm_compute; reflexivity | reflexivity].
Qed.

(** The click that fails after the tab arrived: page 101 is never closed. *)
Example processJob_leaks_tab :
  In (EvOpenTab 1 (Dropped 101 "locator.click: Timeout exceeded"))
     (events (processJob Worlds.failingClick 1 0 [] 0))
  /\ value (processJob Worlds.failingClick 1 0 [] 0)
     = Ok (mkJob false (Some "locator.click: Timeout exceeded") None None None)
  /\ forall p r, ~ In (EvClose p r) (events (processJob Worlds.failingClick 1 0 [] 0)).
Proof.
  split; [present |].
  apply (processJob_drops_unassigned_tab Worlds.failingClick 1 0 [] 0 101
           "locator.click: Timeout exceeded").
  present.
Qed.

(** * The groups of search terms *)

Lemma termBatches_loop_concat (items : list string) (size rounds i : nat) :
  1 <= size -> length items <= i + rounds ->
  concat (termBatches_loop items size rounds i) = skipn i items.
Proof.
  intros Hsize. revert i.
  induction rounds as [| rounds IH]; intros i Hlen; cbn [termBatches_loop].
  - cbn. symmetry. apply skipn_all2. lia.
  - destruct (i <? length items) eqn:Hi.
    + cbn [concat]. rewrite IH by lia. unfold slice.
      replace (i + size - i) with size by lia.
      rewrite (Nat.add_comm i size), <- skipn_skipn. apply firstn_skipn.
    + apply Nat.ltb_ge in Hi. cbn. symmetry. apply skipn_all2. exact Hi.
Qed.

Lemma termBatches_loop_sizes (items : list string) (size rounds i : nat) :
  1 <= size ->
  Forall (fun b => 1 <= length b <= size) (termBatches_loop items size rounds i).
Proof.
  intros Hsize. revert i.
  induction rounds as [| rounds IH]; intros i; cbn [termBatches_loop]; [constructor |].
  destruct (i <? length items) eqn:Hi; [| constructor].
  apply Nat.ltb_lt in Hi. constructor; [| apply IH].
  unfold slice. replace (i + size - i) with size by lia.
  rewrite length_firstn, length_skipn. lia.
Qed.

Lemma termBatches_loop_full (items : list string) (size rounds i : nat) :
  Forall (fun b => length b = size)
         (removelast (termBatches_loop items size rounds i)).
Proof.
  revert i. induction rounds as [| rounds IH]; intros i; cbn [termBatches_loop];
    [constructor |].
  destruct (i <? length items) eqn:Hi; [| constructor].
  specialize (IH (i + size)).
  destruct rounds as [| rounds]; [constructor |].
  cbn [termBatches_loop] in *.
  destruct (i + size <? length items) eqn:Hnext; [| constructor].
  apply Nat.ltb_lt in Hnext.
  set (rest := termBatches_loop items size rounds (i + size + size)) in *.
  cbn [removelast] in *. constructor; [| exact IH].
  unfold slice. replace (i + size - i) with size by lia.
  rewrite length_firstn, length_skipn. lia.
Qed.

(** X1. For a positive group size the generated groups of search terms,
    put end to end, are the list of the terms: every term is in exactly one
    group, in the order of the list.  No group is empty, none holds more
    than the group size, and every group but the last holds exactly that
    many. *)
Theorem termBatches_partition (items : list string) (size : nat) :
  1 <= size ->
  concat (termBatches items size) = items
  /\ Forall (fun b => 1 <= length b <= size) (termBatches items size)
  /\ Forall (fun b => length b = size) (removelast (termBatches items size)).
Proof.
  intros Hsize. unfold termBatches. split; [| split].
  - rewrite termBatches_loop_concat by lia. reflexivity.
  - apply termBatches_loop_sizes. exact Hsize.
  - apply termBatches_loop_full.
Qed.

(** The ten terms of the configuration in groups of five. *)
Lemma termBatches_partition_witness :
  concat testBatches = SEARCH_ITEMS
  /\ Forall (fun b => 1 <= length b <= BATCH_SIZE) testBatches
  /\ Forall (fun b => length b = BATCH_SIZE) (removelast testBatches).
Proof.
  apply (termBatches_partition SEARCH_ITEMS BATCH_SIZE). unfold BATCH_SIZE. lia.
Defined.

(** * The name of the workbook *)

Lemma append_cancel_l (a x y : string) : a +++ x = a +++ y -> x = y.
Proof.
  induction a as [| c a IH]; cbn; intros H; [exact H |].
  injection H as H. auto.
Qed.

Lemma append_split_length (a b x y : string) :
  String.length a = String.length b -> a +++ x = b +++ y -> a = b /\ x = y.
Proof.
  revert b. induction a as [| c a IH]; intros [| d b] Hlen H; cbn in *;
    try discriminate.
  - auto.
  - injection H as -> H. injection Hlen as Hlen.
    destruct (IH b Hlen H) as [-> ->]. auto.
Qed.

Lemma hourStamp_length (hours : nat) :
  hours < 24 -> String.length (fst (hourStamp hours)) = 2.
Proof.
  intros H.
  do 24 (destruct hours as [| hours]; [reflexivity |]). lia.
Qed.

Lemma hourStamp_inj (h1 h2 : nat) :
  h1 < 24 -> h2 < 24 -> hourStamp h1 = hourStamp h2 -> h1 = h2.
Proof.
  intros H1 H2.
  assert (Hall : forallb (fun a => forallb (fun b =>
            implb (String.eqb (fst (hourStamp a)) (fst (hourStamp b))
                   && String.eqb (snd (hourStamp a)) (snd (hourStamp b)))
                  (a =? b)) (seq 0 24)) (seq 0 24) = true) by (vm_compute; reflexivity).
  rewrite forallb_forall in Hall.
  assert (Hin1 : In h1 (seq 0 24)) by (apply in_seq; lia).
  assert (Hin2 : In h2 (seq 0 24)) by (apply in_seq; lia).
  specialize (Hall h1 Hin1). rewrite forallb_forall in Hall.
  specialize (Hall h2 Hin2). intros E. rewrite E in Hall.
  rewrite !String.eqb_refl in Hall. cbn in Hall. apply Nat.eqb_eq. exact Hall.
Qed.

(** X2. Two runs started on the same day at the same minute of different
    hours write to different workbooks: with its AM or PM the twelve-hour
    field of the file name tells the hour of the day. *)
Theorem generateFilename_tells_hour (year month date minutes h1 h2 : nat) :
  h1 < 24 -> h2 < 24 ->
  Logger.generateFilename year month date h1 minutes
  = Logger.generateFilename year month date h2 minutes ->
  h1 = h2.
Proof.
  intros H1 H2 E. unfold Logger.generateFilename in E.
  apply append_cancel_l in E. repeat apply append_cancel_l in E.
  apply hourStamp_inj; [exact H1 | exact H2 |].
  apply append_split_length in E.
  2:{ rewrite (hourStamp_length h1 H1 : String.length
                 (Logger.padStart 2 "0" (Js.natToString (Logger.displayHours h1))) = 2).
      rewrite (hourStamp_length h2 H2 : String.length
                 (Logger.padStart 2 "0" (Js.natToString (Logger.displayHours h2))) = 2).
      reflexivity. }
  destruct E as [Eh E]. repeat apply append_cancel_l in E.
  unfold hourStamp. rewrite Eh. f_equal.
  unfold Logger.ampm in *.
  destruct (12 <=? h1), (12 <=? h2); try reflexivity; discriminate.
Qed.

(** Half past nine in the morning of the second of November 2026. *)
Lemma generateFilename_tells_hour_witness : 9 = 9.
Proof.
  apply (generateFilename_tells_hour 2026 10 2 30 9 9); [lia | lia | reflexivity].
Defined.

(** * The logger *)

Lemma includes_already_applied (s : string) :
  Js.includes s "already applied" = true -> Js.includes s "applied" = true.
Proof. apply (includes_app_r s "already " "applied"). Qed.

(** X3. The category already_applied and the orange fill are never given:
    a status that contains already applied contains applied, which the first
    test of both chains takes.  Such a status is filed as a success and
    filled green, like a fresh application. *)
Theorem categorizeStatus_never_already_applied (status : string) :
  Logger.categorizeStatus status <> "already_applied"
  /\ Logger.fillColor status <> "FFFFEAA7"
  /\ (Js.includes (Js.toLowerCase status) "already applied" = true ->
      Logger.categorizeStatus status = "success"
      /\ Logger.fillColor status = "FFD4EDDA").
Proof.
  unfold Logger.categorizeStatus, Logger.fillColor. cbv zeta.
  generalize (includes_already_applied (Js.toLowerCase status)).
  generalize (Js.toLowerCase status). intros s Hs.
  destruct (Js.includes s "already applied") eqn:Ha.
  - rewrite (Hs eq_refl), orb_true_r. repeat split; discriminate.
  - split; [| split; [| discriminate]].
    + repeat match goal with
             | |- context [if ?c then _ else _] => destruct c
             end; discriminate.
    + repeat match goal with
             | |- context [if ?c then _ else _] => destruct c
             end; discriminate.
Qed.

(** X4. The two chains of logJob and categorizeStatus test skipped and
    failed in opposite orders.  A status that names both, and neither success
    nor applied, is filed as skipped and filled with the red of a failure. *)
Theorem skipped_and_failed_status (status : string) :
  Js.includes (Js.toLowerCase status) "success" = false ->
  Js.includes (Js.toLowerCase status) "applied" = false ->
  Js.includes (Js.toLowerCase status) "skipped" = true ->
  Js.includes (Js.toLowerCase status) "failed" = true
  \/ Js.includes (Js.toLowerCase status) "error" = true ->
  Logger.categorizeStatus status = "skipped"
  /\ Logger.fillColor status = "FFF8D7DA".
Proof.
  intros Hs Ha Hk Hf. unfold Logger.categorizeStatus, Logger.fillColor. cbv zeta.
  rewrite Hs, Ha, Hk. cbn [orb].
  assert (Hal : Js.includes (Js.toLowerCase status) "already applied" = false).
  { destruct (Js.includes (Js.toLowerCase status) "already applied") eqn:E;
      [| reflexivity].
    apply includes_already_applied in E. congruence. }
  rewrite Hal.
  assert (Hor : Js.includes (Js.toLowerCase status) "failed"
                || Js.includes (Js.toLowerCase status) "error" = true).
  { apply orb_true_iff. exact Hf. }
  rewrite Hor. split; reflexivity.
Qed.

(** The status processJob logs for a job nothing speaks for, and the one for
    a job the scorer could not be asked about. *)
Lemma skipped_and_failed_status_witness :
  (Logger.categorizeStatus "Skipped (No LLM Match or Fallback Failed)" = "skipped"
   /\ Logger.fillColor "Skipped (No LLM Match or Fallback Failed)" = "FFF8D7DA")
  /\ (Logger.categorizeStatus "Skipped (LLM ERROR)" = "skipped"
      /\ Logger.fillColor "Skipped (LLM ERROR)" = "FFF8D7DA").
Proof.
  split.
  - apply (skipped_and_failed_status "Skipped (No LLM Match or Fallback Failed)");
      [reflexivity | reflexivity | reflexivity | left; reflexivity].
  - apply (skipped_and_failed_status "Skipped (LLM ERROR)");
      [reflexivity | reflexivity | reflexivity | right; reflexivity].
Defined.

Lemma logCall_cases (l : Logger.State)
  (rows : list (Logger.JobEntry * option string)) (c : Logger.Call) :
  Logger.worksheet l = Some rows ->
  exists e,
    Logger.serialNo e = Logger.serialNumber l
    /\ Logger.e_status e = Logger.c_status c
    /\ Logger.logCall l c
       = match Logger.c_sheet c with
         | Logger.Written =>
             Logger.mkState
               (Some (rows ++ [(e, Some (Logger.fillColor (Logger.c_status c)))]))
               (S (Logger.serialNumber l)) (Logger.jobData l ++ [e])
               (if S (Logger.serialNumber l) mod 5 =? 0
                then S (Logger.writes l) else Logger.writes l)
         | Logger.AddRowRaises =>
             Logger.mkState (Some rows) (Logger.serialNumber l)
                            (Logger.jobData l ++ [e]) (Logger.writes l)
         | Logger.StylingRaises =>
             Logger.mkState (Some (rows ++ [(e, None)])) (Logger.serialNumber l)
                            (Logger.jobData l ++ [e]) (Logger.writes l)
         end.
Proof.
  intros Hw. unfold Logger.logCall, Logger.logJob. rewrite Hw.
  eexists. split; [| split]; [| | destruct (Logger.c_sheet c); reflexivity];
    reflexivity.
Qed.

Lemma div5_succ (n : nat) : S n / 5 = if S n mod 5 =? 0 then S (n / 5) else n / 5.
Proof.
  pose proof (Nat.div_mod_eq (S n) 5). pose proof (Nat.div_mod_eq n 5).
  pose proof (Nat.mod_upper_bound n 5). pose proof (Nat.mod_upper_bound (S n) 5).
  destruct (S n mod 5 =? 0) eqn:Hm;
    [apply Nat.eqb_eq in Hm | apply Nat.eqb_neq in Hm]; lia.
Qed.

Lemma numbered_app (n : nat) (rows rows' : list (Logger.JobEntry * option string)) :
  numbered n (rows ++ rows')
  <-> numbered n rows /\ numbered (n + length (filter styled rows)) rows'.
Proof.
  revert n. induction rows as [| r rows IH]; intros n; cbn [app numbered filter length].
  - rewrite Nat.add_0_r. tauto.
  - rewrite IH. destruct (styled r); cbn [length];
      rewrite ?Nat.add_succ_r; cbn [Nat.add]; tauto.
Qed.

(** The rows whose styling went through bear the numbers from [n] on, each
    once. *)
Lemma numbered_styled (n : nat) (rows : list (Logger.JobEntry * option string)) :
  numbered n rows ->
  map (fun r => Logger.serialNo (fst r)) (filter styled rows)
  = seq n (length (filter styled rows)).
Proof.
  revert n. induction rows as [| r rows IH]; intros n; cbn [numbered filter];
    [reflexivity |].
  intros [Hr Hrest]. destruct (styled r); cbn [map length seq].
  - rewrite Hr, (IH _ Hrest). reflexivity.
  - apply IH, Hrest.
Qed.

(** What a series of calls leaves of a logger whose worksheet is there. *)
Lemma logAll_invariant (calls : list Logger.Call) (l : Logger.State)
  (rows : list (Logger.JobEntry * option string)) :
  Logger.worksheet l = Some rows ->
  Logger.serialNumber l = S (length (filter styled rows)) ->
  numbered 1 rows ->
  Logger.writes l = Logger.serialNumber l / 5 ->
  exists rows',
    Logger.worksheet (Logger.logAll calls l) = Some (rows ++ rows')
    /\ length rows' = length (filter Logger.c_rowAdded calls)
    /\ length (filter styled rows') = length (filter Logger.c_sheetOk calls)
    /\ Logger.serialNumber (Logger.logAll calls l)
       = S (length (filter styled (rows ++ rows')))
    /\ numbered 1 (rows ++ rows')
    /\ Logger.writes (Logger.logAll calls l)
       = Logger.serialNumber (Logger.logAll calls l) / 5
    /\ length (Logger.jobData (Logger.logAll calls l))
       = length (Logger.jobData l) + length calls.
Proof.
  revert l rows. induction calls as [| c calls IH]; intros l rows Hw Hs Hn Hf.
  - exists []. rewrite app_nil_r. cbn. repeat split; auto.
  - cbn [Logger.logAll fold_left].
    change (fold_left Logger.logCall calls (Logger.logCall l c))
      with (Logger.logAll calls (Logger.logCall l c)).
    destruct (logCall_cases l rows c Hw) as [e [He [_ Hc]]]. rewrite Hc.
    assert (Ha : Logger.c_rowAdded c
                 = match Logger.c_sheet c with Logger.AddRowRaises => false | _ => true end)
      by reflexivity.
    assert (Hb : Logger.c_sheetOk c
                 = match Logger.c_sheet c with Logger.Written => true | _ => false end)
      by reflexivity.
    cbn [filter]. rewrite Ha, Hb. clear Ha Hb.
    destruct (Logger.c_sheet c).
    + edestruct (IH (Logger.mkState
                       (Some (rows ++ [(e, Some (Logger.fillColor (Logger.c_status c)))]))
                       (S (Logger.serialNumber l)) (Logger.jobData l ++ [e])
                       (if S (Logger.serialNumber l) mod 5 =? 0
                        then S (Logger.writes l) else Logger.writes l)))
        as [rows' [Hw' [Hl' [Hk' [Hs' [Hn' [Hf' Hd']]]]]]].
      * reflexivity.
      * cbn [Logger.serialNumber]. rewrite filter_app, length_app, Hs. cbn. lia.
      * apply numbered_app. split; [exact Hn |]. cbn [numbered fst].
        split; [| exact I]. rewrite He, Hs. reflexivity.
      * cbn [Logger.writes Logger.serialNumber]. rewrite Hf. symmetry. apply div5_succ.
      * exists ((e, Some (Logger.fillColor (Logger.c_status c))) :: rows').
        rewrite <- app_assoc in Hw', Hs', Hn'. cbn [app] in Hw', Hs', Hn'.
        split; [exact Hw' |]. split; [cbn; lia |]. split; [cbn; lia |].
        split; [exact Hs' |]. split; [exact Hn' |]. split; [exact Hf' |].
        rewrite Hd'. cbn [Logger.jobData]. rewrite length_app. cbn. lia.
    + edestruct (IH (Logger.mkState (Some rows) (Logger.serialNumber l)
                                    (Logger.jobData l ++ [e]) (Logger.writes l)) rows)
        as [rows' [Hw' [Hl' [Hk' [Hs' [Hn' [Hf' Hd']]]]]]]; try assumption;
        try reflexivity.
      exists rows'. repeat split; try assumption.
      rewrite Hd'. cbn [Logger.jobData]. rewrite length_app. cbn. lia.
    + edestruct (IH (Logger.mkState (Some (rows ++ [(e, None)])) (Logger.serialNumber l)
                                    (Logger.jobData l ++ [e]) (Logger.writes l)))
        as [rows' [Hw' [Hl' [Hk' [Hs' [Hn' [Hf' Hd']]]]]]].
      * reflexivity.
      * cbn [Logger.serialNumber]. rewrite filter_app, length_app, Hs. cbn. lia.
      * apply numbered_app. split; [exact Hn |]. cbn [numbered fst].
        split; [| exact I]. rewrite He, Hs. reflexivity.
      * exact Hf.
      * exists ((e, None) :: rows').
        rewrite <- app_assoc in Hw', Hs', Hn'. cbn [app] in Hw', Hs', Hn'.
        split; [exact Hw' |]. split; [cbn; lia |]. split; [exact Hk' |].
        split; [exact Hs' |]. split; [exact Hn' |]. split; [exact Hf' |].
        rewrite Hd'. cbn [Logger.jobData]. rewrite length_app. cbn. lia.
Qed.

(** X5. After any series of calls of logJob on the logger beforeAll set
    up, the worksheet holds one row for each call whose addRow went through,
    and every call left one entry in jobData, also those whose row was lost.
    A row bears the number the counter had when it was added, and the counter
    goes on only after a row that was also styled: the styled rows are
    numbered 1, 2, 3 and so on without a gap, a row whose styling raised
    bears the number of the row that follows it, and totalEntries of
    getLogSummary is the number of styled rows, not of rows. *)
Theorem logJob_numbers_rows (calls : list Logger.Call) :
  exists rows,
    Logger.worksheet (Logger.logAll calls readyLogger) = Some rows
    /\ length rows = length (filter Logger.c_rowAdded calls)
    /\ numbered 1 rows
    /\ map (fun r => Logger.serialNo (fst r)) (filter styled rows)
       = seq 1 (Logger.totalEntries (Logger.logAll calls readyLogger))
    /\ Logger.totalEntries (Logger.logAll calls readyLogger)
       = length (filter Logger.c_sheetOk calls)
    /\ length (Logger.jobData (Logger.logAll calls readyLogger)) = length calls.
Proof.
  destruct (logAll_invariant calls readyLogger [])
    as [rows [Hw [Hl [Hk [Hs [Hn [_ Hd]]]]]]]; try reflexivity.
  cbn [app] in *. exists rows.
  assert (Ht : Logger.totalEntries (Logger.logAll calls readyLogger)
               = length (filter styled rows))
    by (unfold Logger.totalEntries; rewrite Hs; lia).
  split; [exact Hw |]. split; [exact Hl |]. split; [exact Hn |].
  split; [rewrite Ht; apply numbered_styled, Hn |].
  split; [rewrite Ht; exact Hk | exact Hd].
Qed.

(** Two calls, the first of which fails while its row is styled: both rows
    bear the number 1, and totalEntries is 1. *)
Example logJob_repeats_a_number :
  let call := fun sheet => Logger.mkCall "11/2/2026, 9:00:00 AM" sheet "QA Engineer"
                                         "Acme" "Success - Applied" None None in
  let l := Logger.logAll [call Logger.StylingRaises; call Logger.Written] readyLogger in
  option_map (map (fun r => Logger.serialNo (fst r))) (Logger.worksheet l) = Some [1; 1]
  /\ Logger.totalEntries l = 1.
Proof. split; reflexivity. Qed.


(** * The counters of the run *)

Lemma tally_step (stats : Stats) (r : JobResult) :
  st_total (tally stats r) = S (st_total stats)
  /\ outcomes (tally stats r) = S (outcomes stats)
  /\ verdicts (tally stats r) = verdicts stats + (if hasVerdict r then 1 else 0).
Proof.
  unfold tally, outcomes, verdicts, hasVerdict.
  destruct (success r), (isTrue (alreadyApplied r)), (isTrue (skipped r)),
    (llmResult r) as [[[] rs] |]; cbn; repeat split; lia.
Qed.

(** X8. Counting a list of results adds its length to stats.total and to
    the sum of the four outcome counters, so each result is counted under
    exactly one of applied, failed, skipped and alreadyApplied; the three
    verdict counters grow by the number of results that carry a verdict
    MATCH, PARTIAL_MATCH or NO_MATCH, and the verdicts SKIPPED_LLM and ERROR
    are counted nowhere. *)
Theorem tally_counts_each_result_once (results : list JobResult) (stats : Stats) :
  st_total (fold_left tally results stats) = st_total stats + length results
  /\ outcomes (fold_left tally results stats) = outcomes stats + length results
  /\ verdicts (fold_left tally results stats)
     = verdicts stats + length (filter hasVerdict results).
Proof.
  revert stats. induction results as [| r results IH]; intros stats.
  - cbn. repeat split; lia.
  - cbn [fold_left filter length].
    destruct (IH (tally stats r)) as [Ht [Ho Hv]].
    destruct (tally_step stats r) as [Ht1 [Ho1 Hv1]].
    rewrite Ht, Ho, Hv, Ht1, Ho1, Hv1.
    destruct (hasVerdict r); cbn [length]; repeat split; lia.
Qed.

(** * matchesSearchCriteria *)

Lemma lowerChar_idem (c : ascii) : Js.lowerChar (Js.lowerChar c) = Js.lowerChar c.
Proof.
  destruct c as [[] [] [] [] [] [] [] []]; reflexivity.
Qed.

Lemma toLowerCase_idem (s : string) :
  Js.toLowerCase (Js.toLowerCase s) = Js.toLowerCase s.
Proof.
  induction s as [| c s IH]; cbn; [reflexivity |].
  rewrite lowerChar_idem, IH. reflexivity.
Qed.

Lemma truthy_toLowerCase (s : string) : Js.truthy (Js.toLowerCase s) = Js.truthy s.
Proof. destruct s; reflexivity. Qed.

(** X9. The test of the title against the search terms does not depend
    on the case of the letters: two titles with the same lower-case form get
    the same answer and the same matching terms, and a title in any case gets
    the answer of its lower-case form. *)
Theorem matchesSearchCriteria_ignores_case (t u : string) :
  Js.toLowerCase t = Js.toLowerCase u ->
  matchesSearchCriteria t = matchesSearchCriteria u
  /\ matchesSearchCriteria (Js.toLowerCase t) = matchesSearchCriteria t.
Proof.
  intros E.
  assert (H : forall a b, Js.toLowerCase a = Js.toLowerCase b ->
                          matchesSearchCriteria a = matchesSearchCriteria b).
  { intros a b Eab. unfold matchesSearchCriteria.
    rewrite <- (truthy_toLowerCase a), <- (truthy_toLowerCase b), Eab.
    reflexivity. }
  split; [apply H; exact E | apply H, toLowerCase_idem].
Qed.

Lemma matchesSearchCriteria_ignores_case_witness :
  matchesSearchCriteria "SENIOR qa ENGINEER" = matchesSearchCriteria "Senior QA Engineer"
  /\ matchesSearchCriteria (Js.toLowerCase "SENIOR qa ENGINEER")
     = matchesSearchCriteria "SENIOR qa ENGINEER".
Proof.
  apply (matchesSearchCriteria_ignores_case "SENIOR qa ENGINEER" "Senior QA Engineer").
  reflexivity.
Defined.


(** * getCVKeywords *)

Lemma trimEnd_idem (s : string) : Js.trimEnd (Js.trimEnd s) = Js.trimEnd s.
Proof.
  induction s as [| c s IH]; [reflexivity |].
  cbn [Js.trimEnd]. destruct (Js.trimEnd s) as [| d t] eqn:Ht.
  - destruct (Js.isSpace c) eqn:Hc; [reflexivity |].
    cbn [Js.trimEnd]. rewrite Hc. reflexivity.
  - cbn [Js.trimEnd] in *. rewrite IH. reflexivity.
Qed.

Lemma trimStart_head (s : string) :
  match Js.trimStart s with
  | EmptyString => True
  | String c _ => Js.isSpace c = false
  end.
Proof.
  induction s as [| c s IH]; cbn [Js.trimStart]; [exact I |].
  destruct (Js.isSpace c) eqn:Hc; [exact IH | exact Hc].
Qed.

Lemma trimStart_trimEnd (t : string) :
  match t with EmptyString => True | String c _ => Js.isSpace c = false end ->
  Js.trimStart (Js.trimEnd t) = Js.trimEnd t.
Proof.
  destruct t as [| c t]; [reflexivity |]. intros Hc.
  cbn [Js.trimEnd]. destruct (Js.trimEnd t); rewrite ?Hc; cbn [Js.trimStart];
    rewrite Hc; reflexivity.
Qed.

Lemma trim_idem (s : string) : Js.trim (Js.trim s) = Js.trim s.
Proof.
  unfold Js.trim. rewrite (trimStart_trimEnd _ (trimStart_head s)).
  apply trimEnd_idem.
Qed.

Lemma keywordsOf_clean (responseContent : string) :
  Forall (fun kw => 1 < String.length kw /\ Js.trim kw = kw)
         (keywordsOf responseContent).
Proof.
  unfold keywordsOf. apply Forall_forall. intros kw Hin.
  apply filter_In in Hin. destruct Hin as [Hin Hlen].
  apply in_map_iff in Hin. destruct Hin as [line [<- _]].
  split; [apply Nat.ltb_lt; exact Hlen | apply trim_idem].
Qed.

Section KeywordFacts.

Context {W : Type} (B : Browser W).
Variable groq_keywords : string -> W -> res (option string) * W.

(** X10. getCVKeywords never raises and records no call.  Without a Groq
    client or with an empty CV it answers the empty list and asks nothing;
    it answers the empty list when the request is rejected, when the answer
    has no content, and when the answer is the sentence no relevant skills
    found in any case of letters. *)
Theorem getCVKeywords_failure_is_empty (cvText : string) (w : W) :
  let o := getCVKeywords B groq_keywords cvText w in
  exists kws,
    value o = Ok kws
    /\ events o = []
    /\ (groqClient W B = false \/ cvText = EmptyString -> kws = [] /\ final o = w)
    /\ (forall msg w1, groq_keywords cvText w = (Throw msg, w1) -> kws = [])
    /\ (forall w1, groq_keywords cvText w = (Ok None, w1) -> kws = [])
    /\ (forall s w1, groq_keywords cvText w = (Ok (Some s), w1) ->
                     s = EmptyString
                     \/ Js.toLowerCase s = "no relevant skills found" ->
                     kws = []).
Proof.
  cbv zeta. unfold getCVKeywords.
  destruct (groqClient W B) eqn:Hg; cbn [negb orb].
  2:{ exists []. repeat split; reflexivity. }
  destruct cvText as [| c cv]; cbn [Js.truthy negb].
  { exists []. repeat split; reflexivity. }
  unfold tryCatch, bind, ask, ret.
  destruct (groq_keywords (String c cv) w) as [[[s |] | msg] w1] eqn:E; cbn.
  - destruct (negb (Js.truthy s)
              || String.eqb (Js.toLowerCase s) "no relevant skills found") eqn:Hs; cbn.
    + exists []. split; [reflexivity |]. split; [reflexivity |].
      split; [intros [H | H]; discriminate |]. repeat split; reflexivity.
    + exists (keywordsOf s). split; [reflexivity |]. split; [reflexivity |].
      split; [intros [H | H]; discriminate |].
      split; [intros msg w2 H; discriminate |].
      split; [intros w2 H; discriminate |].
      intros s' w2 H Hempty. injection H as <- _.
      apply orb_false_iff in Hs. destruct Hs as [Ht Hn].
      destruct Hempty as [-> | Hlow]; [discriminate |].
      rewrite Hlow in Hn. discriminate.
  - exists []. split; [reflexivity |]. split; [reflexivity |].
    split; [intros [H | H]; discriminate |]. repeat split; reflexivity.
  - exists []. split; [reflexivity |]. split; [reflexivity |].
    split; [intros [H | H]; discriminate |]. repeat split; reflexivity.
Qed.

(** X11. Every keyword getCVKeywords returns is a trimmed line: it has
    no white space at either end, and at least two characters. *)
Theorem getCVKeywords_keywords_are_trimmed (cvText : string) (w : W) :
  exists kws,
    value (getCVKeywords B groq_keywords cvText w) = Ok kws
    /\ Forall (fun kw => 1 < String.length kw /\ Js.trim kw = kw) kws.
Proof.
  unfold getCVKeywords.
  destruct (negb (groqClient W B) || negb (Js.truthy cvText)).
  { exists []. split; [reflexivity | constructor]. }
  unfold tryCatch, bind, ask, ret.
  destruct (groq_keywords cvText w) as [[[s |] | msg] w1]; cbn;
    try (exists []; split; [reflexivity | constructor]).
  destruct (negb (Js.truthy s)
            || String.eqb (Js.toLowerCase s) "no relevant skills found"); cbn.
  - exists []. split; [reflexivity | constructor].
  - exists (keywordsOf s). split; [reflexivity | apply keywordsOf_clean].
Qed.

End KeywordFacts.

(** * What the result of applyToJob says about the clicks *)

Section ApplyResult.

Context {W : Type} (B : Browser W).

(** The apply loop answers true only after a click on one of its controls
    went through. *)
Lemma applyLoop_true_clicked (page : Page) (sels : list string) (acc : bool) (w : W) :
  value (applyLoop B page sels acc w) = Ok true ->
  acc = true
  \/ exists sel, In sel sels
                 /\ In (EvClick page sel (Ok tt)) (events (applyLoop B page sels acc w)).
Proof.
  revert acc w. induction sels as [| sel rest IH]; intros acc w; cbn [applyLoop].
  - cbn. intros H. left. congruence.
  - unfold applyStep, isVisible, click, waitForTimeout, bind, tryCatch, call, ret.
    cbn.
    destruct (locator_isVisible W B page sel 2000 w) as [[[|] | msg] w1]; cbn.
    + destruct (locator_click W B page sel w1) as [[[] | msg] w2]; cbn.
      * intros _. right. exists sel. split; [now left |].
        destruct (page_waitForTimeout W B page 3000 w2) as [[[] | msg] w3]; cbn.
        -- right. now left.
        -- destruct (applyLoop B page rest true w3). cbn. right. now left.
      * specialize (IH acc w2). destruct (applyLoop B page rest acc w2) as [v s es].
        cbn in *. intros H. destruct (IH H) as [-> | [s' [Hin Hev]]]; [now left |].
        right. exists s'. split; [now right | now right; right].
    + specialize (IH acc w1). destruct (applyLoop B page rest acc w1) as [v s es].
      cbn in *. intros H. destruct (IH H) as [-> | [s' [Hin Hev]]]; [now left |].
      right. exists s'. split; [now right | now right].
    + specialize (IH acc w1). destruct (applyLoop B page rest acc w1) as [v s es].
      cbn in *. intros H. destruct (IH H) as [-> | [s' [Hin Hev]]]; [now left |].
      right. exists s'. split; [now right | now right].
Qed.

Lemma applyToJob_applied_clicked (page : Page) (w : W) :
  value (applyToJob B page w) = Ok applied ->
  exists sel, In sel applySelectors
              /\ In (EvClick page sel (Ok tt)) (events (applyToJob B page w)).
Proof.
  unfold applyToJob.
  generalize (alreadyAppliedLoop_spec B page alreadyAppliedSelectors).
  generalize (applyLoop_spec B page applySelectors false).
  generalize (applyLoop_true_clicked page applySelectors false).
  generalize (clickFirstLoop_total B page nextSelectors 3000).
  generalize (clickFirstLoop_total B page submitSelectors 4000).
  generalize (confirmationLoop_total B page confirmationSelectors).
  generalize alreadyAppliedSelectors applySelectors nextSelectors submitSelectors
    confirmationSelectors.
  intros la lb ln ls lc Hct Hst Hnt Hclk Hb Ha.
  unfold isClosed, url, waitForTimeout, bind, tryCatch, call, emit, gets, ret. cbn.
  destruct (page_isClosed W B page w); cbn; [discriminate |].
  destruct (page_waitForTimeout W B page 2000 w) as [[[] | msg] w1]; cbn;
    [| discriminate].
  specialize (Ha w1). cbv zeta in Ha.
  destruct (alreadyAppliedLoop B page la w1) as [va sa ea]. cbn in Ha.
  destruct Ha as [[ba [-> _]] _].
  destruct ba; cbn; [discriminate |].
  specialize (Hb sa). specialize (Hclk sa). cbv zeta in Hb.
  destruct (applyLoop B page lb false sa) as [vb sb eb]. cbn in Hb, Hclk.
  destruct Hb as [[bb [-> _]] _].
  destruct bb; cbn; [| discriminate].
  destruct (Hclk eq_refl) as [Habs | [sel [Hin Hev]]]; [discriminate |].
  intros _. exists sel. split; [exact Hin |].
  specialize (Hnt sb).
  destruct (clickFirstLoop B page ln 3000 sb) as [vn sn en]. cbn in Hnt.
  destruct Hnt as [[] ->]. cbn.
  specialize (Hst sn).
  destruct (clickFirstLoop B page ls 4000 sn) as [vs ss es]. cbn in Hst.
  destruct Hst as [[] ->]. cbn.
  specialize (Hct ss).
  destruct (confirmationLoop B page lc ss) as [vc sc ec]. cbn in Hct.
  destruct Hct as [bc ->].
  assert (Hgoal : forall tl, In (EvClick page sel (Ok tt))
                    (EvEnter (FnApplyToJob page)
                     :: EvWaitForTimeout page 2000 (Ok tt) :: ea ++ eb ++ tl)).
  { intros tl. right. right. apply in_or_app. right. apply in_or_app. now left. }
  destruct bc; cbn; [apply Hgoal |].
  destruct (urlIndicatesSuccess (page_url W B page sc)); cbn; apply Hgoal.
Qed.

(** X12. applyToJob never raises, and its result tells what was clicked:
    a failure means that no click went through at all; a fresh application,
    success without alreadyApplied, means that a click on one of the apply
    controls went through. *)
Theorem applyToJob_result_reflects_clicks (page : Page) (w : W) :
  let o := applyToJob B page w in
  exists r,
    value o = Ok r
    /\ (a_success r = false -> Forall notClicked (events o))
    /\ (a_success r = true ->
        a_alreadyApplied r = Some true
        \/ exists sel, In sel applySelectors
                       /\ In (EvClick page sel (Ok tt)) (events o)).
Proof.
  cbv zeta.
  pose proof (applyToJob_applied_clicked page w) as Hclk.
  destruct (applyToJob_cases B page w) as
    [[why [Hv Hev]] | [ea [Hpa [[Hv [Hev _]] | [_ [eb [_ [[Hv [Hnc Hev]] | [Hv _]]]]]]]]];
    cbv zeta in *; rewrite Hv in *.
  - exists (notApplied why). split; [reflexivity |]. split; [| discriminate].
    intros _. destruct Hev as [-> | [msg ->]];
      repeat (constructor; [intros p s; discriminate |]); constructor.
  - exists appliedBefore. split; [reflexivity |]. split; [discriminate |].
    intros _. now left.
  - exists (notApplied "No Apply button found"). split; [reflexivity |].
    split; [| discriminate].
    intros _. rewrite Hev.
    constructor; [intros p s; discriminate |].
    constructor; [intros p s; discriminate |].
    apply Forall_app. split; [| exact Hnc].
    eapply Forall_impl; [| exact Hpa].
    intros e [s [r [_ ->]]] p s'. discriminate.
  - exists applied. split; [reflexivity |]. split; [discriminate |].
    intros _. right. apply Hclk. reflexivity.
Qed.

End ApplyResult.

(** * safeGoto for any number of retries *)

Section NavigationFacts.

Context {W : Type} (B : Browser W).

(** A round of the loop raises only from the wait of its [catch] block. *)
Lemma safeGoto_round_raises (page : Page) (u : string) (retries attempt : nat)
  (w : W) (msg : string) :
  let o := tryCatch (safeGoto_try B page u)
                    (fun _ => safeGoto_catch B page retries attempt) w in
  value o = Throw msg ->
  attempt < retries
  /\ exists before, events o = before ++ [EvWaitForTimeout page 3000 (Throw msg)].
Proof.
  cbv zeta.
  unfold safeGoto_try, safeGoto_catch, isClosed, goto, waitForTimeout, title,
    tryCatch, bind, call, gets, ret.
  repeat run_step; cbn; intros Hv; try discriminate;
    injection Hv as ->;
    (split;
     [ match goal with
       | H : _ && _ = true |- _ =>
           apply andb_true_iff in H; destruct H as [H _];
           destruct retries; [discriminate |]; apply Nat.leb_le in H; lia
       end
     | match goal with
       | |- exists before, ?l = before ++ [_] => exists (removelast l); reflexivity
       end ]).
Qed.

Lemma safeGoto_loop_raises (page : Page) (u : string) (retries : nat)
  (attempts : list nat) (w : W) (msg : string) :
  let o := safeGoto_loop B page u retries attempts w in
  value o = Throw msg ->
  0 < retries
  /\ exists before, events o = before ++ [EvWaitForTimeout page 3000 (Throw msg)].
Proof.
  cbv zeta. revert w. induction attempts as [| attempt rest IH]; intros w.
  - cbn. discriminate.
  - cbn [safeGoto_loop]. unfold bind.
    pose proof (safeGoto_round_raises page u retries attempt w) as Hr. cbv zeta in Hr.
    destruct (tryCatch (safeGoto_try B page u)
                       (fun _ => safeGoto_catch B page retries attempt) w)
      as [v s1 es1].
    cbn [value events] in Hr.
    destruct v as [[b |] | m]; cbn.
    + discriminate.
    + specialize (IH s1).
      destruct (safeGoto_loop B page u retries rest s1) as [v2 s2 es2].
      cbn in *. intros Hv. destruct (IH Hv) as [Hpos [before ->]].
      split; [exact Hpos |]. exists (es1 ++ before). apply app_assoc.
    + intros Hv. injection Hv as ->. destruct (Hr msg eq_refl) as [Hlt Hev].
      split; [lia | exact Hev].
Qed.

(** X13. For every number of retries safeGoto loads the page at most
    retries + 1 times; it answers true only after a load that went through
    and a title that is not empty; and on a page that is closed it answers
    false at once, without a single call. *)
Theorem safeGoto_attempts_bounded (page : Page) (u : string) (retries : nat) (w : W) :
  let o := safeGoto B page u retries w in
  loads (events o) <= retries + 1
  /\ (value o = Ok true ->
      In (EvGoto page u (Ok tt)) (events o)
      /\ exists t, t <> EmptyString /\ In (EvTitle page (Ok t)) (events o))
  /\ (page_isClosed W B page w = true -> value o = Ok false /\ events o = []).
Proof.
  cbv zeta.
  destruct (safeGoto_loop_facts B page u retries (seq 0 (S retries)) w)
    as [Hl [Ht [Hc _]]].
  rewrite length_seq in Hl. unfold safeGoto.
  split; [lia |]. split; [exact Ht | exact Hc].
Qed.

(** X14. safeGoto raises from one place only, the three-second wait
    between two attempts: when it raises, the last call of the run is that
    wait, rejected with the message safeGoto raises; with no retries, there
    being no such wait, it never raises. *)
Theorem safeGoto_raises_only_from_backoff (page : Page) (u : string)
  (retries : nat) (w : W) (msg : string) :
  let o := safeGoto B page u retries w in
  value o = Throw msg ->
  0 < retries
  /\ exists before, events o = before ++ [EvWaitForTimeout page 3000 (Throw msg)].
Proof. exact (safeGoto_loop_raises page u retries (seq 0 (S retries)) w msg). Qed.

End NavigationFacts.

(** The page that is lost while the script waits. *)
Lemma safeGoto_raises_only_from_backoff_witness :
  0 < 2
  /\ exists before,
       events (safeGoto Worlds.lostPage 1 "https://www.dice.com/dashboard/login" 2 0)
       = before ++ [EvWaitForTimeout 1 3000 (Throw "Target page has been closed")].
Proof.
  apply (safeGoto_raises_only_from_backoff
           Worlds.lostPage 1 "https://www.dice.com/dashboard/login" 2 0
           "Target page has been closed").
  reflexivity.
Defined.

(** * The scorer without an answer *)

Section ScorerFacts.

Context {W : Type} (B : Browser W).

Lemma classifyResponse_verdicts (r : option string) :
  match_ (classifyResponse r) = MATCH \/ match_ (classifyResponse r) = NO_MATCH.
Proof.
  pose proof (classifyResponse_never_partial r) as Hp. revert Hp.
  unfold classifyResponse. destruct r as [s |]; [| now right].
  destruct (Js.truthy s && Js.includes (Js.toLowerCase s) "match"); [now left |].
  destruct (Js.truthy s && Js.includes (Js.toLowerCase s) "partial_match");
    [cbn; congruence | now right].
Qed.

(** X15. checkJobMatchWithLLM never raises.  Without a Groq client, with
    no keyword or with an empty description it asks nothing, leaves the
    world as it was and answers SKIPPED_LLM.  Otherwise it asks once; the
    verdict is ERROR exactly when that request is rejected, and the reason
    then carries the message of the rejection. *)
Theorem checkJobMatchWithLLM_skips_and_errors (cvKeywords : list string)
  (jobDescription : string) (w : W) :
  let o := checkJobMatchWithLLM B cvKeywords jobDescription w in
  exists m,
    value o = Ok m
    /\ (groqClient W B = false \/ cvKeywords = [] \/ jobDescription = EmptyString ->
        m = mkLlm SKIPPED_LLM (Some "Missing data or LLM client")
        /\ final o = w
        /\ forall k d r, ~ In (EvGroq k d r) (events o))
    /\ (groqClient W B = true -> cvKeywords <> [] -> jobDescription <> EmptyString ->
        exists r, events o = [EvEnter FnCheckJobMatchWithLLM;
                              EvGroq cvKeywords jobDescription r;
                              EvVerdict m]
                  /\ match r with
                     | Ok _ => match_ m = MATCH \/ match_ m = NO_MATCH
                     | Throw msg => m = mkLlm ERROR (Some ("Groq API error: " +++ msg))
                     end).
Proof.
  cbv zeta. unfold checkJobMatchWithLLM, groqCreate, bind, tryCatch, call, emit, ret.
  cbn.
  destruct (groqClient W B) eqn:Hg; cbn [negb orb].
  2:{ cbn. eexists. split; [reflexivity |]. split; [| intros H; discriminate H].
      intros _. split; [reflexivity |]. split; [reflexivity |].
      intros k d r [H | [H | []]]; discriminate. }
  destruct cvKeywords as [| kw kws]; cbn [length Nat.eqb orb].
  { cbn. eexists. split; [reflexivity |]. split; [| congruence].
    intros _. split; [reflexivity |]. split; [reflexivity |].
    intros k d r [H | [H | []]]; discriminate. }
  destruct jobDescription as [| c d]; cbn [Js.truthy negb].
  { cbn. eexists. split; [reflexivity |]. split; [| congruence].
    intros _. split; [reflexivity |]. split; [reflexivity |].
    intros k d r [H | [H | []]]; discriminate. }
  destruct (groq_create W B (kw :: kws) (String c d) w) as [[r | msg] w1]; cbn.
  - eexists. split; [reflexivity |].
    split; [intros [H | [H | H]]; discriminate |].
    intros _ _ _. exists (Ok r). split; [reflexivity | apply classifyResponse_verdicts].
  - eexists. split; [reflexivity |].
    split; [intros [H | [H | H]]; discriminate |].
    intros _ _ _. exists (Throw msg). split; reflexivity.
Qed.

End ScorerFacts.

(** * The row processJob logs *)

Lemma statuses_app (es es' : list Event) :
  statuses (es ++ es') = statuses es ++ statuses es'.
Proof. apply flat_map_app. Qed.

Lemma statuses_nil (es : list Event) : Forall notLog es -> statuses es = [].
Proof.
  induction 1 as [| e es He _ IH]; [reflexivity |].
  unfold statuses in *. cbn [flat_map]. rewrite IH.
  destruct e; try reflexivity.
  exfalso. eapply He. reflexivity.
Qed.

Lemma statuses_cons (e : Event) (es : list Event) :
  statuses (e :: es)
  = match e with EvLogJob _ _ s _ _ => [s] | _ => [] end ++ statuses es.
Proof. reflexivity. Qed.

Lemma isApply_notLog (page : Page) (e : Event) : isApply page e -> notLog e.
Proof. intros H t c s l u ->. exact H. Qed.

Lemma isScoring_notLog (e : Event) : isScoring e -> notLog e.
Proof. intros H t c s l u ->. exact H. Qed.

Lemma isRead_notLog (e : Event) : isRead e -> notLog e.
Proof. intros H t c s l u ->. exact H. Qed.

Section Rows.

Context {W : Type} (B : Browser W).

Lemma applyToJob_results (page : Page) (w : W) :
  exists ar,
    value (applyToJob B page w) = Ok ar
    /\ (ar = applied \/ ar = appliedBefore \/ exists why, ar = notApplied why).
Proof.
  destruct (applyToJob_cases B page w) as
    [[why [Hv _]] | [ea [_ [[Hv _] | [_ [eb [_ [[Hv _] | [Hv _]]]]]]]]];
    cbv zeta in *; rewrite Hv; eexists; (split; [reflexivity |]); eauto.
Qed.

Lemma applyToJob_silent (page : Page) (w : W) :
  statuses (events (applyToJob B page w)) = [].
Proof.
  apply statuses_nil. eapply Forall_impl; [| apply (applyToJob_applies B page w)].
  intros e. apply isApply_notLog.
Qed.

Lemma processJob_apply_reports (tab : Page) (title company : string)
  (pageUrl : option string) (jobDescription : string) (isInitialMatch : Criteria)
  (llmMatchResult : option LlmMatch) :
  reports (processJob_apply B tab title company pageUrl jobDescription isInitialMatch
                            llmMatchResult).
Proof.
  intros w. unfold processJob_apply.
  destruct (isAcceptance llmMatchResult
            || negb (Js.truthy jobDescription) && matches isInitialMatch
            || matches isInitialMatch).
  - unfold bind, logJob, emit, ret.
    destruct (applyToJob_results tab w) as [ar [Hv Har]].
    pose proof (applyToJob_silent tab w) as Hs.
    destruct (applyToJob B tab w) as [v w1 es1]. cbn in Hv, Hs. subst v.
    destruct Har as [-> | [-> | [why ->]]]; cbn;
      eexists; eexists; rewrite statuses_app, Hs;
      (split; [reflexivity |]); (split; [reflexivity |]);
      unfold agrees; cbn; eauto.
  - unfold bind, logJob, emit, ret. cbn. eexists; eexists.
    split; [reflexivity |]. split; [reflexivity |].
    unfold agrees. cbn. auto 10.
Qed.

Lemma processJob_decide_reports (cvKeywords : list string) (tab : Page)
  (title company : string) (pageUrl : option string) (jobDescription : string) :
  reports (processJob_decide B cvKeywords tab title company pageUrl jobDescription).
Proof.
  intros w. unfold processJob_decide.
  pose proof (processJob_apply_reports tab title company pageUrl jobDescription
                (matchesSearchCriteria title)) as Hap.
  destruct (negb (matches (matchesSearchCriteria title)) && Js.truthy jobDescription).
  - unfold bind.
    destruct (checkJobMatchWithLLM_total B cvKeywords jobDescription w) as [m Hm].
    pose proof (checkJobMatchWithLLM_scoring B cvKeywords jobDescription w) as Hsc.
    destruct (checkJobMatchWithLLM B cvKeywords jobDescription w) as [v w1 es1].
    cbn in Hm, Hsc. subst v.
    assert (Hs : statuses es1 = []).
    { apply statuses_nil. eapply Forall_impl; [| exact Hsc].
      intros e. apply isScoring_notLog. }
    destruct (isRejection m) eqn:Hrej.
    + unfold logJob, emit, ret. cbn. eexists; eexists.
      rewrite statuses_app, Hs. split; [reflexivity |]. split; [reflexivity |].
      unfold agrees. cbn. unfold isRejection in Hrej.
      destruct (match_ m); try discriminate; cbn; auto.
    + destruct (Hap (Some m) w1) as [r [status [Hv [Hst Hag]]]].
      destruct (processJob_apply B tab title company pageUrl jobDescription
                                 (matchesSearchCriteria title) (Some m) w1)
        as [v2 w2 es2].
      cbn in *. subst v2. exists r, status. rewrite statuses_app, Hs, Hst. auto.
  - destruct (negb (Js.truthy jobDescription)
              && negb (matches (matchesSearchCriteria title))).
    + unfold bind, logJob, emit, ret. cbn. eexists; eexists.
      split; [reflexivity |]. split; [reflexivity |].
      unfold agrees. cbn. auto 10.
    + apply Hap.
Qed.

Lemma processJob_onTab_rows (cvKeywords : list string) (tab : Page)
  (l : Locals) (w : W) :
  let o := processJob_onTab B cvKeywords tab (l, w) in
  (exists msg, value o = Throw msg /\ statuses (events o) = [])
  \/ (exists r status,
        value o = Ok r /\ statuses (events o) = [status] /\ agrees r status).
Proof.
  cbv zeta. unfold processJob_onTab.
  pose proof (extractWith_total B titleSelectors 3 "h1" "Unknown Job Title" tab
              : total (extractJobTitleFromDetailPage B tab)) as Htt.
  pose proof (extractWith_reads B titleSelectors 3 "h1" "Unknown Job Title" tab
              : emits isRead (extractJobTitleFromDetailPage B tab)) as Htr.
  pose proof (extractWith_total B companySelectors 2 companyLikeSelector
                                "Unknown Company" tab
              : total (extractCompanyName B tab)) as Hct.
  pose proof (extractWith_reads B companySelectors 2 companyLikeSelector
                                "Unknown Company" tab
              : emits isRead (extractCompanyName B tab)) as Hcr.
  pose proof (extractJobDescription_total B tab) as Hdt.
  pose proof (extractJobDescription_reads B tab) as Hdr.
  pose proof (processJob_decide_reports cvKeywords tab) as Hdec.
  revert Htt Htr Hct Hcr Hdt Hdr Hdec.
  generalize (extractJobTitleFromDetailPage B tab) (extractCompanyName B tab)
    (extractJobDescription B tab) (processJob_decide B cvKeywords tab).
  intros exTitle exCompany exDescription decide Htt Htr Hct Hcr Hdt Hdr Hdec.
  assert (Hread : forall es, Forall isRead es -> statuses es = []).
  { intros es H. apply statuses_nil. eapply Forall_impl; [| exact H].
    intros e. apply isRead_notLog. }
  unfold bind, lift, waitForLoadState, waitForTimeout, url, gets, call,
    setCurrentJobPageUrl, setJobTitle, setCompanyName, modify, ret.
  cbn.
  destruct (page_waitForLoadState W B tab w) as [[[] | msg] w1]; cbn.
  2:{ left. exists msg. split; reflexivity. }
  destruct (page_waitForTimeout W B tab 2000 w1) as [[[] | msg] w2]; cbn.
  2:{ left. exists msg. split; reflexivity. }
  destruct (Htt w2) as [t Ht]. specialize (Htr w2).
  destruct (exTitle w2) as [vt w3 est]. cbn in Ht, Htr. subst vt. cbn.
  destruct (Hct w3) as [c Hc]. specialize (Hcr w3).
  destruct (exCompany w3) as [vc w4 esc]. cbn in Hc, Hcr. subst vc. cbn.
  destruct (Hdt w4) as [d Hd]. specialize (Hdr w4).
  destruct (exDescription w4) as [vd w5 esd]. cbn in Hd, Hdr. subst vd. cbn.
  destruct (Hdec t c (Some (page_url W B tab w2)) d w5) as [r [status [Hv [Hst Hag]]]].
  destruct (decide t c (Some (page_url W B tab w2)) d w5) as [v w6 es6].
  cbn in Hv, Hst. subst v. cbn. right. exists r, status.
  split; [reflexivity |]. split; [| exact Hag].
  rewrite !statuses_cons, !statuses_app, (Hread _ Htr), (Hread _ Hcr), (Hread _ Hdr),
    Hst.
  reflexivity.
Qed.

(** The [try] block under its [catch] returns a result and logs one row. *)
Lemma processJob_guarded_reports (jobCard : Card) (cvKeywords : list string) :
  reports (tryCatch (processJob_try B jobCard cvKeywords) processJob_catch).
Proof.
  intros [l w].
  pose proof (processJob_onTab_rows cvKeywords) as Hon. cbv zeta in Hon.
  unfold processJob_try.
  revert Hon. generalize (processJob_onTab B cvKeywords). intros onTab Hon.
  unfold processJob_catch, tryCatch, bind, lift, contextPages, linkCount, openTab,
    isClosed, gets, call, logOutcome, getLocals, logJob, emit, setNewTab, modify, ret.
  cbn.
  assert (Hskip : forall r s, success r = false -> skipped r = Some true ->
                              In s skippedStatuses -> agrees r s).
  { intros r s H1 H2 H3. unfold agrees. rewrite H1, H2. exact H3. }
  assert (Hfail : forall why l, agrees (mkJob false (Some why) None None l)
                                       ("Failed - " +++ why)).
  { intros why l0. unfold agrees. cbn. eauto. }
  destruct (context_pages_length W B w =? 0); cbn.
  { eexists; eexists. split; [reflexivity |]. split; [reflexivity |].
    apply Hskip; cbn; auto. }
  destruct (card_linkCount W B jobCard w) as [[n | msg] w1]; cbn.
  2:{ eexists; eexists. split; [reflexivity |]. split; [reflexivity |]. apply Hfail. }
  destruct (n =? 0); cbn.
  { eexists; eexists. split; [reflexivity |]. split; [reflexivity |].
    apply (Hfail "No clickable link"). }
  destruct (card_openTab W B jobCard w1) as [[[tab |] | tab msg | msg] w2]; cbn.
  - destruct (page_isClosed W B tab w2); cbn.
    { eexists; eexists. split; [reflexivity |]. split; [reflexivity |].
      apply (Hfail "Tab opening error"). }
    specialize (Hon tab (mkLocals (Some tab) (jobTitle l) (companyName l)
                                  (currentJobPageUrl l)) w2).
    destruct (onTab tab (mkLocals (Some tab) (jobTitle l) (companyName l)
                                  (currentJobPageUrl l), w2)) as [v [l3 w3] es3].
    cbn in Hon. destruct Hon as [[msg [-> Hst]] | [r [status [-> [Hst Hag]]]]]; cbn.
    + eexists; eexists. split; [reflexivity |]. split; [| apply Hfail].
      rewrite !statuses_cons, statuses_app, Hst. reflexivity.
    + exists r, status. split; [reflexivity |]. split; [| exact Hag].
      rewrite !statuses_cons, ?statuses_app, ?app_nil_r. exact Hst.
  - eexists; eexists. split; [reflexivity |]. split; [reflexivity |].
    apply (Hfail "Tab opening error").
  - eexists; eexists. split; [reflexivity |]. split; [reflexivity |]. apply Hfail.
  - eexists; eexists. split; [reflexivity |]. split; [reflexivity |]. apply Hfail.
Qed.

(** The result of processJob and the statuses of its rows. *)
Lemma processJob_reports (jobCard : Card) (cardIndex : nat)
  (cvKeywords : list string) :
  reports (processJob B jobCard cardIndex cvKeywords).
Proof.
  intros w.
  destruct (processJob_cases B jobCard cardIndex cvKeywords w)
    as [Hv [closing [Hev [Hclosing _]]]].
  destruct (processJob_guarded_reports jobCard cvKeywords (initialLocals, w))
    as [r [status [Hg [Hst Hag]]]].
  cbv zeta in *. exists r, status.
  split; [rewrite Hv; exact Hg |]. split; [| exact Hag].
  rewrite Hev, statuses_cons, statuses_app, Hst.
  rewrite (statuses_nil closing); [reflexivity |].
  apply Forall_forall. intros e He t c s l u ->.
  destruct (Hclosing _ He) as [p [r' Hc]]. discriminate.
Qed.

End Rows.

Lemma failed_status_words (why word : string) :
  In word ["success"; "applied"; "skipped"] ->
  Js.includes (Js.toLowerCase ("Failed - " +++ why)) word
  = Js.includes (Js.toLowerCase why) word.
Proof.
  intros Hin.
  change (Js.toLowerCase ("Failed - " +++ why)) with ("failed - " +++ Js.toLowerCase why).
  generalize (Js.toLowerCase why). intros s.
  destruct Hin as [<- | [<- | [<- | []]]]; reflexivity.
Qed.

Lemma failed_status_failed (why : string) :
  Js.includes (Js.toLowerCase ("Failed - " +++ why)) "failed" = true.
Proof. reflexivity. Qed.

Section RowTheorems.

Context {W : Type} (B : Browser W).

(** X16. Every run of processJob returns a result, it never raises, and
    logs exactly one row; the status of the row is that of the result:
    Success - Applied or Already Applied for a success, one of the five
    Skipped statuses for a skipped job, and Failed - followed by the reason of
    the result for every other. *)
Theorem processJob_logs_its_result (jobCard : Card) (cardIndex : nat)
  (cvKeywords : list string) (w : W) :
  let o := processJob B jobCard cardIndex cvKeywords w in
  exists r status,
    value o = Ok r
    /\ statuses (events o) = [status]
    /\ (success r = true ->
        status = if isTrue (alreadyApplied r) then "Already Applied"
                 else "Success - Applied")
    /\ (success r = false -> isTrue (skipped r) = true -> In status skippedStatuses)
    /\ (success r = false -> isTrue (skipped r) = false ->
        exists why, reason r = Some why /\ status = "Failed - " +++ why).
Proof.
  cbv zeta.
  destruct (processJob_reports B jobCard cardIndex cvKeywords w)
    as [r [status [Hv [Hst Hag]]]].
  exists r, status. split; [exact Hv |]. split; [exact Hst |].
  unfold agrees in Hag.
  destruct (success r), (isTrue (alreadyApplied r)), (isTrue (skipped r));
    repeat split; intros; try discriminate; assumption.
Qed.

(** X17. The category the logger files the row of a job under is the
    counter the run counts the job under: success for a success, skipped for
    a skipped job, and failed for a failure, unless the reason of the failure
    itself names success, applied or skipped, which the logger reads first. *)
Theorem processJob_row_category (jobCard : Card) (cardIndex : nat)
  (cvKeywords : list string) (w : W) :
  let o := processJob B jobCard cardIndex cvKeywords w in
  exists r status,
    value o = Ok r
    /\ statuses (events o) = [status]
    /\ (success r = true -> Logger.categorizeStatus status = "success")
    /\ (success r = false -> isTrue (skipped r) = true ->
        Logger.categorizeStatus status = "skipped")
    /\ (success r = false -> isTrue (skipped r) = false ->
        Logger.categorizeStatus status = "failed"
        \/ exists why word,
             reason r = Some why
             /\ In word ["success"; "applied"; "skipped"]
             /\ Js.includes (Js.toLowerCase why) word = true).
Proof.
  cbv zeta.
  destruct (processJob_reports B jobCard cardIndex cvKeywords w)
    as [r [status [Hv [Hst Hag]]]].
  exists r, status. split; [exact Hv |]. split; [exact Hst |].
  unfold agrees in Hag.
  destruct (success r).
  - split; [| split; intros H; discriminate H].
    intros _. destruct (isTrue (alreadyApplied r)); subst status; reflexivity.
  - split; [intros H; discriminate H |].
    destruct (isTrue (skipped r)).
    + split; [| intros _ H; discriminate H].
      intros _ _. cbn in Hag.
      repeat (destruct Hag as [<- | Hag]; [reflexivity |]). destruct Hag.
    + split; [intros _ H; discriminate H |].
      intros _ _. destruct Hag as [why [Hr ->]].
      unfold Logger.categorizeStatus. cbv zeta.
      rewrite (failed_status_words why "success") by (cbn; auto).
      rewrite (failed_status_words why "applied") by (cbn; auto).
      rewrite (failed_status_words why "skipped") by (cbn; auto).
      destruct (Js.includes (Js.toLowerCase why) "success") eqn:Hs.
      { right. exists why, "success". cbn; auto. }
      destruct (Js.includes (Js.toLowerCase why) "applied") eqn:Ha.
      { right. exists why, "applied". cbn; auto. }
      cbn [orb].
      destruct (Js.includes (Js.toLowerCase ("Failed - " +++ why)) "already applied")
        eqn:Hal.
      { apply includes_already_applied in Hal.
        rewrite (failed_status_words why "applied") in Hal by (cbn; auto).
        congruence. }
      destruct (Js.includes (Js.toLowerCase why) "skipped") eqn:Hk.
      { right. exists why, "skipped". cbn; auto 6. }
      rewrite failed_status_failed. left. reflexivity.
Qed.

End RowTheorems.

(** * A job the scorer cannot score *)

Section Unscored.

Context {W : Type} (B : Browser W).

(** The deciding step on a verdict that is no verdict. *)
Lemma processJob_decide_unscored (cvKeywords : list string) (tab : Page)
  (title company : string) (pageUrl : option string) (jobDescription : string)
  (w : W) (m : LlmMatch) :
  let o := processJob_decide B cvKeywords tab title company pageUrl jobDescription w in
  In (EvVerdict m) (events o) ->
  match_ m = SKIPPED_LLM ->
  value o = Ok (mkJob false (Some "Skipped (No LLM Match or Fallback Failed)")
                      (Some true) None (Some m))
  /\ In (EvLogJob title company "Skipped (No LLM Match or Fallback Failed)"
                  (Some m) pageUrl) (events o)
  /\ (forall p, ~ In (EvEnter (FnApplyToJob p)) (events o)).
Proof.
  cbv zeta. unfold processJob_decide.
  destruct (negb (matches (matchesSearchCriteria title)) && Js.truthy jobDescription)
    eqn:Hllm.
  - apply andb_true_iff in Hllm. destruct Hllm as [Hno _].
    apply negb_true_iff in Hno.
    unfold bind.
    destruct (checkJobMatchWithLLM_verdict B cvKeywords jobDescription w)
      as [m0 [Hv [Hin0 Huniq]]].
    pose proof (checkJobMatchWithLLM_scoring B cvKeywords jobDescription w) as Hsc.
    destruct (checkJobMatchWithLLM B cvKeywords jobDescription w) as [v w1 es1].
    cbn in Hv, Hin0, Huniq, Hsc. subst v.
    assert (Hnone : forall p, ~ In (EvEnter (FnApplyToJob p)) es1).
    { intros p Hp. rewrite Forall_forall in Hsc. exact (Hsc _ Hp). }
    destruct (isRejection m0) eqn:Hrej.
    + unfold logJob, emit, ret. cbn. intros Hin Hm. exfalso.
      assert (m = m0) as ->.
      { apply in_app_or in Hin. destruct Hin as [Hin | Hin]; [auto |].
        cbn in Hin. destruct Hin as [Hin | []]. discriminate. }
      unfold isRejection in Hrej. rewrite Hm in Hrej. discriminate.
    + pose proof (processJob_apply_applying B tab title company pageUrl
                    jobDescription (matchesSearchCriteria title) (Some m0) w1) as Hap.
      destruct (processJob_apply B tab title company pageUrl jobDescription
                                 (matchesSearchCriteria title) (Some m0) w1)
        as [v2 w2 es2] eqn:Eap.
      cbn in Hap |- *. intros Hin Hm.
      assert (m = m0) as <-.
      { apply in_app_or in Hin. destruct Hin as [Hin | Hin]; [auto |].
        exfalso. rewrite Forall_forall in Hap.
        exact (isApplying_not_scoring tab _ (Hap _ Hin) I). }
      unfold processJob_apply in Eap. rewrite Hno in Eap. unfold isAcceptance in Eap.
      rewrite Hm, andb_false_r in Eap. cbn [orb] in Eap.
      unfold bind, logJob, emit, ret in Eap. cbn in Eap.
      injection Eap as <- <- <-.
      split; [reflexivity |]. split.
      * apply in_or_app. right. now left.
      * intros p Hp. apply in_app_or in Hp. destruct Hp as [Hp | Hp].
        -- exact (Hnone p Hp).
        -- cbn in Hp. destruct Hp as [Hp | []]. discriminate.
  - intros Hin _. exfalso.
    destruct (negb (Js.truthy jobDescription)
              && negb (matches (matchesSearchCriteria title))).
    + unfold bind, logJob, emit, ret in Hin. cbn in Hin.
      destruct Hin as [Hin | []]. discriminate.
    + pose proof (processJob_apply_applying B tab title company pageUrl jobDescription
                    (matchesSearchCriteria title) None w) as Hap.
      rewrite Forall_forall in Hap.
      exact (isApplying_not_scoring tab _ (Hap _ Hin) I).
Qed.

(** X18. When the scorer is asked and has no Groq client or no keyword
    to work with, so that its verdict is SKIPPED_LLM, processJob skips the
    job: it returns the skipped result with the status Skipped (No LLM Match
    or Fallback Failed), logs that row, and never enters applyToJob.  Without
    an API key only the titles that name a search term are applied to. *)
Theorem processJob_skips_unscored_job (jobCard : Card) (cardIndex : nat)
  (cvKeywords : list string) (w : W) (m : LlmMatch) :
  let o := processJob B jobCard cardIndex cvKeywords w in
  In (EvVerdict m) (events o) ->
  match_ m = SKIPPED_LLM ->
  value o = Ok (mkJob false (Some "Skipped (No LLM Match or Fallback Failed)")
                      (Some true) None (Some m))
  /\ statuses (events o) = ["Skipped (No LLM Match or Fallback Failed)"]
  /\ (forall p, ~ In (EvEnter (FnApplyToJob p)) (events o)).
Proof.
  cbv zeta. intros Hin Hm.
  destruct (processJob_cases B jobCard cardIndex cvKeywords w)
    as [Hv [closing [Hev [Hclosing _]]]].
  destruct (processJob_guarded_cases B jobCard cvKeywords w) as [_ [_ Hg]].
  destruct (processJob_reports B jobCard cardIndex cvKeywords w)
    as [r [status [Hr [Hst _]]]].
  cbv zeta in *.
  assert (Hopening : forall e, isOpening e ->
             (forall m', e <> EvVerdict m') /\ (forall p, e <> EvEnter (FnApplyToJob p))).
  { intros e [He | [c [r' ->]]]; [| split; intros; discriminate].
    destruct e; try contradiction; split; intros; discriminate. }
  rewrite Hev in Hin. destruct Hin as [Hin | Hin]; [discriminate |].
  apply in_app_or in Hin. destruct Hin as [Hin | Hin].
  2:{ destruct (Hclosing _ Hin) as [p [r' Hc]]. discriminate. }
  destruct Hg as [Hq | [pre [tab [t [c [u [d [w1 [Hq [Hvd [Hevd _]]]]]]]]]]].
  { exfalso. rewrite Forall_forall in Hq.
    destruct (Hopening _ (Hq _ Hin)) as [Hnv _]. exact (Hnv m eq_refl). }
  rewrite Hevd in Hin. apply in_app_or in Hin. destruct Hin as [Hin | Hin].
  { exfalso. rewrite Forall_forall in Hq.
    destruct (Hopening _ (Hq _ Hin)) as [Hnv _]. exact (Hnv m eq_refl). }
  destruct (processJob_decide_unscored cvKeywords tab t c (Some u) d w1 m Hin Hm)
    as [Hvalue [Hlog Hnone]].
  split; [rewrite Hv, Hvd; exact Hvalue |]. split.
  - assert (Hrow : In "Skipped (No LLM Match or Fallback Failed)"
                      (statuses (events (processJob B jobCard cardIndex cvKeywords w)))).
    { unfold statuses. apply in_flat_map.
      exists (EvLogJob t c "Skipped (No LLM Match or Fallback Failed)" (Some m) (Some u)).
      split; [| now left].
      rewrite Hev, Hevd. right.
      apply in_or_app. left. apply in_or_app. right. exact Hlog. }
    rewrite Hst in Hrow |- *. destruct Hrow as [<- | []]. reflexivity.
  - intros p Hp. rewrite Hev, Hevd in Hp. destruct Hp as [Hp | Hp]; [discriminate |].
    apply in_app_or in Hp. destruct Hp as [Hp | Hp].
    + apply in_app_or in Hp. destruct Hp as [Hp | Hp].
      * rewrite Forall_forall in Hq.
        destruct (Hopening _ (Hq _ Hp)) as [_ Hne]. exact (Hne p eq_refl).
      * exact (Hnone p Hp).
    + destruct (Hclosing _ Hp) as [p' [r' Hc]]. discriminate.
Qed.

End Unscored.

(** A Java job, outside the search terms, scored without a keyword. *)
Lemma processJob_skips_unscored_job_witness :
  value (processJob (Worlds.siteBrowser (Worlds.javaJobSite "MATCH")) 1 0 [] 0)
  = Ok (mkJob false (Some "Skipped (No LLM Match or Fallback Failed)") (Some true) None
              (Some (mkLlm SKIPPED_LLM (Some "Missing data or LLM client")))).
Proof.
  refine (proj1 (processJob_skips_unscored_job
                   (Worlds.siteBrowser (Worlds.javaJobSite "MATCH"))
                   1 0 [] 0
                   (mkLlm SKIPPED_LLM (Some "Missing data or LLM client")) _ _)).
  - present.
  - reflexivity.
Defined.

(** * The order in which a batch processes its cards *)

Lemma entered_app (es es' : list Event) :
  entered (es ++ es') = entered es ++ entered es'.
Proof. apply flat_map_app. Qed.

Lemma entered_cons (e : Event) (es : list Event) :
  entered (e :: es)
  = match e with EvEnter (FnProcessJob c i) => [(c, i)] | _ => [] end ++ entered es.
Proof. reflexivity. Qed.

Lemma entered_nil (es : list Event) : Forall notJobEntry es -> entered es = [].
Proof.
  induction 1 as [| e es He _ IH]; [reflexivity |].
  rewrite entered_cons, IH.
  destruct e as [| | | | | | | | | | | | | | | | | | | f |]; try reflexivity.
  destruct f; try reflexivity. exfalso. eapply He. reflexivity.
Qed.

Lemma combine_app_same {A C : Type} (l1 l2 : list A) (k1 k2 : list C) :
  length l1 = length k1 ->
  combine (l1 ++ l2) (k1 ++ k2) = combine l1 k1 ++ combine l2 k2.
Proof.
  revert k1. induction l1 as [| a l1 IH]; intros [| c k1] H; cbn in *;
    try discriminate; [reflexivity |].
  f_equal. apply IH. lia.
Qed.

Section BatchOrder.

Context {W : Type} (B : Browser W).

Lemma isOpening_notJobEntry (e : Event) : isOpening e -> notJobEntry e.
Proof.
  intros [H | [c [r ->]]] c' i; [| discriminate].
  intros ->. exact H.
Qed.

Lemma processJob_entered (jobCard : Card) (cardIndex : nat)
  (cvKeywords : list string) (w : W) :
  entered (events (processJob B jobCard cardIndex cvKeywords w))
  = [(jobCard, cardIndex)].
Proof.
  destruct (processJob_cases B jobCard cardIndex cvKeywords w)
    as [_ [closing [Hev [Hclosing _]]]].
  destruct (processJob_guarded_cases B jobCard cvKeywords w) as [_ [_ Hg]].
  cbv zeta in *. rewrite Hev, entered_cons, entered_app.
  rewrite (entered_nil closing).
  2:{ apply Forall_forall. intros e He c i ->.
      destruct (Hclosing _ He) as [p [r Hc]]. discriminate. }
  assert (Hopen : forall es, Forall isOpening es -> entered es = []).
  { intros es H. apply entered_nil. eapply Forall_impl; [| exact H].
    exact isOpening_notJobEntry. }
  destruct Hg as [Hq | [pre [tab [t [c [u [d [w1 [Hq [_ [Hevd _]]]]]]]]]]].
  - rewrite (Hopen _ Hq). reflexivity.
  - rewrite Hevd, entered_app, (Hopen _ Hq).
    rewrite (entered_nil (events (processJob_decide B cvKeywords tab t c (Some u) d w1))).
    + reflexivity.
    + eapply Forall_impl; [| apply (processJob_decide_events B cvKeywords tab t c
                                       (Some u) d w1)].
      intros e [Ha | Hs] c' i ->.
      * destruct Ha as [Ha | [t' [c'' [s' [l' [u' Ha]]]]]]; [exact Ha | discriminate].
      * exact Hs.
Qed.

Hypothesis context_open : forall w, context_pages_length W B w <> 0.

Lemma allSettled_entered (cvKeywords : list string) (i index : nat)
  (batch : list Card) (w : W) :
  entered (events (allSettled B cvKeywords i index batch w))
  = combine batch (seq (i + index) (length batch)).
Proof.
  revert index w. induction batch as [| card rest IH]; intros index w.
  - reflexivity.
  - cbn [allSettled]. unfold bind, settled, batchTask, sleep, contextPages, gets, ret.
    cbn.
    destruct (context_pages_length W B (elapse W B (N.of_nat index * TAB_DELAY) w) =? 0)
      eqn:Hp.
    { apply Nat.eqb_eq in Hp. destruct (context_open _ Hp). }
    pose proof (processJob_entered card (i + index) cvKeywords
                  (elapse W B (N.of_nat index * TAB_DELAY) w)) as Hj.
    destruct (processJob B card (i + index) cvKeywords
                         (elapse W B (N.of_nat index * TAB_DELAY) w)) as [v s1 es1].
    cbn in Hj |- *.
    specialize (IH (S index) s1).
    destruct (allSettled B cvKeywords i (S index) rest s1) as [v2 s2 es2].
    cbn in IH |- *.
    destruct v2; cbn;
      rewrite entered_cons, ?entered_app, Hj, IH, <- Nat.add_succ_comm, ?app_nil_r;
      reflexivity.
Qed.

Lemma batchLoop_entered (cvKeywords : list string) (limit : nat)
  (jobCards : list Card) (rounds i : nat) (results : list JobResult) (w : W) :
  1 <= limit ->
  length jobCards - i <= rounds ->
  entered (events (batchLoop B cvKeywords limit jobCards rounds i results w))
  = combine (skipn i jobCards) (seq i (length jobCards - i)).
Proof.
  intros Hlimit. revert i results w.
  induction rounds as [| rounds IH]; intros i results w Hfuel.
  - cbn. replace (length jobCards - i) with 0 by lia.
    destruct (skipn i jobCards); reflexivity.
  - cbn [batchLoop].
    destruct (i <? length jobCards) eqn:Hi.
    2:{ apply Nat.ltb_ge in Hi. cbn. replace (length jobCards - i) with 0 by lia.
        destruct (skipn i jobCards); reflexivity. }
    apply Nat.ltb_lt in Hi.
    unfold bind, contextPages, gets, sleep.
    destruct (context_pages_length W B w =? 0) eqn:Hp.
    { apply Nat.eqb_eq in Hp. destruct (context_open _ Hp). }
    pose proof (allSettled_entered cvKeywords i 0 (slice i (i + limit) jobCards) w)
      as Hb.
    destruct (allSettled_spec B cvKeywords i 0 (slice i (i + limit) jobCards) w)
      as [rs [Hv _]].
    destruct (allSettled B cvKeywords i 0 (slice i (i + limit) jobCards) w)
      as [v1 s1 es1].
    cbn in Hv, Hb. subst v1.
    assert (Hsplit : combine (skipn i jobCards) (seq i (length jobCards - i))
                     = combine (slice i (i + limit) jobCards)
                               (seq (i + 0) (length (slice i (i + limit) jobCards)))
                       ++ combine (skipn (i + limit) jobCards)
                                  (seq (i + limit) (length jobCards - (i + limit)))).
    { unfold slice. replace (i + limit - i) with limit by lia.
      rewrite Nat.add_0_r, length_firstn, length_skipn.
      rewrite <- (firstn_skipn limit (skipn i jobCards)) at 1.
      rewrite skipn_skipn, (Nat.add_comm limit i).
      replace (length jobCards - i)
        with (Nat.min limit (length jobCards - i) + (length jobCards - (i + limit)))
        at 1 by lia.
      rewrite seq_app, combine_app_same
        by (rewrite length_firstn, length_skipn, length_seq; reflexivity).
      f_equal.
      destruct (Nat.le_gt_cases limit (length jobCards - i)) as [Hle | Hgt].
      - rewrite Nat.min_l by exact Hle. reflexivity.
      - replace (length jobCards - (i + limit)) with 0 by lia.
        cbn [seq]. rewrite !combine_nil. reflexivity. }
    rewrite Hsplit, <- Hb.
    destruct (i + limit <? length jobCards) eqn:Hmore.
    + destruct (context_pages_length W B s1 =? 0) eqn:Hp1.
      { apply Nat.eqb_eq in Hp1. destruct (context_open _ Hp1). }
      specialize (IH (i + limit) (results ++ map entryOf rs)
                     (elapse W B PAGE_DELAY s1)).
      destruct (batchLoop B cvKeywords limit jobCards rounds (i + limit)
                          (results ++ map entryOf rs) (elapse W B PAGE_DELAY s1))
        as [v2 s2 es2].
      cbn in IH |- *. rewrite !entered_app, entered_cons, IH by lia. reflexivity.
    + specialize (IH (i + limit) (results ++ map entryOf rs) s1).
      destruct (batchLoop B cvKeywords limit jobCards rounds (i + limit)
                          (results ++ map entryOf rs) s1) as [v2 s2 es2].
      cbn in IH |- *. rewrite !entered_app, IH by lia. reflexivity.
Qed.

(** X19. In a session that keeps an open page, the batch processor runs
    processJob once for every card, in the order of the cards, each with its
    position in the list as index, whatever the size of the groups. *)
Theorem processJobBatch_processes_in_order (limit : nat) (jobCards : list Card)
  (cvKeywords : list string) (w : W) :
  1 <= limit ->
  entered (events (processJobBatchWith B limit jobCards cvKeywords w))
  = combine jobCards (seq 0 (length jobCards)).
Proof.
  intros Hlimit. unfold processJobBatchWith.
  rewrite batchLoop_entered by lia.
  rewrite Nat.sub_0_r. reflexivity.
Qed.

End BatchOrder.

(** Three cards in groups of two. *)
Lemma processJobBatch_processes_in_order_witness :
  entered (events (processJobBatchWith (Worlds.siteBrowser Worlds.emptySite)
                                       MAX_CONCURRENT_TABS [4; 5; 6] [] 0))
  = [(4, 0); (5, 1); (6, 2)].
Proof.
  apply (processJobBatch_processes_in_order (Worlds.siteBrowser Worlds.emptySite)).
  - intros w'. cbn. discriminate.
  - unfold MAX_CONCURRENT_TABS. lia.
Defined.

(** * The search driver and its counters *)

Section DriverFacts.

Context {W : Type} (B : Browser W).

Lemma loads_none (es : list Event) : Forall notLoad es -> loads es = 0.
Proof.
  induction 1 as [| e es He _ IH]; [reflexivity |].
  unfold loads in *. cbn [filter]. rewrite He. exact IH.
Qed.

Lemma loads_cons (e : Event) (es : list Event) :
  loads (e :: es) = (if isGoto e then 1 else 0) + loads es.
Proof. unfold loads. cbn [filter]. destruct (isGoto e); reflexivity. Qed.

Ltac count_loads :=
  repeat first [ rewrite loads_app | rewrite loads_cons | rewrite app_nil_r ];
  cbn [isGoto]; change (loads []) with 0; lia.

(** What every call of processJob and of the batch processor satisfies,
    for a property [P] of calls that holds of the moves of processJob and of
    the calls of the scorer. *)
Section Everywhere.

Variable P : Event -> Prop.
Hypothesis P_opening : forall e, isOpening e -> P e.
Hypothesis P_applying : forall tab e, isApplying tab e -> P e.
Hypothesis P_scoring :
  forall cvKeywords jobDescription,
    emits P (checkJobMatchWithLLM B cvKeywords jobDescription).
Hypothesis P_enter : forall c i, P (EvEnter (FnProcessJob c i)).
Hypothesis P_close : forall p r, P (EvClose p r).
Hypothesis P_sleep : forall ms, P (EvSleep ms).

Lemma processJob_decide_everywhere (cvKeywords : list string) (tab : Page)
  (title company : string) (pageUrl : option string) (jobDescription : string) :
  emits P (processJob_decide B cvKeywords tab title company pageUrl jobDescription).
Proof.
  unfold processJob_decide.
  pose proof (P_scoring cvKeywords jobDescription) as Hs.
  assert (Ha : forall m l, emits P (processJob_apply B tab title company pageUrl
                                                     jobDescription m l)).
  { intros m l. eapply emits_weaken; [| apply processJob_apply_applying].
    intros e. apply P_applying. }
  emits_auto; apply (P_applying tab); right; eauto 10.
Qed.

Lemma processJob_everywhere (jobCard : Card) (cardIndex : nat)
  (cvKeywords : list string) :
  emits P (processJob B jobCard cardIndex cvKeywords).
Proof.
  intros w.
  destruct (processJob_cases B jobCard cardIndex cvKeywords w)
    as [_ [closing [Hev [Hclosing _]]]].
  destruct (processJob_guarded_cases B jobCard cvKeywords w) as [_ [_ Hg]].
  cbv zeta in *. rewrite Hev.
  constructor; [apply P_enter |]. apply Forall_app. split.
  - destruct Hg as [Hq | [pre [tab [t [c [u [d [w1 [Hq [_ [Hevd _]]]]]]]]]]].
    + eapply Forall_impl; [| exact Hq]. exact P_opening.
    + rewrite Hevd. apply Forall_app. split.
      * eapply Forall_impl; [| exact Hq]. exact P_opening.
      * apply processJob_decide_everywhere.
  - apply Forall_forall. intros e He.
    destruct (Hclosing _ He) as [p [r ->]]. apply P_close.
Qed.

Lemma allSettled_everywhere (cvKeywords : list string) (i index : nat)
  (batch : list Card) :
  emits P (allSettled B cvKeywords i index batch).
Proof.
  revert index. induction batch as [| card rest IH]; intros index;
    cbn [allSettled]; [emits_auto |].
  pose proof (processJob_everywhere card (i + index) cvKeywords).
  apply emits_bind; [apply emits_settled | intro].
  - unfold batchTask. apply emits_bind; [| intro].
    + intros w. constructor; [apply P_sleep | constructor].
    + emits_auto.
  - apply emits_bind; [apply IH | intro; emits_auto].
Qed.

Lemma batchLoop_everywhere (cvKeywords : list string) (limit : nat)
  (jobCards : list Card) (rounds i : nat) (results : list JobResult) :
  emits P (batchLoop B cvKeywords limit jobCards rounds i results).
Proof.
  revert i results. induction rounds as [| rounds IH]; intros i results;
    cbn [batchLoop]; [emits_auto |].
  destruct (i <? length jobCards); [| emits_auto].
  apply emits_bind; [emits_auto | intro n].
  destruct (n =? 0); [emits_auto |].
  apply emits_bind; [apply allSettled_everywhere | intro rs]. cbv zeta.
  destruct (i + limit <? length jobCards); [| apply IH].
  apply emits_bind; [emits_auto | intro n'].
  destruct (n' =? 0); [emits_auto |].
  apply emits_bind; [| intro; apply IH].
  intros w. constructor; [apply P_sleep | constructor].
Qed.

End Everywhere.

Lemma isOpening_notLoad (e : Event) : isOpening e -> notLoad e.
Proof.
  intros [He | [c [r ->]]]; [| reflexivity].
  destruct e; try contradiction; reflexivity.
Qed.

Lemma isApplying_notLoad (tab : Page) (e : Event) : isApplying tab e -> notLoad e.
Proof.
  intros [Ha | [t' [c' [s' [l' [u' ->]]]]]]; [| reflexivity].
  destruct e; try contradiction; reflexivity.
Qed.

Lemma batchLoop_no_load (cvKeywords : list string) (limit : nat)
  (jobCards : list Card) (rounds i : nat) (results : list JobResult) :
  emits notLoad (batchLoop B cvKeywords limit jobCards rounds i results).
Proof.
  apply batchLoop_everywhere; try reflexivity.
  - exact isOpening_notLoad.
  - exact isApplying_notLoad.
  - intros kws d. eapply emits_weaken; [| apply checkJobMatchWithLLM_scoring].
    intros e He. destruct e; try contradiction; reflexivity.
Qed.

(** One page of a term costs at most three loads. *)
Lemma pageLoop_loads (page : Page) (searchTerm : string) (cvKeywords : list string)
  (pageNums : list nat) (s : Stats * W) :
  loads (events (pageLoop B page searchTerm cvKeywords pageNums s))
  <= 3 * length pageNums.
Proof.
  revert s. induction pageNums as [| pageNum rest IH]; intros [stats w].
  - cbn. lia.
  - cbn [pageLoop length].
    pose proof (safeGoto_two_retries B page (searchUrl searchTerm pageNum) w) as Hnav.
    cbv zeta in Hnav. destruct Hnav as [Hnav _].
    pose proof (batchLoop_no_load cvKeywords MAX_CONCURRENT_TABS) as Hbatch.
    revert Hnav Hbatch. unfold processJobBatch, processJobBatchWith.
    generalize (safeGoto B page (searchUrl searchTerm pageNum) 2).
    generalize (batchLoop B cvKeywords MAX_CONCURRENT_TABS).
    revert IH. generalize (pageLoop B page searchTerm cvKeywords rest).
    intros next IH batch nav Hnav Hbatch.
    unfold bind, lift, isClosed, gets, tryCatch, waitForSelector, locatorAll, call,
      modify, ret.
    cbn [fst snd].
    destruct (page_isClosed W B page w); cbn -[loads Nat.mul Nat.ltb]; [unfold loads; cbn; lia |].
    destruct (nav w) as [[[|] | msg] w1 es1]; cbn -[loads Nat.mul Nat.ltb] in *.
    + destruct (page_waitForSelector W B page cardSelector 15000 w1)
        as [[[] | msg] w2]; cbn -[loads Nat.mul Nat.ltb].
      * destruct (locator_all W B page cardSelector w2) as [[cards | msg] w3];
          cbn -[loads Nat.mul Nat.ltb].
        -- destruct (0 <? length cards); cbn -[loads Nat.mul Nat.ltb].
           ++ specialize (Hbatch cards (length cards) 0 [] w3).
              apply loads_none in Hbatch.
              destruct (batch cards (length cards) 0 [] w3) as [[results | msg] w4 es4];
                cbn -[loads Nat.mul Nat.ltb] in *.
              ** specialize (IH (fold_left tally results stats, w4)).
                 destruct (next (fold_left tally results stats, w4)) as [v5 s5 es5].
                 cbn -[loads Nat.mul Nat.ltb] in *.
                 count_loads.
              ** count_loads.
           ++ count_loads.
        -- count_loads.
      * count_loads.
    + specialize (IH (stats, w1)). destruct (next (stats, w1)) as [v5 s5 es5].
      cbn -[loads Nat.mul Nat.ltb] in *. count_loads.
    + lia.
Qed.

(** X20. A test that searches a batch of terms loads at most fifteen
    result pages per term, three attempts for each of the five page numbers,
    whatever the site answers: no other step of the search, of the batch
    processor or of processJob navigates. *)
Theorem searchTerms_loads_bounded (page : Page) (batch : list string)
  (cvKeywords : list string) (s : Stats * W) :
  loads (events (searchTerms B page batch cvKeywords s))
  <= 3 * MAX_PAGES * length batch.
Proof.
  revert s. induction batch as [| searchTerm rest IH]; intros s.
  - cbn. lia.
  - cbn [searchTerms length]. unfold bind, searchTermPages.
    pose proof (pageLoop_loads page searchTerm cvKeywords (seq 1 MAX_PAGES) s) as Hp.
    rewrite length_seq in Hp.
    destruct (pageLoop B page searchTerm cvKeywords (seq 1 MAX_PAGES) s)
      as [[[] | msg] s1 es1]; cbn -[loads Nat.mul MAX_PAGES] in *.
    + specialize (IH s1).
      destruct (searchTerms B page rest cvKeywords s1) as [v2 s2 es2].
      cbn -[loads Nat.mul MAX_PAGES] in *. rewrite loads_app. lia.
    + lia.
Qed.

(** A property of the counters that counting one result keeps is kept by
    the loop over the pages of a term, however it ends. *)
Lemma pageLoop_keeps (P : Stats -> Prop) (page : Page) (searchTerm : string)
  (cvKeywords : list string) (pageNums : list nat) (s : Stats * W) :
  (forall stats r, P stats -> P (tally stats r)) ->
  P (fst s) ->
  P (fst (final (pageLoop B page searchTerm cvKeywords pageNums s))).
Proof.
  intros Hstep.
  assert (Hfold : forall results stats, P stats -> P (fold_left tally results stats)).
  { induction results as [| r results IH]; intros stats H; [exact H |].
    cbn. apply IH, Hstep, H. }
  revert s. induction pageNums as [| pageNum rest IH]; intros [stats w] HP.
  - exact HP.
  - cbn [pageLoop].
    generalize (safeGoto B page (searchUrl searchTerm pageNum) 2).
    generalize (processJobBatch B).
    revert IH. generalize (pageLoop B page searchTerm cvKeywords rest).
    intros next IH batch nav.
    unfold bind, lift, isClosed, gets, tryCatch, waitForSelector, locatorAll, call,
      modify, ret.
    cbn [fst snd] in *.
    destruct (page_isClosed W B page w); cbn -[Nat.ltb]; [exact HP |].
    destruct (nav w) as [[[|] | msg] w1 es1]; cbn -[Nat.ltb].
    + destruct (page_waitForSelector W B page cardSelector 15000 w1)
        as [[[] | msg] w2]; cbn -[Nat.ltb]; [| exact HP].
      destruct (locator_all W B page cardSelector w2) as [[cards | msg] w3];
        cbn -[Nat.ltb]; [| exact HP].
      destruct (0 <? length cards); cbn -[Nat.ltb]; [| exact HP].
      destruct (batch cards cvKeywords w3) as [[results | msg] w4 es4];
        cbn -[Nat.ltb]; [| exact HP].
      specialize (IH (fold_left tally results stats, w4) (Hfold _ _ HP)).
      destruct (next (fold_left tally results stats, w4)) as [v5 s5 es5].
      exact IH.
    + specialize (IH (stats, w1) HP). destruct (next (stats, w1)) as [v5 s5 es5].
      exact IH.
    + exact HP.
Qed.

Lemma searchTerms_keeps (P : Stats -> Prop) (page : Page) (batch : list string)
  (cvKeywords : list string) (s : Stats * W) :
  (forall stats r, P stats -> P (tally stats r)) ->
  P (fst s) ->
  P (fst (final (searchTerms B page batch cvKeywords s))).
Proof.
  intros Hstep. revert s. induction batch as [| searchTerm rest IH]; intros s HP.
  - exact HP.
  - cbn [searchTerms]. unfold bind, searchTermPages.
    pose proof (pageLoop_keeps P page searchTerm cvKeywords (seq 1 MAX_PAGES) s
                               Hstep HP) as Hp.
    destruct (pageLoop B page searchTerm cvKeywords (seq 1 MAX_PAGES) s)
      as [[[] | msg] s1 es1]; cbn in *.
    + specialize (IH s1 Hp).
      destruct (searchTerms B page rest cvKeywords s1) as [v2 s2 es2]. exact IH.
    + exact Hp.
Qed.

(** X21. However a test ends, by returning or by raising, the counters
    it leaves are consistent when those it started from were: stats.total is
    the sum of applied, failed, skipped and alreadyApplied, the three verdict
    counters together do not exceed it, and none of the eight counters has
    gone down. *)
Theorem searchTerms_keeps_counters_consistent (page : Page) (batch : list string)
  (cvKeywords : list string) (stats : Stats) (w : W) :
  st_total stats = outcomes stats ->
  verdicts stats <= st_total stats ->
  let stats' := fst (final (searchTerms B page batch cvKeywords (stats, w))) in
  st_total stats' = outcomes stats'
  /\ verdicts stats' <= st_total stats'
  /\ st_total stats <= st_total stats'
  /\ st_applied stats <= st_applied stats'
  /\ st_failed stats <= st_failed stats'
  /\ st_skipped stats <= st_skipped stats'
  /\ st_alreadyApplied stats <= st_alreadyApplied stats'
  /\ st_llmMatch stats <= st_llmMatch stats'
  /\ st_llmPartialMatch stats <= st_llmPartialMatch stats'
  /\ st_llmNoMatch stats <= st_llmNoMatch stats'.
Proof.
  intros Hbal Hver. cbv zeta.
  apply (searchTerms_keeps
           (fun s' => st_total s' = outcomes s'
                      /\ verdicts s' <= st_total s'
                      /\ st_total stats <= st_total s'
                      /\ st_applied stats <= st_applied s'
                      /\ st_failed stats <= st_failed s'
                      /\ st_skipped stats <= st_skipped s'
                      /\ st_alreadyApplied stats <= st_alreadyApplied s'
                      /\ st_llmMatch stats <= st_llmMatch s'
                      /\ st_llmPartialMatch stats <= st_llmPartialMatch s'
                      /\ st_llmNoMatch stats <= st_llmNoMatch s')
           page batch cvKeywords (stats, w)).
  - intros s0 r [H1 [H2 [H3 [H4 [H5 [H6 [H7 [H8 [H9 H10]]]]]]]]].
    destruct (tally_step s0 r) as [Ht [Ho Hv]].
    assert (Hmono : st_applied s0 <= st_applied (tally s0 r)
                    /\ st_failed s0 <= st_failed (tally s0 r)
                    /\ st_skipped s0 <= st_skipped (tally s0 r)
                    /\ st_alreadyApplied s0 <= st_alreadyApplied (tally s0 r)
                    /\ st_llmMatch s0 <= st_llmMatch (tally s0 r)
                    /\ st_llmPartialMatch s0 <= st_llmPartialMatch (tally s0 r)
                    /\ st_llmNoMatch s0 <= st_llmNoMatch (tally s0 r)).
    { unfold tally.
      destruct (success r), (isTrue (alreadyApplied r)), (isTrue (skipped r)),
        (llmResult r) as [[[] rs] |]; cbn; repeat split; lia. }
    destruct (hasVerdict r); lia.
  - cbn [fst]. repeat split; try lia.
Qed.

End DriverFacts.

(** The counters of a fresh run, on a result page of seven jobs. *)
Lemma searchTerms_keeps_counters_consistent_witness :
  let stats' := fst (final (searchTerms (Worlds.siteBrowser Worlds.qaJobSite) 1 ["QA"] []
                                        (Worlds.noStats, 0))) in
  st_total stats' = outcomes stats'
  /\ verdicts stats' <= st_total stats'
  /\ st_total Worlds.noStats <= st_total stats'
  /\ st_applied Worlds.noStats <= st_applied stats'
  /\ st_failed Worlds.noStats <= st_failed stats'
  /\ st_skipped Worlds.noStats <= st_skipped stats'
  /\ st_alreadyApplied Worlds.noStats <= st_alreadyApplied stats'
  /\ st_llmMatch Worlds.noStats <= st_llmMatch stats'
  /\ st_llmPartialMatch Worlds.noStats <= st_llmPartialMatch stats'
  /\ st_llmNoMatch Worlds.noStats <= st_llmNoMatch stats'.
Proof.
  apply (searchTerms_keeps_counters_consistent
           (Worlds.siteBrowser Worlds.qaJobSite) 1 ["QA"] [] Worlds.noStats 0).
  - reflexivity.
  - cbn. lia.
Defined.

(** * A run without a Groq client *)

Section NoClient.

Context {W : Type} (B : Browser W).

Hypothesis no_client : groqClient W B = false.

Lemma checkJobMatchWithLLM_asks_nothing (cvKeywords : list string)
  (jobDescription : string) :
  emits notGroq (checkJobMatchWithLLM B cvKeywords jobDescription).
Proof.
  unfold checkJobMatchWithLLM. rewrite no_client. cbn [negb orb]. cbv beta iota.
  emits_auto; intros k d r; discriminate.
Qed.

Lemma safeGoto_asks_nothing (page : Page) (u : string) (retries : nat) :
  emits notGroq (safeGoto B page u retries).
Proof.
  unfold safeGoto. generalize (seq 0 (S retries)). intros attempts.
  induction attempts as [| attempt rest IH]; cbn [safeGoto_loop];
    unfold safeGoto_try, safeGoto_catch; emits_auto; intros k d r'; discriminate.
Qed.

Lemma processJobBatch_asks_nothing (jobCards : list Card) (cvKeywords : list string) :
  emits notGroq (processJobBatch B jobCards cvKeywords).
Proof.
  unfold processJobBatch, processJobBatchWith.
  apply batchLoop_everywhere.
  - intros e [He | [c [r ->]]] k d r'; [| discriminate].
    intros ->. exact He.
  - intros tab e [Ha | [t' [c' [s' [l' [u' ->]]]]]] k d r'; [| discriminate].
    intros ->. exact Ha.
  - exact checkJobMatchWithLLM_asks_nothing.
  - intros c i k d r. discriminate.
  - intros p r k d r'. discriminate.
  - intros ms k d r. discriminate.
Qed.

Lemma pageLoop_asks_nothing (page : Page) (searchTerm : string)
  (cvKeywords : list string) (pageNums : list nat) :
  emits notGroq (pageLoop B page searchTerm cvKeywords pageNums).
Proof.
  induction pageNums as [| pageNum rest IH]; cbn [pageLoop]; [emits_auto |].
  pose proof (safeGoto_asks_nothing page (searchUrl searchTerm pageNum) 2).
  pose proof (fun cards => processJobBatch_asks_nothing cards cvKeywords).
  autounfold with prims.
  repeat first [ emits_step | apply emits_lift ]; intros k d r'; discriminate.
Qed.

(** X22. Without a Groq client a test sends no request to the language
    model, whatever the site shows and whatever keywords it holds: not from
    the search, not from the batch processor, not from any run of
    processJob. *)
Theorem searchTerms_without_client_asks_nothing (page : Page) (batch : list string)
  (cvKeywords : list string) (s : Stats * W) (k : list string) (d : string)
  (r : res (option string)) :
  ~ In (EvGroq k d r) (events (searchTerms B page batch cvKeywords s)).
Proof.
  assert (H : emits notGroq (searchTerms B page batch cvKeywords)).
  { induction batch as [| searchTerm rest IH]; cbn [searchTerms]; [emits_auto |].
    unfold searchTermPages.
    pose proof (pageLoop_asks_nothing page searchTerm cvKeywords (seq 1 MAX_PAGES)).
    emits_auto. }
  intros Hin. specialize (H s). rewrite Forall_forall in H.
  exact (H _ Hin k d r eq_refl).
Qed.

End NoClient.

(** A result page of seven QA jobs, searched without a client. *)
Lemma searchTerms_without_client_asks_nothing_witness :
  ~ In (EvGroq [] "Senior QA Engineer" (Throw "no client"))
       (events (searchTerms (Worlds.siteBrowser Worlds.qaJobSite) 1 ["QA"] []
                            (Worlds.noStats, 0))).
Proof.
  apply (searchTerms_without_client_asks_nothing (Worlds.siteBrowser Worlds.qaJobSite)).
  reflexivity.
Defined.

(** * A success is an application *)

Lemma earned_within (tab : Page) (pre es post : list Event) (r : JobResult) :
  earned tab es r -> earned tab (pre ++ es ++ post) r.
Proof.
  assert (Hin : forall e, In e es -> In e (pre ++ es ++ post)).
  { intros e H. apply in_or_app. right. apply in_or_app. now left. }
  unfold earned. intros [He Hr]. split; [auto |].
  destruct (isTrue (alreadyApplied r)); destruct Hr as [sel [Hs Hr]]; eauto.
Qed.

Section Earned.

Context {W : Type} (B : Browser W).

Lemma applyToJob_before_seen (page : Page) (w : W) :
  value (applyToJob B page w) = Ok appliedBefore ->
  exists sel, In sel alreadyAppliedSelectors
              /\ In (EvIsVisible page sel (Ok true)) (events (applyToJob B page w)).
Proof.
  destruct (applyToJob_cases B page w) as
    [[why [Hv _]] | [ea [_ [[_ [Hev Hends]] | [_ [eb [_ [[Hv _] | [Hv _]]]]]]]]];
    cbv zeta in *; try (rewrite Hv; discriminate).
  intros _. destruct Hends as [before [sel [Hin ->]]].
  exists sel. split; [exact Hin |]. rewrite Hev.
  right. right. apply in_or_app. right. now left.
Qed.

Lemma processJob_apply_earned (tab : Page) (title company : string)
  (pageUrl : option string) (jobDescription : string) (isInitialMatch : Criteria)
  (llmMatchResult : option LlmMatch) (w : W) (r : JobResult) :
  let o := processJob_apply B tab title company pageUrl jobDescription isInitialMatch
                            llmMatchResult w in
  value o = Ok r -> success r = true -> earned tab (events o) r.
Proof.
  cbv zeta. unfold processJob_apply, earned.
  destruct (applyToJob_results B tab w) as [ar [Hv Har]].
  destruct (applyToJob_enters B tab w) as [es Hes].
  pose proof (applyToJob_before_seen tab w) as Hseen.
  pose proof (applyToJob_applied_clicked B tab w) as Hclk.
  revert Hseen Hclk. generalize alreadyAppliedSelectors applySelectors.
  intros la lb Hseen Hclk.
  destruct (isAcceptance llmMatchResult
            || negb (Js.truthy jobDescription) && matches isInitialMatch
            || matches isInitialMatch).
  2:{ unfold bind, logJob, emit, ret. cbn. intros Hr. injection Hr as <-.
      discriminate. }
  unfold bind, logJob, emit, ret.
  destruct (applyToJob B tab w) as [v w1 es1]. cbn in Hv, Hes, Hseen, Hclk.
  subst v es1.
  destruct Har as [-> | [-> | [why ->]]]; cbn; intros Hr; injection Hr as <-;
    intros Hs; try discriminate Hs; cbn [alreadyApplied isTrue].
  - split; [now left |]. destruct (Hclk eq_refl) as [sel [Hin [Hc | Hc]]];
      [discriminate |].
    exists sel. split; [exact Hin |]. right. apply in_or_app. now left.
  - split; [now left |]. destruct (Hseen eq_refl) as [sel [Hin [Hc | Hc]]];
      [discriminate |].
    exists sel. split; [exact Hin |]. right. apply in_or_app. now left.
Qed.

Lemma processJob_decide_earned (cvKeywords : list string) (tab : Page)
  (title company : string) (pageUrl : option string) (jobDescription : string)
  (w : W) (r : JobResult) :
  let o := processJob_decide B cvKeywords tab title company pageUrl jobDescription w in
  value o = Ok r -> success r = true -> earned tab (events o) r.
Proof.
  cbv zeta. unfold processJob_decide.
  pose proof (processJob_apply_earned tab title company pageUrl jobDescription
                (matchesSearchCriteria title)) as Hap. cbv zeta in Hap.
  destruct (negb (matches (matchesSearchCriteria title)) && Js.truthy jobDescription).
  - unfold bind.
    destruct (checkJobMatchWithLLM_total B cvKeywords jobDescription w) as [m Hm].
    destruct (checkJobMatchWithLLM B cvKeywords jobDescription w) as [v w1 es1].
    cbn in Hm. subst v.
    destruct (isRejection m).
    + unfold logJob, emit, ret. cbn. intros Hv. injection Hv as <-. discriminate.
    + specialize (Hap (Some m) w1 r).
      destruct (processJob_apply B tab title company pageUrl jobDescription
                                 (matchesSearchCriteria title) (Some m) w1)
        as [v2 w2 es2].
      cbn in *. intros Hv Hs.
      apply (earned_within tab es1 es2 [] r) in Hap; [| exact Hv | exact Hs].
      rewrite app_nil_r in Hap. exact Hap.
  - destruct (negb (Js.truthy jobDescription)
              && negb (matches (matchesSearchCriteria title))).
    + unfold bind, logJob, emit, ret. cbn. intros Hv. injection Hv as <-. discriminate.
    + apply Hap.
Qed.

Lemma processJob_guarded_earned (jobCard : Card) (cvKeywords : list string)
  (w : W) (r : JobResult) :
  let o := tryCatch (processJob_try B jobCard cvKeywords) processJob_catch
                    (initialLocals, w) in
  value o = Ok r -> success r = true ->
  exists tab, In (EvOpenTab jobCard (Delivered (Some tab))) (events o)
              /\ earned tab (events o) r.
Proof.
  cbv zeta.
  pose proof (processJob_onTab_cases B cvKeywords) as Hon. cbv zeta in Hon.
  pose proof (processJob_decide_earned cvKeywords) as Hde. cbv zeta in Hde.
  unfold processJob_try.
  revert Hon. generalize (processJob_onTab B cvKeywords). intros onTab Hon.
  unfold processJob_catch, tryCatch, bind, lift, contextPages, linkCount, openTab,
    isClosed, gets, call, logOutcome, getLocals, logJob, emit, setNewTab, modify, ret.
  cbn.
  destruct (context_pages_length W B w =? 0); cbn.
  { intros Hv. injection Hv as <-. discriminate. }
  destruct (card_linkCount W B jobCard w) as [[n | msg] w1]; cbn.
  2:{ intros Hv. injection Hv as <-. discriminate. }
  destruct (n =? 0); cbn.
  { intros Hv. injection Hv as <-. discriminate. }
  destruct (card_openTab W B jobCard w1) as [[[tab |] | tab msg | msg] w2]; cbn;
    try (intros Hv; injection Hv as <-; discriminate).
  destruct (page_isClosed W B tab w2); cbn.
  { intros Hv. injection Hv as <-. discriminate. }
  specialize (Hon tab (mkLocals (Some tab) "Unknown Job Title" "Unknown Company" None)
                  w2).
  destruct (onTab tab (mkLocals (Some tab) "Unknown Job Title" "Unknown Company" None,
                       w2)) as [v [l3 w3] es3].
  cbn in Hon. destruct Hon as [_ [[msg [-> _]] | Hdec]]; cbn.
  { intros Hv. injection Hv as <-. discriminate. }
  destruct Hdec as [pre [t [c [pageUrl [d [w4 [_ [Hv [Hev _]]]]]]]]].
  destruct v as [r0 | msg]; cbn;
    [| intros Hr; injection Hr as <-; discriminate].
  intros Hr Hs. injection Hr as ->. exists tab. split; [right; now left |].
  symmetry in Hv.
  pose proof (Hde tab t c (Some pageUrl) d w4 r Hv Hs) as He.
  apply (earned_within tab (EvLinkCount jobCard (Ok n)
                            :: EvOpenTab jobCard (Delivered (Some tab)) :: pre) _ [] r) in He.
  rewrite app_nil_r in He. subst es3. exact He.
Qed.

(** X23. processJob reports a success only for an application: the card
    opened a tab, applyToJob ran on that tab, and there either an
    already-applied indicator was seen, for a result marked alreadyApplied,
    or a click on one of the apply controls went through. *)
Theorem processJob_success_is_earned (jobCard : Card) (cardIndex : nat)
  (cvKeywords : list string) (w : W) (r : JobResult) :
  let o := processJob B jobCard cardIndex cvKeywords w in
  value o = Ok r ->
  success r = true ->
  exists tab,
    In (EvOpenTab jobCard (Delivered (Some tab))) (events o)
    /\ In (EvEnter (FnApplyToJob tab)) (events o)
    /\ if isTrue (alreadyApplied r)
       then exists sel, In sel alreadyAppliedSelectors
                        /\ In (EvIsVisible tab sel (Ok true)) (events o)
       else exists sel, In sel applySelectors
                        /\ In (EvClick tab sel (Ok tt)) (events o).
Proof.
  cbv zeta. intros Hv Hs.
  destruct (processJob_cases B jobCard cardIndex cvKeywords w)
    as [Hval [closing [Hev _]]].
  cbv zeta in *. rewrite Hval in Hv.
  destruct (processJob_guarded_earned jobCard cvKeywords w r Hv Hs) as [tab [Hopen He]].
  apply (earned_within tab [EvEnter (FnProcessJob jobCard cardIndex)] _ closing r) in He.
  cbn [app] in He. rewrite <- Hev in He. destruct He as [He1 He2].
  exists tab. split; [| split; [exact He1 | exact He2]].
  rewrite Hev. right. apply in_or_app. now left.
Qed.

End Earned.

(** A QA job with an Easy apply button. *)
Lemma processJob_success_is_earned_witness :
  exists tab,
    In (EvOpenTab 1 (Delivered (Some tab)))
       (events (processJob (Worlds.siteBrowser Worlds.qaJobSite) 1 0 [] 0))
    /\ In (EvEnter (FnApplyToJob tab))
          (events (processJob (Worlds.siteBrowser Worlds.qaJobSite) 1 0 [] 0))
    /\ exists sel, In sel applySelectors
                   /\ In (EvClick tab sel (Ok tt))
                         (events (processJob (Worlds.siteBrowser Worlds.qaJobSite)
                                             1 0 [] 0)).
Proof.
  apply (processJob_success_is_earned (Worlds.siteBrowser Worlds.qaJobSite) 1 0 [] 0
           (mkJob true None None (Some false) None)); reflexivity.
Defined.

(** * The summary of afterAll *)

Section Summary.

Context {W : Type} (B : Browser W).

(** A verdict in a run of processJob was reported in its deciding step,
    whose result the run returns. *)
Lemma processJob_verdict_decided (jobCard : Card) (cardIndex : nat)
  (cvKeywords : list string) (w : W) (m : LlmMatch) :
  In (EvVerdict m) (events (processJob B jobCard cardIndex cvKeywords w)) ->
  exists tab t c u d w1,
    value (processJob B jobCard cardIndex cvKeywords w)
    = value (processJob_decide B cvKeywords tab t c (Some u) d w1)
    /\ In (EvVerdict m) (events (processJob_decide B cvKeywords tab t c (Some u) d w1)).
Proof.
  intros Hin.
  destruct (processJob_cases B jobCard cardIndex cvKeywords w)
    as [Hv [closing [Hev [Hclosing _]]]].
  destruct (processJob_guarded_cases B jobCard cvKeywords w) as [_ [_ Hg]].
  cbv zeta in *.
  assert (Hopening : forall e, isOpening e -> forall m', e <> EvVerdict m').
  { intros e [He | [c [r' ->]]]; [| intros; discriminate].
    destruct e; try contradiction; intros; discriminate. }
  rewrite Hev in Hin. destruct Hin as [Hin | Hin]; [discriminate |].
  apply in_app_or in Hin. destruct Hin as [Hin | Hin].
  2:{ destruct (Hclosing _ Hin) as [p [r' Hc]]. discriminate. }
  destruct Hg as [Hq | [pre [tab [t [c [u [d [w1 [Hq [Hvd [Hevd _]]]]]]]]]]].
  { exfalso. rewrite Forall_forall in Hq. exact (Hopening _ (Hq _ Hin) m eq_refl). }
  rewrite Hevd in Hin. apply in_app_or in Hin. destruct Hin as [Hin | Hin].
  { exfalso. rewrite Forall_forall in Hq. exact (Hopening _ (Hq _ Hin) m eq_refl). }
  exists tab, t, c, u, d, w1. split; [rewrite Hv; exact Hvd | exact Hin].
Qed.

(** X24. A job the scorer rejects with NO_MATCH is counted once in
    stats.total and twice in the figure afterAll prints as skipped: the
    result is both skipped and a NO_MATCH, and the figure adds the two
    counters. *)
Theorem rejected_job_is_counted_twice (jobCard : Card) (cardIndex : nat)
  (cvKeywords : list string) (w : W) (m : LlmMatch) (stats : Stats) :
  let o := processJob B jobCard cardIndex cvKeywords w in
  In (EvVerdict m) (events o) ->
  match_ m = NO_MATCH ->
  exists r,
    value o = Ok r
    /\ st_total (tally stats r) = st_total stats + 1
    /\ skippedLine (tally stats r) = skippedLine stats + 2.
Proof.
  cbv zeta. intros Hin Hm.
  destruct (processJob_verdict_decided jobCard cardIndex cvKeywords w m Hin)
    as [tab [t [c [u [d [w1 [Hv Hd]]]]]]].
  assert (Hrej : isRejection m = true) by (unfold isRejection; rewrite Hm; reflexivity).
  destruct (processJob_decide_rejected B cvKeywords tab t c (Some u) d w1 m Hd Hrej)
    as [Hvalue _].
  eexists. split; [rewrite Hv; exact Hvalue |].
  unfold tally, skippedLine. cbn. rewrite Hm. cbn. lia.
Qed.

End Summary.

(** A Java job, outside the search terms, that the scorer rejects. *)
Lemma rejected_job_is_counted_twice_witness :
  exists r,
    value (processJob (Worlds.siteBrowser (Worlds.javaJobSite "Little overlap."))
                      1 0 ["Playwright"] 0) = Ok r
    /\ st_total (tally Worlds.noStats r) = 1
    /\ skippedLine (tally Worlds.noStats r) = 2.
Proof.
  apply (rejected_job_is_counted_twice
           (Worlds.siteBrowser (Worlds.javaJobSite "Little overlap."))
           1 0 ["Playwright"] 0 (mkLlm NO_MATCH (Some "Little overlap.")) Worlds.noStats).
  - present.
  - reflexivity.
Defined.

(** * performLogin *)

Section LoginFacts.

Context {W : Type} (B : Browser W).
Variable page_fill : Page -> string -> option string -> W -> res unit * W.
Variable page_waitForNavigation : Page -> W -> res unit * W.
Variables USERNAME PASSWORD : option string.

(** X25. performLogin does nothing on a page that already shows the
    dashboard.  When it raises, the message is Failed to load login page, or
    Login failed: followed by the message of the step that failed, or the
    run ended in the rejected three-second wait of safeGoto.  When it returns
    after a login, the login page was loaded and both input fields
    appeared. *)
Theorem performLogin_outcomes (page : Page) (w : W) :
  let o := performLogin B page_fill page_waitForNavigation USERNAME PASSWORD page w in
  (Js.includes (page_url W B page w) "/dashboard/overview" = true ->
   o = mkOut (Ok tt) w [])
  /\ (forall msg, value o = Throw msg ->
        msg = "Failed to load login page"
        \/ (exists why, msg = "Login failed: " +++ why)
        \/ exists before, events o = before ++ [EvWaitForTimeout page 3000 (Throw msg)])
  /\ (Js.includes (page_url W B page w) "/dashboard/overview" = false ->
      value o = Ok tt ->
      In (EvGoto page LOGIN_URL (Ok tt)) (events o)
      /\ In (EvWaitForSelector page emailInput (Ok tt)) (events o)
      /\ In (EvWaitForSelector page passwordInput (Ok tt)) (events o)).
Proof.
  cbv zeta. unfold performLogin.
  pose proof (safeGoto_loop_raises B page LOGIN_URL 2 (seq 0 3)) as Hraise.
  pose proof (safeGoto_two_retries B page LOGIN_URL) as Hnav.
  cbv zeta in Hraise, Hnav.
  change (safeGoto_loop B page LOGIN_URL 2 (seq 0 3))
    with (safeGoto B page LOGIN_URL 2) in Hraise.
  revert Hraise Hnav. generalize (safeGoto B page LOGIN_URL 2). intros nav Hraise Hnav.
  unfold safeClick, url, waitForSelector, click, waitForTimeout, ask, tryCatch, bind,
    call, gets, throw, ret.
  cbv beta. cbn [value final events].
  destruct (Js.includes (page_url W B page w) "/dashboard/overview") eqn:Hurl.
  { cbn. split; [reflexivity |].
    split; [intros msg H; discriminate H | intros H; discriminate H]. }
  split; [intros H; discriminate H |].
  specialize (Hraise w). specialize (Hnav w).
  destruct Hnav as [_ [Hloaded _]].
  destruct (nav w) as [[[|] | msg0] w1 es1]; cbn [value final events negb] in *.
  - destruct (Hloaded eq_refl) as [Hgoto _].
    assert (Hg : forall tl, In (EvGoto page LOGIN_URL (Ok tt)) ([] ++ es1 ++ tl)).
    { intros tl. apply in_or_app. right. apply in_or_app. now left. }
    revert Hg. generalize es1. intros es Hg.
    repeat run_step; cbn;
      repeat match goal with a : unit |- _ => destruct a end;
      (split; [intros msg' Hv; first [discriminate Hv | injection Hv as <-; eauto] |]);
      intros _ Hv; try discriminate Hv;
      (split; [apply Hg |]);
      split; apply in_or_app; right; cbn; auto 20.
  - cbn. split; [| intros _ Hv; discriminate Hv].
    intros msg Hv. injection Hv as <-. now left.
  - cbn. split; [| intros _ Hv; discriminate Hv].
    intros msg Hv. injection Hv as <-. right. right.
    destruct (Hraise msg0 eq_refl) as [_ [before ->]].
    exists before. rewrite ?app_nil_r. reflexivity.
Qed.

End LoginFacts.
